(** * Ordered-list reconciliation in pretix' item views

    A shallow embedding of the reordering code of
    [src/pretix/control/views/item.py]: [item_move], [category_move],
    [reorder_items], [reorder_categories], [reorder_questions] and
    [QuestionList.get_context_data], together with the properties of the
    specification that concern them; and of further views of the file:
    [ItemList], the move views, [CategoryDelete], [QuestionDelete],
    [QuotaView] and [ItemDelete].

    Conventions of the model.
    - Text is ASCII: a Python [str] is a [string]; [str.isdigit] and [int]
      are the ASCII-digit versions.  Python's own accept digits outside
      ASCII as well, and a numeral beyond the range of a key makes the
      lookup itself fail; [plain_ids] marks the requests on which model
      and code agree, and the statements that fix the outcome of a
      rejected request assume it.
    - The database holds the rows of one event ([request.event]); the ORM
      calls ([filter], [get], [count], [order_by], [save]) are pure
      operations on the lists of rows.  The order of a table list stands for
      the order in which the database returns rows.
    - A view is a computation over the state of the event that either
      returns a value or raises; [transaction.atomic] restores the state
      when the wrapped computation raises. *)

From Stdlib Require Import ZArith NArith String Ascii List.
From Stdlib Require Import DecimalString DecimalN Sorted Permutation Lia.
From stdpp Require Import base option list gmap strings sorting.

Set Warnings "-register-all".
Local Open Scope string_scope.
Local Open Scope list_scope.
Local Open Scope Z_scope.

(** ** Python text primitives *)

Definition is_digit_char (c : ascii) : bool :=
  ((48 <=? nat_of_ascii c) && (nat_of_ascii c <=? 57))%nat.

Fixpoint all_digits (s : string) : bool :=
  match s with
  | EmptyString => true
  | String c s' => is_digit_char c && all_digits s'
  end.

(** [s.isdigit()] on ASCII text: at least one character, all of them
    digits.  (Python's also holds for digits outside ASCII, see
    [plain_id].) *)
Definition isdigit (s : string) : bool :=
  match s with
  | EmptyString => false
  | String _ _ => all_digits s
  end.

(** [int(s)] for a string of ASCII digits; [None] stands for
    [ValueError].  (Python's also reads decimal digits outside ASCII, see
    [plain_id].) *)
Definition int (s : string) : option N :=
  N.of_uint <$> NilZero.uint_of_string s.

(** [str(n)] for a non-negative integer. *)
Definition str (n : N) : string :=
  NilZero.string_of_uint (N.to_uint n).

(** The ids on which the text primitives of the model are those of Python
    and the lookup by key is that of the database: ASCII characters only,
    at most 4300 of them (the interpreter refuses to convert a longer
    numeral), and, for a numeral, a value below 2^63 (the range of a
    key). *)
Definition plain_id (x : string) : bool :=
  forallb (λ c, (nat_of_ascii c <? 128)%nat) (list_ascii_of_string x)
  && (String.length x <=? 4300)%nat
  && match int x with
     | Some k => (k <? 2 ^ 63)%N
     | None => true
     end.

Definition plain_ids (ids : list string) : Prop :=
  Forall (λ x, plain_id x = true) ids.

(** ** JSON values, as [json.loads] returns them *)

Inductive JSON : Type :=
| JNull
| JBool (b : bool)
| JNumber (z : Z)
| JString (s : string)
| JArray (l : list JSON)
| JObject (fields : list (string * JSON)).

(** [d[key]] on a decoded object: with repeated keys the last one wins. *)
Fixpoint dict_get (key : string) (fields : list (string * JSON)) : option JSON :=
  match fields with
  | [] => None
  | (k, v) :: rest =>
      match dict_get key rest with
      | Some v' => Some v'
      | None => if String.eqb k key then Some v else None
      end
  end.

(** The value bound to [ids], seen through the operations the views apply
    to it: iteration, [len], [.index] and [in].  A JSON array of strings is
    a Python list; a JSON string iterates over its characters; a JSON
    object iterates over its keys. *)
Inductive Ids : Type :=
| IdsList (l : list string)
| IdsStr (s : string)
| IdsDict (keys : list string).

Fixpoint chars (s : string) : list string :=
  match s with
  | EmptyString => []
  | String c s' => String c EmptyString :: chars s'
  end.

Definition ids_iter (ids : Ids) : list string :=
  match ids with
  | IdsList l => l
  | IdsStr s => chars s
  | IdsDict keys => keys
  end.

Definition ids_len (ids : Ids) : nat := length (ids_iter ids).

(** [l.index(x)] on a list: the first position holding [x]. *)
Fixpoint list_index (x : string) (l : list string) : option nat :=
  match l with
  | [] => None
  | y :: l' => if String.eqb y x then Some O else S <$> list_index x l'
  end.

Definition ids_contains (ids : Ids) (x : string) : bool :=
  match ids with
  | IdsList l => bool_decide (x ∈ l)
  | IdsStr s => bool_decide (is_Some (String.index 0 x s))
  | IdsDict keys => bool_decide (x ∈ keys)
  end.

(** ** Rows of the event *)

Record ItemCategory := mkItemCategory {
  category_pk : N;
  category_position : Z }.

Record Item := mkItem {
  item_pk : N;
  item_position : Z;
  item_category : option N     (* category_id, [None] for no category *) }.

Record Question := mkQuestion {
  question_pk : N;
  question_position : Z }.

Global Instance ItemCategory_eq_dec : EqDecision ItemCategory.
Proof. solve_decision. Defined.
Global Instance Item_eq_dec : EqDecision Item.
Proof. solve_decision. Defined.
Global Instance Question_eq_dec : EqDecision Question.
Proof. solve_decision. Defined.

(** ** Audit log, writes, settings *)

Inductive Target : Type :=
| OnItem (id : N)
| OnCategory (id : N)
| OnQuestion (id : N)
| OnEvent.

(** Values found in the [data] dictionary of [log_action]. *)
Inductive DataValue : Type :=
| VInt (z : Z)
| VNone
| VItem (i : Item)                 (* a model instance *)
| VDict (m : gmap string Z).

Record LogEntry := mkLogEntry {
  log_target : Target;
  action_type : string;
  log_user : N;
  log_data : list (string * DataValue) }.

(** One entry per statement that writes to the store. *)
Inductive Write : Type :=
| RowSave (t : Target) (update_fields : option (list string))
| SettingsSet (key : string).

Record Settings := mkSettings {
  attendee_names_asked : bool;
  attendee_names_required : bool;
  attendee_emails_asked : bool;
  attendee_emails_required : bool;
  attendee_company_asked : bool;
  attendee_company_required : bool;
  attendee_addresses_asked : bool;
  attendee_addresses_required : bool;
  system_question_order : gmap string Z }.

Definition set_system_question_order (m : gmap string Z) (st : Settings) : Settings :=
  {| attendee_names_asked := attendee_names_asked st;
     attendee_names_required := attendee_names_required st;
     attendee_emails_asked := attendee_emails_asked st;
     attendee_emails_required := attendee_emails_required st;
     attendee_company_asked := attendee_company_asked st;
     attendee_company_required := attendee_company_required st;
     attendee_addresses_asked := attendee_addresses_asked st;
     attendee_addresses_required := attendee_addresses_required st;
     system_question_order := m |}.

(** The state one request acts on. *)
Record State := mkState {
  categories : list ItemCategory;    (* request.event.categories *)
  items : list Item;                 (* request.event.items *)
  questions : list Question;         (* request.event.questions *)
  settings : Settings;               (* request.event.settings *)
  logentries : list LogEntry;        (* audit records, oldest first *)
  writes : list Write;               (* store writes, oldest first *)
  flash : list string                (* django.contrib.messages *) }.

(** ** Outcomes and the view monad *)

Inductive Exn : Type :=
| Http404 (msg : string)
| PermissionDenied
| ValueError
| TypeError
| AttributeError
| DoesNotExist.

Inductive Response : Type :=
| HttpResponse                               (* 200, empty body *)
| HttpResponseBadRequest (content : string)  (* 400 *)
| HttpResponseNotAllowed                     (* 405 *)
| HttpResponseRedirect (to : string).

Inductive Result (A : Type) : Type :=
| Ok (a : A)
| Raise (e : Exn).
Arguments Ok {A} a.
Arguments Raise {A} e.

Definition M (A : Type) : Type := State → Result A * State.

Global Instance M_ret : MRet M := λ A a s, (Ok a, s).
Global Instance M_bind : MBind M := λ A B f m s,
  match m s with
  | (Ok a, s') => f a s'
  | (Raise e, s') => (Raise e, s')
  end.

Definition raise {A} (e : Exn) : M A := λ s, (Raise e, s).
Definition get_state : M State := λ s, (Ok s, s).
Definition modify (f : State → State) : M unit := λ s, (Ok tt, f s).

(** [@transaction.atomic]: commit on return, roll back when an exception
    leaves the block. *)
Definition atomic {A} (m : M A) : M A := λ s,
  match m s with
  | (Ok a, s') => (Ok a, s')
  | (Raise e, _) => (Raise e, s)
  end.

Fixpoint for_each {A} (l : list A) (body : A → M unit) : M unit :=
  match l with
  | [] => mret tt
  | x :: l' => body x ;; for_each l' body
  end.

(** ** Requests and decorators *)

Record HttpRequest := mkRequest {
  method : string;
  user : N;
  can_change_items : bool;   (* outcome of the permission check for this user *)
  body : option JSON         (* json.loads(request.body.decode('utf-8')); [None] when
                                decoding or parsing raises (both are [ValueError]s) *) }.

(** Modelled from the spec: [event_permission_required], defined in
    pretix.control.permissions; a request without the capability is refused
    before the view runs (section 6, PermissionGate). *)
Definition event_permission_required {A} (request : HttpRequest) (view : M A) : M A :=
  if can_change_items request then view else raise PermissionDenied.

(** [@require_http_methods(["POST"])] *)
Definition require_POST (request : HttpRequest) (view : M Response) : M Response :=
  if String.eqb (method request) "POST" then view else mret HttpResponseNotAllowed.

(** [try: ids = json.loads(...)['ids'] except (JSONDecodeError, KeyError,
    ValueError)]: [None] when one of the three is caught.  Subscripting
    anything but a decoded object with ['ids'] is a [TypeError], which is
    not caught. *)
Definition load_ids (request : HttpRequest) : M (option JSON) :=
  match body request with
  | None => mret None
  | Some (JObject fields) => mret (dict_get "ids" fields)
  | Some _ => raise TypeError
  end.

Definition as_str (v : JSON) : option string :=
  match v with
  | JString s => Some s
  | _ => None
  end.

(** The comprehension [[i for i in ids if i.isdigit()]] is the first
    statement after the [try]: it needs [ids] iterable ([TypeError]
    otherwise) and every element a [str] ([AttributeError] otherwise). *)
Definition as_ids (v : JSON) : M Ids :=
  match v with
  | JArray l =>
      match mapM as_str l with
      | Some strs => mret (IdsList strs)
      | None => raise AttributeError
      end
  | JString s => mret (IdsStr s)
  | JObject fields => mret (IdsDict (remove_dups (fields.*1)))
  | JNull | JBool _ | JNumber _ => raise TypeError
  end.

(** [ids.index(x)]; a dict has no [index]. *)
Definition ids_index (ids : Ids) (x : string) : M nat :=
  match ids with
  | IdsList l =>
      match list_index x l with
      | Some i => mret i
      | None => raise ValueError
      end
  | IdsStr s =>
      match String.index 0 x s with
      | Some i => mret i
      | None => raise ValueError
      end
  | IdsDict _ => raise AttributeError
  end.

(** ** The ORM, as the views use it *)

Class Model (A : Type) := {
  pk : A → N;
  position : A → Z;
  set_position : Z → A → A;           (* obj.position = z *)
  objects : State → list A;           (* the event's manager for the model *)
  set_objects : list A → State → State;
  target : A → Target }.

Global Instance ItemCategory_Model : Model ItemCategory := {|
  pk := category_pk;
  position := category_position;
  set_position z c := mkItemCategory (category_pk c) z;
  objects := categories;
  set_objects l s :=
    mkState l (items s) (questions s) (settings s) (logentries s) (writes s) (flash s);
  target c := OnCategory (category_pk c) |}.

Global Instance Item_Model : Model Item := {|
  pk := item_pk;
  position := item_position;
  set_position z i := mkItem (item_pk i) z (item_category i);
  objects := items;
  set_objects l s :=
    mkState (categories s) l (questions s) (settings s) (logentries s) (writes s) (flash s);
  target i := OnItem (item_pk i) |}.

Global Instance Question_Model : Model Question := {|
  pk := question_pk;
  position := question_position;
  set_position z q := mkQuestion (question_pk q) z;
  objects := questions;
  set_objects l s :=
    mkState (categories s) (items s) l (settings s) (logentries s) (writes s) (flash s);
  target q := OnQuestion (question_pk q) |}.

Definition add_write (w : Write) (s : State) : State :=
  mkState (categories s) (items s) (questions s) (settings s) (logentries s)
          (writes s ++ [w]) (flash s).

Definition add_log (e : LogEntry) (s : State) : State :=
  mkState (categories s) (items s) (questions s) (settings s) (logentries s ++ [e])
          (writes s) (flash s).

Definition add_flash (msg : string) (s : State) : State :=
  mkState (categories s) (items s) (questions s) (settings s) (logentries s)
          (writes s) (flash s ++ [msg]).

Definition set_settings (st : Settings) (s : State) : State :=
  mkState (categories s) (items s) (questions s) st (logentries s) (writes s) (flash s).

Section ORM.
Context {A : Type} `{Model A}.

(** [manager.filter(id__in=vals)]: the rows whose key is the integer value
    of one of [vals]. *)
Definition filter_id_in (vals : list string) : M (list A) :=
  s ← get_state;
  mret (filter (λ r, pk r ∈ omap int vals) (objects s)).

(** [manager.count()] *)
Definition count : M nat :=
  s ← get_state; mret (length (objects s)).

(** [manager.get(id=id)]; [None] stands for [DoesNotExist]. *)
Definition get_by_id (id : N) : M (option A) :=
  s ← get_state;
  mret (snd <$> list_find (λ r, pk r = id) (objects s)).

(** The row with the key of [obj] becomes [obj]. *)
Definition replace_row (obj : A) (rows : list A) : list A :=
  (λ r, if decide (pk r = pk obj) then obj else r) <$> rows.

(** [obj.save(update_fields=...)].  The object was read in this request
    and only the named fields were assigned since, so the stored row
    becomes the object whether or not [update_fields] is given. *)
Definition save (obj : A) (update_fields : option (list string)) : M unit :=
  modify (λ s, add_write (RowSave (target obj) update_fields)
                 (set_objects (replace_row obj (objects s)) s)).

(** [l.index(obj)] for model instances, which compare by primary key. *)
Definition index_of (obj : A) (l : list A) : option nat :=
  fst <$> list_find (λ r, pk r = pk obj) l.
End ORM.

Definition log_action (t : Target) (action : string) (u : N)
    (data : list (string * DataValue)) : M unit :=
  modify (add_log (mkLogEntry t action u data)).

Definition messages_success (msg : string) : M unit :=
  modify (add_flash msg).

(** A stable sort by key: [order_by("position")] and
    [list.sort(key=lambda q: q.position)]. *)
Fixpoint insert_by {A} (key : A → Z) (x : A) (l : list A) : list A :=
  match l with
  | [] => [x]
  | y :: l' => if key x <=? key y then x :: y :: l' else y :: insert_by key x l'
  end.

Definition sort_by {A} (key : A → Z) (l : list A) : list A :=
  foldr (insert_by key) [] l.

(** [l[i], l[j] = l[j], l[i]], for indices in range. *)
Definition swap {A} (i j : nat) (l : list A) : list A :=
  match l !! i, l !! j with
  | Some x, Some y => <[j := x]> (<[i := y]> l)
  | _, _ => l
  end.

Definition enumerate {A} (l : list A) : list (nat * A) :=
  imap (λ i x, (i, x)) l.

(** ** Single-step moves *)

(** [item_move]: bring the items of the item's category in a new order. *)
Definition item_move (request : HttpRequest) (item : N) (up : bool) : M unit :=
  found ← get_by_id (A:=Item) item;
  match found with
  | None => raise (Http404 "The requested product does not exist.")
  | Some item =>
      s ← get_state;
      let items :=
        sort_by position (filter (λ i, item_category i = item_category item) (objects s)) in
      match index_of item items with
      | None => raise ValueError
      | Some index =>
          let items :=
            if bool_decide (index ≠ 0%nat) && up then
              swap (index - 1) index items
            else if bool_decide (Z.of_nat index ≠ Z.of_nat (length items) - 1) && negb up then
              swap (index + 1) index items
            else items in
          for_each (enumerate items) (λ '(i, item),
            if bool_decide (position item ≠ Z.of_nat i) then
              let item := set_position (Z.of_nat i) item in
              save item None;;
              log_action (target item) "pretix.event.item.reordered" (user request)
                         [("position", VInt (Z.of_nat i))]
            else mret tt);;
          messages_success "The order of items has been updated."
      end
  end.

Definition item_move_up (request : HttpRequest) (item : N) : M Response :=
  event_permission_required request (require_POST request (
    item_move request item true;;
    mret (HttpResponseRedirect "control:event.items"))).

Definition item_move_down (request : HttpRequest) (item : N) : M Response :=
  event_permission_required request (require_POST request (
    item_move request item false;;
    mret (HttpResponseRedirect "control:event.items"))).

(** [category_move]: bring the categories of the event in a new order. *)
Definition category_move (request : HttpRequest) (category : N) (up : bool) : M unit :=
  found ← get_by_id (A:=ItemCategory) category;
  match found with
  | None => raise (Http404 "The requested product category does not exist.")
  | Some category =>
      s ← get_state;
      let categories := sort_by position (objects (A:=ItemCategory) s) in
      match index_of category categories with
      | None => raise ValueError
      | Some index =>
          let categories :=
            if bool_decide (index ≠ 0%nat) && up then
              swap (index - 1) index categories
            else if bool_decide (Z.of_nat index ≠ Z.of_nat (length categories) - 1) && negb up then
              swap (index + 1) index categories
            else categories in
          for_each (enumerate categories) (λ '(i, cat),
            if bool_decide (position cat ≠ Z.of_nat i) then
              let cat := set_position (Z.of_nat i) cat in
              save cat None;;
              log_action (target cat) "pretix.event.category.reordered" (user request)
                         [("position", VInt (Z.of_nat i))]
            else mret tt);;
          messages_success "The order of categories has been updated."
      end
  end.

Definition category_move_up (request : HttpRequest) (category : N) : M Response :=
  event_permission_required request (require_POST request (
    category_move request category true;;
    mret (HttpResponseRedirect "control:event.items.categories"))).

Definition category_move_down (request : HttpRequest) (category : N) : M Response :=
  event_permission_required request (require_POST request (
    category_move request category false;;
    mret (HttpResponseRedirect "control:event.items.categories"))).

(** ** Reorder endpoints *)

Definition expected_json : string := "expected JSON: {ids:[]}".
Definition invalid_ids : string := "Some of the provided object ids are invalid.".
Definition not_all_selected : string := "Not all objects have been selected.".

(** [reorder_items]; [category] is the integer of the URL segment. *)
Definition reorder_items (request : HttpRequest) (category : N) : M Response :=
  atomic (event_permission_required request (require_POST request (
    loaded ← load_ids request;
    match loaded with
    | None => mret (HttpResponseBadRequest expected_json)
    | Some v =>
        ids ← as_ids v;
        input_items ← filter_id_in (A:=Item) (filter isdigit (ids_iter ids));
        if bool_decide (length input_items ≠ ids_len ids) then
          raise (Http404 invalid_ids)
        else
          target_category ←
            (if bool_decide (category ≠ 0%N) then
               found ← get_by_id (A:=ItemCategory) category;
               match found with
               | Some c => mret (Some (pk c))
               | None => raise DoesNotExist
               end
             else mret None);
          for_each input_items (λ i,
            pos ← ids_index ids (str (pk i));
            if bool_decide (Z.of_nat pos ≠ position i ∨ target_category ≠ item_category i) then
              let i := mkItem (item_pk i) (Z.of_nat pos) target_category in
              save i (Some ["position"; "category_id"]);;
              log_action (target i) "pretix.event.item.reordered" (user request)
                         [("position", VItem i);
                          ("category", from_option (λ k, VInt (Z.of_N k)) VNone target_category)]
            else mret tt);;
          mret HttpResponse
    end))).

Definition reorder_categories (request : HttpRequest) : M Response :=
  atomic (event_permission_required request (require_POST request (
    loaded ← load_ids request;
    match loaded with
    | None => mret (HttpResponseBadRequest expected_json)
    | Some v =>
        ids ← as_ids v;
        input_categories ← filter_id_in (A:=ItemCategory) (filter isdigit (ids_iter ids));
        if bool_decide (length input_categories ≠ ids_len ids) then
          raise (Http404 invalid_ids)
        else
          n ← count (A:=ItemCategory);
          if bool_decide (length input_categories ≠ n) then
            raise (Http404 not_all_selected)
          else
            for_each input_categories (λ c,
              pos ← ids_index ids (str (pk c));
              if bool_decide (Z.of_nat pos ≠ position c) then
                let c := set_position (Z.of_nat pos) c in
                save c (Some ["position"]);;
                log_action (target c) "pretix.event.category.reordered" (user request)
                           [("position", VInt (Z.of_nat pos))]
              else mret tt);;
            mret HttpResponse
    end))).

Definition system_questions : list string :=
  ["attendee_name_parts"; "attendee_email"; "company"; "street"; "zipcode"; "city"; "country"].

(** The loop filling [system_question_order], one key at a time. *)
Fixpoint fill_order (ids : Ids) (keys : list string) (order : gmap string Z)
    : M (gmap string Z) :=
  match keys with
  | [] => mret order
  | s :: keys' =>
      if ids_contains ids s then
        i ← ids_index ids s;
        fill_order ids keys' (<[s := Z.of_nat i]> order)
      else
        fill_order ids keys' (<[s := -1]> order)
  end.

Definition reorder_questions (request : HttpRequest) : M Response :=
  atomic (event_permission_required request (require_POST request (
    loaded ← load_ids request;
    match loaded with
    | None => mret (HttpResponseBadRequest expected_json)
    | Some v =>
        ids ← as_ids v;
        let custom_question_ids := filter isdigit (ids_iter ids) in
        input_questions ← filter_id_in (A:=Question) custom_question_ids;
        if bool_decide (length input_questions ≠ length custom_question_ids) then
          raise (Http404 invalid_ids)
        else
          n ← count (A:=Question);
          if bool_decide (length input_questions ≠ n) then
            raise (Http404 not_all_selected)
          else
            for_each input_questions (λ q,
              pos ← ids_index ids (str (pk q));
              if bool_decide (Z.of_nat pos ≠ position q) then
                let q := set_position (Z.of_nat pos) q in
                save q (Some ["position"]);;
                log_action (target q) "pretix.event.question.reordered" (user request)
                           [("position", VInt (Z.of_nat pos))]
              else mret tt);;
            system_question_order ← fill_order ids system_questions ∅;
            modify (λ s, add_write (SettingsSet "system_question_order")
                           (set_settings
                              (set_system_question_order system_question_order (settings s)) s));;
            log_action OnEvent "pretix.event.settings" (user request)
                       [("system_question_order", VDict system_question_order)];;
            mret HttpResponse
    end))).

(** ** The question list *)

Record FakeQuestion := mkFakeQuestion {
  fq_id : string;
  fq_question : string;
  fq_position : Z;
  fq_required : bool }.

(** An entry of the displayed list: a system field or a stored question. *)
Inductive Entry : Type :=
| Fake (f : FakeQuestion)
| Stored (q : Question).

Definition entry_position (e : Entry) : Z :=
  match e with
  | Fake f => fq_position f
  | Stored q => question_position q
  end.

(** [system_question_order.get(key, 0)] *)
Definition order_get (st : Settings) (key : string) : Z :=
  default 0 (system_question_order st !! key).

Definition fake (st : Settings) (id label : string) (required : bool) : Entry :=
  Fake (mkFakeQuestion id label (order_get st id) required).

(** [QuestionList.get_context_data]: the value of [ctx['questions']]. *)
Definition get_context_data (s : State) : list Entry :=
  let st := settings s in
  let object_list := questions s in      (* ctx['questions'] of the ListView *)
  let questions : list Entry := [] in
  let questions :=
    if attendee_names_asked st then
      questions ++ [fake st "attendee_name_parts" "Attendee name" (attendee_names_required st)]
    else questions in
  let questions :=
    if attendee_emails_asked st then
      questions ++ [fake st "attendee_email" "Attendee email" (attendee_emails_required st)]
    else questions in
  let questions :=
    if attendee_company_asked st then
      questions ++ [fake st "company" "Company" (attendee_company_required st)]
    else questions in
  let questions :=
    if attendee_addresses_asked st then
      questions ++ [fake st "street" "Street" (attendee_addresses_required st);
                    fake st "zipcode" "ZIP code" (attendee_addresses_required st);
                    fake st "city" "City" (attendee_addresses_required st);
                    fake st "country" "Country" (attendee_addresses_required st)]
    else questions in
  let questions := questions ++ (Stored <$> object_list) in
  sort_by entry_position questions.

(** ** The effect of the renumbering loops, as a function on states

    Every loop of the views has the same body: compare, assign, save, log.
    [commit] is that body folded over (new position, object) pairs;
    [plan] builds the object that is saved, [changed] is the guard and
    [entry] the audit record. *)

Class ModelLaws (A : Type) `{Model A} := {
  pk_set_position z a : pk (set_position z a) = pk a;
  position_set_position z a : position (set_position z a) = z;
  set_position_same a : set_position (position a) a = a;
  objects_set_objects l s : objects (set_objects l s) = l;
  logentries_set_objects l s : logentries (set_objects l s) = logentries s;
  writes_set_objects l s : writes (set_objects l s) = writes s;
  settings_set_objects l s : settings (set_objects l s) = settings s;
  flash_set_objects l s : flash (set_objects l s) = flash s;
  objects_add_log e s : objects (add_log e s) = objects s;
  objects_add_write w s : objects (add_write w s) = objects s;
  objects_add_flash m s : objects (add_flash m s) = objects s;
  target_set_position z a : target (set_position z a) = target a;
  target_not_event a : target a ≠ OnEvent }.

Section Commit.
Context {A : Type} `{Model A}.
Variable plan : A → nat → A.
Variable changed : A → nat → Prop.
Context `{∀ x i, Decision (changed x i)}.
Variable entry : A → nat → LogEntry.
Variable fields : option (list string).

Definition step (p : nat * A) : M unit :=
  if bool_decide (changed p.2 p.1) then
    save (plan p.2 p.1) fields;;
    modify (add_log (entry (plan p.2 p.1) p.1))
  else mret tt.

Definition commit1 (s : State) (p : nat * A) : State :=
  if bool_decide (changed p.2 p.1) then
    add_log (entry (plan p.2 p.1) p.1)
      (add_write (RowSave (target (plan p.2 p.1)) fields)
         (set_objects (replace_row (plan p.2 p.1) (objects s)) s))
  else s.

Definition commit (pairs : list (nat * A)) (s : State) : State :=
  foldl commit1 s pairs.

(** What the loop does to one row of the table. *)
Definition walk1 (r : A) (p : nat * A) : A :=
  if bool_decide (changed p.2 p.1) then
    if decide (pk r = pk (plan p.2 p.1)) then plan p.2 p.1 else r
  else r.

Definition walk (pairs : list (nat * A)) (r : A) : A := foldl walk1 r pairs.

(** The pairs whose guard holds. *)
Definition moved (pairs : list (nat * A)) : list (nat * A) :=
  filter (λ p, changed p.2 p.1) pairs.

(** The positions found by [ids.index(str(obj.pk))]; [None] when one of
    the lookups raises. *)
Definition indexed (ids : list string) (input : list A) : option (list (nat * A)) :=
  mapM (λ c, (λ i, (i, c)) <$> list_index (str (pk c)) ids) input.
End Commit.

(** The scope, guard and records of each loop. *)

Definition strict_changed {A} `{Model A} (x : A) (i : nat) : Prop :=
  Z.of_nat i ≠ position x.

Definition strict_plan {A} `{Model A} (x : A) (i : nat) : A :=
  set_position (Z.of_nat i) x.

Definition position_entry {A} `{Model A} (action : string) (u : N) (x : A) (i : nat)
    : LogEntry :=
  mkLogEntry (target x) action u [("position", VInt (Z.of_nat i))].

Definition move_changed {A} `{Model A} (x : A) (i : nat) : Prop :=
  position x ≠ Z.of_nat i.

Definition relaxed_changed (target_category : option N) (x : Item) (i : nat) : Prop :=
  Z.of_nat i ≠ position x ∨ target_category ≠ item_category x.

Definition relaxed_plan (target_category : option N) (x : Item) (i : nat) : Item :=
  mkItem (item_pk x) (Z.of_nat i) target_category.

Definition relaxed_entry (target_category : option N) (u : N) (x : Item) (i : nat)
    : LogEntry :=
  mkLogEntry (target x) "pretix.event.item.reordered" u
    [("position", VItem x);
     ("category", from_option (λ k, VInt (Z.of_N k)) VNone target_category)].

(** The list after the conditional swap of the move helpers. *)
Definition moved_list {A} (up : bool) (index : nat) (l : list A) : list A :=
  if bool_decide (index ≠ 0%nat) && up then
    swap (index - 1) index l
  else if bool_decide (Z.of_nat index ≠ Z.of_nat (length l) - 1) && negb up then
    swap (index + 1) index l
  else l.

(** A request that passes the decorators and carries [{"ids": [...]}]. *)
Definition ids_request (u : N) (ids : list string) : HttpRequest :=
  mkRequest "POST" u true (Some (JObject [("ids", JArray (JString <$> ids))])).

(** Contiguity of a list of positions: a rearrangement of [0 .. n-1]. *)
Definition contiguous (positions : list Z) : Prop :=
  positions ≡ₚ (Z.of_nat <$> seq 0 (length positions)).

(** An id of the request resolves when it is a numeral of the key of some
    row of the scope. *)
Definition resolves (keys : list N) (x : string) : Prop :=
  isdigit x ∧ ∃ k, k ∈ keys ∧ int x = Some k.

(** The flag that switches a system field on. *)
Definition asked (st : Settings) (key : string) : bool :=
  if String.eqb key "attendee_name_parts" then attendee_names_asked st
  else if String.eqb key "attendee_email" then attendee_emails_asked st
  else if String.eqb key "company" then attendee_company_asked st
  else if bool_decide (key ∈ ["street"; "zipcode"; "city"; "country"])
       then attendee_addresses_asked st
  else false.

Definition entry_id (e : Entry) : string :=
  match e with
  | Fake f => fq_id f
  | Stored q => str (question_pk q)
  end.

Definition is_fake (e : Entry) : bool :=
  match e with
  | Fake _ => true
  | Stored _ => false
  end.

(** ** Vocabulary of the statements: views, plans, example states *)

(** The three models obey the laws. *)
Global Instance ItemCategory_Laws : ModelLaws ItemCategory.
Proof. split; try done; by intros []. Qed.

Global Instance Item_Laws : ModelLaws Item.
Proof. split; try done; by intros []. Qed.

Global Instance Question_Laws : ModelLaws Question.
Proof. split; try done; by intros []. Qed.

Global Instance strict_changed_dec {A} `{Model A} (x : A) (i : nat) :
  Decision (strict_changed x i).
Proof. unfold strict_changed. apply _. Defined.

Global Instance move_changed_dec {A} `{Model A} (x : A) (i : nat) :
  Decision (move_changed x i).
Proof. unfold move_changed. apply _. Defined.

Global Instance relaxed_changed_dec t (x : Item) (i : nat) :
  Decision (relaxed_changed t x i).
Proof. unfold relaxed_changed. apply _. Defined.

Definition category_commit (u : N) :=
  commit (A:=ItemCategory) strict_plan strict_changed
    (position_entry "pretix.event.category.reordered" u) (Some ["position"]).

Definition question_commit (u : N) :=
  commit (A:=Question) strict_plan strict_changed
    (position_entry "pretix.event.question.reordered" u) (Some ["position"]).

Definition item_commit (u : N) (t : option N) :=
  commit (A:=Item) (relaxed_plan t) (relaxed_changed t)
    (relaxed_entry t u) (Some ["position"; "category_id"]).

(** The rows selected by [filter(id__in=[i for i in ids if i.isdigit()])]. *)
Definition selected {A} `{Model A} (ids : list string) (rows : list A) : list A :=
  filter (λ r, pk r ∈ omap int (filter isdigit ids)) rows.

(** The position recorded for a system key: its index, or -1. *)
Definition key_position (ids : list string) (key : string) : Z :=
  match list_index key ids with
  | Some i => Z.of_nat i
  | None => -1
  end.

Definition fill_pure (ids : list string) (keys : list string) (order : gmap string Z)
    : gmap string Z :=
  foldl (λ m key, <[key := key_position ids key]> m) order keys.

Definition settings_entry (u : N) (order : gmap string Z) : LogEntry :=
  mkLogEntry OnEvent "pretix.event.settings" u [("system_question_order", VDict order)].

(** The state after the settings part of [reorder_questions]. *)
Definition store_order (u : N) (order : gmap string Z) (s : State) : State :=
  add_log (settings_entry u order)
    (add_write (SettingsSet "system_question_order")
       (set_settings (set_system_question_order order (settings s)) s)).

(** The category an item request points at: [Some None] for "no category",
    [None] when [categories.get] raises [DoesNotExist]. *)
Definition target_of (category : N) (s : State) : option (option N) :=
  if bool_decide (category ≠ 0%N) then
    (λ c, Some (pk c.2)) <$> list_find (λ r : ItemCategory, pk r = category) (categories s)
  else Some None.

(** Every row takes the position of its id in the request. *)
Definition reordered {A} `{Model A} (ids : list string) (rows : list A) : list A :=
  (λ r, set_position (key_position ids (str (pk r))) r) <$> rows.

Definition row_view {A} `{Model A} (rows : list A) : list (N * Z) :=
  (λ r, (pk r, position r)) <$> rows.

(** The two endpoints that demand the whole scope. *)
Inductive Strict : Type := StrictCategories | StrictQuestions.

Definition strict_view (k : Strict) : HttpRequest → M Response :=
  match k with
  | StrictCategories => reorder_categories
  | StrictQuestions => reorder_questions
  end.

(** Key and stored position of every row of the scope. *)
Definition strict_rows (k : Strict) (s : State) : list (N * Z) :=
  match k with
  | StrictCategories => row_view (categories s)
  | StrictQuestions => row_view (questions s)
  end.

Definition example_settings : Settings :=
  mkSettings true true true true false false false false ∅.

Definition example_state : State :=
  mkState [mkItemCategory 1 0; mkItemCategory 2 1; mkItemCategory 3 2]
          [mkItem 11 0 (Some 1%N); mkItem 12 1 (Some 1%N); mkItem 13 2 (Some 1%N);
           mkItem 14 0 (Some 2%N)]
          [mkQuestion 17 0]
          example_settings [] [] [].

(** The three reorder endpoints, as the URL resolver reaches them. *)
Inductive Endpoint : Type :=
| ReorderItems (category : N)
| ReorderCategories
| ReorderQuestions.

Definition run (e : Endpoint) (request : HttpRequest) : M Response :=
  match e with
  | ReorderItems category => reorder_items request category
  | ReorderCategories => reorder_categories request
  | ReorderQuestions => reorder_questions request
  end.

(** The category an item request assigns. *)
Definition new_category (category : N) : option N :=
  if bool_decide (category ≠ 0%N) then Some category else None.

(** The computed position of a row differs from the stored one. *)
Definition differs_position {A} `{Model A} (ids : list string) (r : A) : Prop :=
  key_position ids (str (pk r)) ≠ position r.

(** The entities resolved from the request whose computed state differs
    from the stored state, in the order of the loop. *)
Definition changed_targets (e : Endpoint) (ids : list string) (s : State) : list Target :=
  match e with
  | ReorderItems category =>
      target <$> filter (λ i, differs_position ids i ∨ new_category category ≠ item_category i)
                        (selected ids (items s))
  | ReorderCategories =>
      target <$> filter (differs_position ids) (selected ids (categories s))
  | ReorderQuestions =>
      target <$> filter (differs_position ids) (selected ids (questions s))
  end.

Global Instance Target_eq_dec : EqDecision Target.
Proof. solve_decision. Defined.

(** The rows written, and the entities logged about. *)
Definition saved (ws : list Write) : list Target :=
  omap (λ w, match w with RowSave t _ => Some t | SettingsSet _ => None end) ws.

Definition logged (es : list LogEntry) : list Target :=
  filter (λ t, t ≠ OnEvent) (log_target <$> es).

(** The keys of the scope an endpoint works on, the ids it validates, and
    whether it demands the whole scope. *)
Definition scope_keys (e : Endpoint) (s : State) : list N :=
  match e with
  | ReorderItems _ => pk <$> items s
  | ReorderCategories => pk <$> categories s
  | ReorderQuestions => pk <$> questions s
  end.




(** A request that an endpoint accepts: the submitted ids (for questions,
    the numeric ones) are the decimal keys of the rows to place, each once;
    these are any rows for items and all rows of the scope for categories
    and questions; for items the category of the URL is 0 or a category of
    the event. *)
Definition valid_request (e : Endpoint) (ids : list string) (s : State) : Prop :=
  plain_ids ids
  ∧ match e with
    | ReorderItems category =>
        (∃ keys, NoDup keys ∧ keys ⊆ (pk <$> items s) ∧ ids = str <$> keys)
        ∧ (category = 0%N ∨ category ∈ (pk <$> categories s))
    | ReorderCategories => ids ≡ₚ str <$> (pk <$> categories s)
    | ReorderQuestions => filter isdigit ids ≡ₚ str <$> (pk <$> questions s)
    end.

Definition checked (k : Strict) (ids : list string) : list string :=
  match k with
  | StrictCategories => ids
  | StrictQuestions => filter isdigit ids
  end.

Definition is_row_save (w : Write) : Prop :=
  match w with
  | RowSave _ _ => True
  | SettingsSet _ => False
  end.

Definition item_scope (it : Item) (s : State) : list Item :=
  sort_by position (filter (λ i, item_category i = item_category it) (items s)).

Definition category_scope (s : State) : list ItemCategory :=
  sort_by position (categories s).

Definition item_move_commit (u : N) :=
  commit (A:=Item) strict_plan move_changed
    (position_entry "pretix.event.item.reordered" u) None.

Definition category_move_commit (u : N) :=
  commit (A:=ItemCategory) strict_plan move_changed
    (position_entry "pretix.event.category.reordered" u) None.

Fixpoint enum_from {A} (n : nat) (l : list A) : list (nat * A) :=
  match l with
  | [] => []
  | x :: l' => (n, x) :: enum_from (S n) l'
  end.

(** The stored position of the row with a given key. *)
Definition stored_position (key : N) (rows : list (N * Z)) : option Z :=
  (λ found, found.2.2) <$> list_find (λ p, p.1 = key) rows.

(** The keys whose stored position differs between two states of a table. *)
Definition repositioned (before after : list (N * Z)) : list N :=
  filter (λ key, stored_position key after ≠ stored_position key before) before.*1.

Inductive MoveKind : Type := MoveItem | MoveCategory.

Definition move (k : MoveKind) (request : HttpRequest) (id : N) (up : bool) : M unit :=
  match k with
  | MoveItem => item_move request id up
  | MoveCategory => category_move request id up
  end.

(** Key and stored position of every row of the table. *)
Definition table_view (k : MoveKind) (s : State) : list (N * Z) :=
  match k with
  | MoveItem => row_view (items s)
  | MoveCategory => row_view (categories s)
  end.

(** The scope of the entity [id], in the order in which the helper loads
    it: the items of its category, or all categories, by position. *)
Definition scope_view (k : MoveKind) (id : N) (s : State) : list (N * Z) :=
  match k with
  | MoveItem =>
      match list_find (λ r : Item, pk r = id) (items s) with
      | Some (_, it) => row_view (item_scope it s)
      | None => []
      end
  | MoveCategory => row_view (category_scope s)
  end.

Definition move_target (k : MoveKind) (id : N) : Target :=
  match k with
  | MoveItem => OnItem id
  | MoveCategory => OnCategory id
  end.

Definition same_category (it : Item) (i : Item) : Prop :=
  item_category i = item_category it.

Global Instance same_category_dec it i : Decision (same_category it i) :=
  decide (item_category i = item_category it).

(** A category whose items were left with a gap by a deletion. *)
Definition gap_state : State :=
  mkState [mkItemCategory 1 0]
          [mkItem 11 0 (Some 1%N); mkItem 12 2 (Some 1%N)]
          [] example_settings [] [] [].

Definition post_request : HttpRequest := mkRequest "POST" 7 true None.

(** The seven system fields as the specification lists them: key, label,
    the flag that switches the field on, and the flag that makes it
    required. *)
Definition spec_system_fields (st : Settings) : list (string * string * bool * bool) :=
  [("attendee_name_parts", "Attendee name",
      attendee_names_asked st, attendee_names_required st);
   ("attendee_email", "Attendee email",
      attendee_emails_asked st, attendee_emails_required st);
   ("company", "Company", attendee_company_asked st, attendee_company_required st);
   ("street", "Street", attendee_addresses_asked st, attendee_addresses_required st);
   ("zipcode", "ZIP code", attendee_addresses_asked st, attendee_addresses_required st);
   ("city", "City", attendee_addresses_asked st, attendee_addresses_required st);
   ("country", "Country", attendee_addresses_asked st, attendee_addresses_required st)].

(** One virtual entry per enabled field, in the order of the table. *)
Definition spec_virtual_entries (st : Settings) : list Entry :=
  (λ f, fake st f.1.1.1 f.1.1.2 f.2) <$> filter (λ f, f.1.2 = true) (spec_system_fields st).

(** The keys of the enabled fields. *)
Definition spec_enabled_keys (st : Settings) : list string :=
  (λ f, f.1.1.1) <$> filter (λ f, f.1.2 = true) (spec_system_fields st).

(** ** The item list *)

(** [itertools.groupby(l, key)]: the runs of consecutive elements with the
    same key, each with its key. *)
Fixpoint groupby {A K} `{EqDecision K} (key : A → K) (l : list A) : list (K * list A) :=
  match l with
  | [] => []
  | x :: l' =>
      match groupby key l' with
      | (k, g) :: rest =>
          if decide (key x = k) then (k, x :: g) :: rest
          else (key x, [x]) :: (k, g) :: rest
      | [] => [(key x, [x])]
      end
  end.

(** [{k: v for k, v in pairs}]: a later pair replaces an earlier one with
    the same key. *)
Definition dict_of {K V} `{Countable K} (pairs : list (K * V)) : gmap K V :=
  foldl (λ m p, <[p.1 := p.2]> m) ∅ pairs.

(** [order_by] with several columns: a stable sort by the comparison of
    the rows. *)
Fixpoint insert_le {A} (le : A → A → bool) (x : A) (l : list A) : list A :=
  match l with
  | [] => [x]
  | y :: l' => if le x y then x :: y :: l' else y :: insert_le le x l'
  end.

Definition order_by {A} (le : A → A → bool) (l : list A) : list A :=
  foldr (insert_le le) [] l.

(** Two values of a nullable column under [ASC NULLS FIRST]. *)
Definition compare_nulls_first (a b : option Z) : comparison :=
  match a, b with
  | None, None => Eq
  | None, Some _ => Lt
  | Some _, None => Gt
  | Some x, Some y => x ?= y
  end.

(** [F('category__position')]: the position of the category row joined to
    the item, NULL when there is none. *)
Definition category__position (s : State) (i : Item) : option Z :=
  k ← item_category i;
  (λ found, position found.2) <$> list_find (λ c : ItemCategory, pk c = k) (categories s).

(** [order_by(F('category__position').asc(nulls_first=True), 'category',
    'position')]: the rows compare by the position of their category,
    rows without category first, then by the column [category], then by
    their own position.  Between rows whose categories have the same
    position the column [category] compares the keys of the categories. *)
Definition ItemList_order (s : State) (a b : Item) : bool :=
  match compare_nulls_first (category__position s a) (category__position s b) with
  | Lt => true
  | Gt => false
  | Eq =>
      match compare_nulls_first (Z.of_N <$> item_category a) (Z.of_N <$> item_category b) with
      | Lt => true
      | Gt => false
      | Eq => position a <=? position b
      end
  end.

(** [ItemList.get_queryset] *)
Definition ItemList_get_queryset (s : State) : list Item :=
  order_by (ItemList_order s) (items s).

(** [ItemList.get_context_data]: the value of [ctx['cat_list']], where
    [ctx['items']] is the queryset above.  Model instances compare and hash
    by primary key, so [groupby] and the dictionary work on the key of the
    category, [None] for no category.  [categories.all()] is the table of
    categories. *)
Definition ItemList_get_context_data (s : State) : list (option ItemCategory * list Item) :=
  let items := ItemList_get_queryset s in
  let items_by_category := dict_of (groupby item_category items) in
  (λ cat : option ItemCategory, (cat, default [] (items_by_category !! (pk <$> cat))))
    <$> (None :: (Some <$> categories s)).

(** Every category id of an item is the key of a category of the event. *)
Definition categories_exist (s : State) : Prop :=
  ∀ i k, i ∈ items s → item_category i = Some k → k ∈ (pk <$> categories s).

(** What the two columns of the category decide between two items. *)
Definition category_compare (s : State) (a b : Item) : comparison :=
  match compare_nulls_first (category__position s a) (category__position s b) with
  | Eq => compare_nulls_first (Z.of_N <$> item_category a) (Z.of_N <$> item_category b)
  | c => c
  end.

(** ** Deleting a category or a question *)

(** [obj.delete()]: the row with the key of [obj] leaves its table.  The
    list [writes] records saves and settings; a delete shows in the
    table. *)
Definition row_delete {A} `{Model A} (obj : A) : M unit :=
  modify (λ s, set_objects (filter (λ r, pk r ≠ pk obj) (objects s)) s).

(** [CategoryDelete.get_object] *)
Definition CategoryDelete_get_object (category : N) : M ItemCategory :=
  found ← get_by_id (A:=ItemCategory) category;
  match found with
  | Some c => mret c
  | None => raise (Http404 "The requested product category does not exist.")
  end.

(** [CategoryDelete.delete]; [self.object.items.all()] are the items whose
    category is the object, in the order of the table. *)
Definition CategoryDelete_delete (request : HttpRequest) (category : N) : M Response :=
  atomic (
    object ← CategoryDelete_get_object category;
    s ← get_state;
    for_each (filter (λ i, item_category i = Some (pk object)) (items s)) (λ item,
      let item := mkItem (item_pk item) (item_position item) None in
      save item None);;
    let success_url := "control:event.items.categories" in
    log_action (target object) "pretix.event.category.deleted" (user request) [];;
    row_delete object;;
    messages_success "The selected category has been deleted.";;
    mret (HttpResponseRedirect success_url)).

(** [QuestionDelete.get_object] *)
Definition QuestionDelete_get_object (question : N) : M Question :=
  found ← get_by_id (A:=Question) question;
  match found with
  | Some q => mret q
  | None => raise (Http404 "The requested question does not exist.")
  end.

(** [QuestionDelete.delete] *)
Definition QuestionDelete_delete (request : HttpRequest) (question : N) : M Response :=
  atomic (
    object ← QuestionDelete_get_object question;
    let success_url := "control:event.items.questions" in
    log_action (target object) "pretix.event.question.deleted" (user request) [];;
    row_delete object;;
    messages_success "The selected question has been deleted.";;
    mret (HttpResponseRedirect success_url)).

(** An item without its category. *)
Definition detached (i : Item) : Item := mkItem (item_pk i) (item_position i) None.

(** ** The quota page *)

Record Quota := mkQuota {
  quota_pk : N;
  quota_size : option Z;              (* size, [None] for unlimited *)
  release_after_exit : bool;
  quota_closed : bool;                (* closed *)
  close_when_sold_out : bool }.

(** What [QuotaAvailability(full_results=True)] computed for the quota. *)
Record QuotaAvailability := mkQuotaAvailability {
  results : Z * option Z;
  count_paid_orders : Z;
  count_pending_orders : Z;
  count_exited_orders : Z;
  count_vouchers : Z;
  count_cart : Z;
  count_waitinglist : Z }.

(** The values a table cell holds: an [int], a [str] or [None]. *)
Inductive Cell : Type :=
| CInt (z : Z)
| CStr (s : string)
| CNone.

(** A row of [data]: the keys [label], [value] and [sum] are always there,
    [strong] is there with [True] or missing, [value_abs] is added by the
    last loop. *)
Record Row := mkRow {
  row_label : string;
  row_value : Cell;
  row_sum : bool;
  row_strong : bool;
  row_value_abs : option Z }.

Record QuotaContext := mkQuotaContext {
  avail : Z * option Z;
  quota_chart_data : list Row;
  quota_table_rows : list Row;
  quota_overbooked : Z }.

(** [sum(values)]; [None] stands for the [TypeError] of adding a [str] or
    [None] to an [int]. *)
Fixpoint sum_cells (values : list Cell) : option Z :=
  match values with
  | [] => Some 0
  | CInt z :: rest => (λ t, z + t) <$> sum_cells rest
  | _ :: _ => None
  end.

(** [value >= 0]; [None] stands for the [TypeError] of comparing a [str]
    or [None] with an [int]. *)
Definition cell_ge0 (v : Cell) : option bool :=
  match v with
  | CInt z => Some (0 <=? z)
  | _ => None
  end.

(** [[r for r in data if r.get('sum') and r['value'] >= 0]] *)
Fixpoint chart_rows (data : list Row) : option (list Row) :=
  match data with
  | [] => Some []
  | r :: rest =>
      keep ← (if row_sum r then cell_ge0 (row_value r) else Some false);
      tail ← chart_rows rest;
      Some (if keep : bool then r :: tail else tail)
  end.

(** The body of [for d in data]: [value_abs] for a negative [int]. *)
Definition with_value_abs (d : Row) : Row :=
  match row_value d with
  | CInt z =>
      if z <? 0 then mkRow (row_label d) (row_value d) (row_sum d) (row_strong d)
                          (Some (Z.abs z))
      else d
  | _ => d
  end.

(** [QuotaView.get_context_data]: the entries [avail], [quota_chart_data]
    (the rows handed to [json.dumps]), [quota_table_rows] and
    [quota_overbooked] of the context.  [None] stands for a [TypeError]. *)
Definition QuotaView_get_context_data (object : Quota) (qa : QuotaAvailability)
    : option QuotaContext :=
  let avail := results qa in
  let data :=
    [mkRow "Paid orders" (CInt (count_paid_orders qa)) true false None;
     mkRow "Pending orders" (CInt (count_pending_orders qa)) true false None] in
  let data :=
    if release_after_exit object then
      data ++ [mkRow "Exit scans" (CInt (-1 * count_exited_orders qa)) true false None]
    else data in
  let data :=
    data ++ [mkRow "Vouchers and waiting list reservations" (CInt (count_vouchers qa))
                   true false None;
             mkRow "Current user's carts" (CInt (count_cart qa)) true false None] in
  sum_values ← sum_cells (row_value <$> filter (λ d, row_sum d = true) data);
  let s :=
    match quota_size object with
    | Some size => CInt (size - sum_values)
    | None => CStr "Infinite"
    end in
  let data := data ++ [mkRow "Available quota" s false true None] in
  let data := data ++ [mkRow "Waiting list (pending)" (CInt (count_waitinglist qa))
                             false false None] in
  let data :=
    match quota_size object with
    | Some _ =>
        data ++ [mkRow "Currently for sale"
                       (from_option CInt CNone avail.2) false true None]
    | None => data
    end in
  let data := with_value_abs <$> data in
  chart ← chart_rows data;
  Some (mkQuotaContext avail chart data
          match quota_size object with
          | Some size => sum_values - size
          | None => 0
          end).

(** The value in the row with a given label. *)
Definition cell_of (label : string) (rows : list Row) : option Cell :=
  (λ found, row_value found.2) <$> list_find (λ r, row_label r = label) rows.

(** A non-negative [int]. *)
Definition nonneg_int (v : Cell) : bool :=
  match v with
  | CInt z => 0 <=? z
  | _ => false
  end.

(** The rows of the table before the [value_abs] pass. *)
Definition quota_data (object : Quota) (qa : QuotaAvailability) : list Row :=
  [mkRow "Paid orders" (CInt (count_paid_orders qa)) true false None;
   mkRow "Pending orders" (CInt (count_pending_orders qa)) true false None]
  ++ (if release_after_exit object
      then [mkRow "Exit scans" (CInt (-1 * count_exited_orders qa)) true false None]
      else [])
  ++ [mkRow "Vouchers and waiting list reservations" (CInt (count_vouchers qa))
            true false None;
      mkRow "Current user's carts" (CInt (count_cart qa)) true false None;
      mkRow "Available quota"
            match quota_size object with
            | Some size =>
                CInt (size - (count_paid_orders qa + count_pending_orders qa
                              + count_vouchers qa + count_cart qa
                              - if release_after_exit object
                                then count_exited_orders qa else 0))
            | None => CStr "Infinite"
            end false true None;
      mkRow "Waiting list (pending)" (CInt (count_waitinglist qa)) false false None]
  ++ match quota_size object with
     | Some _ => [mkRow "Currently for sale" (from_option CInt CNone (results qa).2)
                        false true None]
     | None => []
     end.

(** *** Re-opening a quota: [QuotaView.post] *)

(** An audit record of a quota: its key, the action, the user and the
    data. *)
Record QuotaLogEntry := mkQuotaLogEntry {
  quota_log_target : N;
  quota_log_action : string;
  quota_log_user : N;
  quota_log_data : list (string * bool) }.

(** The quotas of the event with their audit log and the messages shown
    to the user. *)
Record QuotaStore := mkQuotaStore {
  quotas : list Quota;
  quota_logentries : list QuotaLogEntry;
  quota_messages : list string }.

(** [QuotaView.get_object] *)
Definition QuotaView_get_object (quota : N) (st : QuotaStore) : Result Quota :=
  match list_find (λ q, quota_pk q = quota) (quotas st) with
  | Some (_, q) => Ok q
  | None => Raise (Http404 "The requested quota does not exist.")
  end.

(** [quota.save(update_fields=fields)]: the named columns of the stored
    row take the values of the object. *)
Definition quota_save (obj : Quota) (update_fields : list string) (st : QuotaStore)
    : QuotaStore :=
  mkQuotaStore
    ((λ r, if decide (quota_pk r = quota_pk obj) then
             mkQuota (quota_pk r) (quota_size r) (release_after_exit r)
               (if bool_decide ("closed" ∈ update_fields)
                then quota_closed obj else quota_closed r)
               (if bool_decide ("close_when_sold_out" ∈ update_fields)
                then close_when_sold_out obj else close_when_sold_out r)
           else r) <$> quotas st)
    (quota_logentries st) (quota_messages st).

Definition quota_log (obj : Quota) (action : string) (u : N) (data : list (string * bool))
    (st : QuotaStore) : QuotaStore :=
  mkQuotaStore (quotas st)
    (quota_logentries st ++ [mkQuotaLogEntry (quota_pk obj) action u data])
    (quota_messages st).

Definition quota_message (msg : string) (st : QuotaStore) : QuotaStore :=
  mkQuotaStore (quotas st) (quota_logentries st) (quota_messages st ++ [msg]).

(** [QuotaView.post]; [POST] holds the keys of [request.POST]. *)
Definition QuotaView_post (request : HttpRequest) (POST : list string) (quota : N)
    (st : QuotaStore) : Result Response * QuotaStore :=
  if negb (can_change_items request) then (Raise PermissionDenied, st)
  else
    match QuotaView_get_object quota st with
    | Raise e => (Raise e, st)
    | Ok quota =>
        let '(quota, st) :=
          if bool_decide ("reopen" ∈ POST) then
            let quota := mkQuota (quota_pk quota) (quota_size quota)
                           (release_after_exit quota) false (close_when_sold_out quota) in
            let st := quota_save quota ["closed"] st in
            let st := quota_log quota "pretix.event.quota.opened" (user request) [] st in
            let st := quota_message "The quota has been re-opened." st in
            (quota, st)
          else (quota, st) in
        let '(quota, st) :=
          if bool_decide ("disable" ∈ POST) then
            let quota := mkQuota (quota_pk quota) (quota_size quota)
                           (release_after_exit quota) false false in
            let st := quota_save quota ["closed"; "close_when_sold_out"] st in
            let st := quota_log quota "pretix.event.quota.opened" (user request) [] st in
            let st := quota_log quota "pretix.event.quota.changed" (user request)
                        [("close_when_sold_out", false)] st in
            let st := quota_message
                        "The quota has been re-opened and will not close again." st in
            (quota, st)
          else (quota, st) in
        (Ok (HttpResponseRedirect "control:event.items.quotas.show"), st)
    end.

(** ** Deleting a product *)

(** The statements of the [try] block that delete rows; each may raise
    [ProtectedError]: [CartPosition.objects.filter(addon_to__item=...).delete()],
    [cartposition_set.all().delete()] and the [delete()] of the item. *)
Inductive DeleteStep : Type :=
| DeleteAddonCarts
| DeleteCarts
| DeleteItem.

Global Instance DeleteStep_eq_dec : EqDecision DeleteStep.
Proof. solve_decision. Defined.

(** A product as [ItemDelete] sees it: [product_allow_delete] is the
    outcome of [allow_delete()], [product_protected] the first statement
    of the [try] block on which the store raises [ProtectedError], if
    any. *)
Record Product := mkProduct {
  product_pk : N;
  product_active : bool;
  product_allow_delete : bool;
  product_protected : option DeleteStep }.

Record CartPosition := mkCartPosition {
  cart_pk : N;
  cart_item : N;
  cart_addon_to : option N       (* the cart position this one is an add-on to *) }.

Inductive Level : Type := LevelSuccess | LevelError.

Record ProductLogEntry := mkProductLogEntry {
  product_log_target : N;
  product_log_action : string;
  product_log_user : N;
  product_log_data : list (string * bool) }.

Record Catalog := mkCatalog {
  products : list Product;
  cartpositions : list CartPosition;
  product_logentries : list ProductLogEntry;
  product_messages : list (Level * string) }.

(** [ItemDelete.get_object] *)
Definition ItemDelete_get_object (item : N) (c : Catalog) : Result Product :=
  match list_find (λ p, product_pk p = item) (products c) with
  | Some (_, p) => Ok p
  | None => Raise (Http404 "The requested product does not exist.")
  end.

(** [addon_to__item=item]: the cart positions that are add-ons to a cart
    position of the item. *)
Definition addon_to__item (c : Catalog) (item : N) (pos : CartPosition) : Prop :=
  ∃ parent, cart_addon_to pos = Some parent
    ∧ ∃ q, q ∈ cartpositions c ∧ cart_pk q = parent ∧ cart_item q = item.

Global Instance addon_to__item_dec c item pos : Decision (addon_to__item c item pos).
Proof.
  unfold addon_to__item. destruct (cart_addon_to pos) as [parent|].
  - destruct (decide (Exists (λ q, cart_pk q = parent ∧ cart_item q = item) (cartpositions c)))
      as [He|He].
    + left. exists parent. split; [done|]. apply Exists_exists in He as (q & ? & ? & ?).
      by exists q.
    + right. intros (parent' & [= <-] & q & ? & ? & ?). apply He, Exists_exists. by exists q.
  - right. by intros (? & ? & _).
Defined.

Definition deactivate (o : Product) (u : N) (c : Catalog) : Catalog :=
  let o := mkProduct (product_pk o) false (product_allow_delete o) (product_protected o) in
  mkCatalog
    ((λ r, if decide (product_pk r = product_pk o) then o else r) <$> products c)
    (cartpositions c)
    (product_logentries c
     ++ [mkProductLogEntry (product_pk o) "pretix.event.item.changed" u [("active", false)]])
    (product_messages c).

Definition add_message (level : Level) (msg : string) (c : Catalog) : Catalog :=
  mkCatalog (products c) (cartpositions c) (product_logentries c)
            (product_messages c ++ [(level, msg)]).

(** The [try] block: the catalog when it is left, and whether it is left by
    [ProtectedError]. *)
Definition try_delete (o : Product) (u : N) (c : Catalog) : bool * Catalog :=
  if decide (product_protected o = Some DeleteAddonCarts) then (true, c)
  else
    let c := mkCatalog (products c)
               (filter (λ pos, ¬ addon_to__item c (product_pk o) pos) (cartpositions c))
               (product_logentries c) (product_messages c) in
    if decide (product_protected o = Some DeleteCarts) then (true, c)
    else
      let c := mkCatalog (products c)
                 (filter (λ pos, cart_item pos ≠ product_pk o) (cartpositions c))
                 (product_logentries c) (product_messages c) in
      let c := mkCatalog (products c) (cartpositions c)
                 (product_logentries c
                  ++ [mkProductLogEntry (product_pk o) "pretix.event.item.deleted" u []])
                 (product_messages c) in
      if decide (product_protected o = Some DeleteItem) then (true, c)
      else
        (false,
         mkCatalog (filter (λ r, product_pk r ≠ product_pk o) (products c))
                   (cartpositions c) (product_logentries c) (product_messages c)).

Definition could_not_be_deleted : string :=
  "The product could not be deleted as some constraints (e.g. data created by plug-ins) did not allow it. Deleting it could break reporting or other functionality, so the product has been disabled instead.".

(** [ItemDelete.delete].  The only exception that leaves the method is the
    [Http404] of [get_object], raised before anything is written, so
    [transaction.atomic] has nothing to roll back. *)
Definition ItemDelete_delete (request : HttpRequest) (item : N) (c : Catalog)
    : Result Response * Catalog :=
  let success_url := "control:event.items" in
  match ItemDelete_get_object item c with
  | Raise e => (Raise e, c)
  | Ok o =>
      if product_allow_delete o then
        let '(protected_error, c) := try_delete o (user request) c in
        let c :=
          if protected_error then
            add_message LevelError could_not_be_deleted (deactivate o (user request) c)
          else add_message LevelSuccess "The selected product has been deleted." c in
        (Ok (HttpResponseRedirect success_url), c)
      else
        let c := deactivate o (user request) c in
        let c := add_message LevelSuccess "The selected product has been deactivated." c in
        (Ok (HttpResponseRedirect success_url), c)
  end.

(** The audit actions [ItemDelete.delete] adds for a product. *)
Definition delete_actions (o : Product) : list string :=
  if product_allow_delete o then
    match product_protected o with
    | None => ["pretix.event.item.deleted"]
    | Some DeleteItem => ["pretix.event.item.deleted"; "pretix.event.item.changed"]
    | Some _ => ["pretix.event.item.changed"]
    end
  else ["pretix.event.item.changed"].

(** The message level [ItemDelete.delete] ends with. *)
Definition delete_level (o : Product) : Level :=
  if product_allow_delete o && bool_decide (is_Some (product_protected o))
  then LevelError else LevelSuccess.

(** ** Vocabulary of the statements about single moves *)

(** The four move views. *)
Inductive MoveView : Type := ItemMoveUp | ItemMoveDown | CategoryMoveUp | CategoryMoveDown.

Definition move_view (v : MoveView) (request : HttpRequest) (id : N) : M Response :=
  match v with
  | ItemMoveUp => item_move_up request id
  | ItemMoveDown => item_move_down request id
  | CategoryMoveUp => category_move_up request id
  | CategoryMoveDown => category_move_down request id
  end.

Definition move_view_kind (v : MoveView) : MoveKind :=
  match v with
  | ItemMoveUp | ItemMoveDown => MoveItem
  | CategoryMoveUp | CategoryMoveDown => MoveCategory
  end.

Definition move_view_up (v : MoveView) : bool :=
  match v with
  | ItemMoveUp | CategoryMoveUp => true
  | ItemMoveDown | CategoryMoveDown => false
  end.

Definition move_view_redirect (v : MoveView) : Response :=
  match move_view_kind v with
  | MoveItem => HttpResponseRedirect "control:event.items"
  | MoveCategory => HttpResponseRedirect "control:event.items.categories"
  end.

Definition move_view_missing (v : MoveView) : Exn :=
  match move_view_kind v with
  | MoveItem => Http404 "The requested product does not exist."
  | MoveCategory => Http404 "The requested product category does not exist."
  end.

Definition move_view_message (v : MoveView) : string :=
  match move_view_kind v with
  | MoveItem => "The order of items has been updated."
  | MoveCategory => "The order of categories has been updated."
  end.

(** ** Vocabulary of the statements about request bodies *)

(** [null], [true], [false] or a number. *)
Definition scalar (v : JSON) : Prop :=
  match v with
  | JNull | JBool _ | JNumber _ => True
  | _ => False
  end.

(** A decoded JSON object. *)
Definition is_object (v : JSON) : Prop :=
  match v with
  | JObject _ => True
  | _ => False
  end.

(** ** Vocabulary of the statements about all views *)

(** The views that write to the tables of the event. *)
Inductive View : Type :=
| ViewReorder (e : Endpoint)
| ViewMove (v : MoveView) (id : N)
| ViewCategoryDelete (category : N)
| ViewQuestionDelete (question : N).

Definition run_view (v : View) (request : HttpRequest) : M Response :=
  match v with
  | ViewReorder e => run e request
  | ViewMove v id => move_view v request id
  | ViewCategoryDelete category => CategoryDelete_delete request category
  | ViewQuestionDelete question => QuestionDelete_delete request question
  end.

(** Keys are unique in every table and every category id of an item is
    the key of a category. *)
Definition well_formed (s : State) : Prop :=
  NoDup (pk <$> categories s) ∧ NoDup (pk <$> items s) ∧ NoDup (pk <$> questions s)
  ∧ categories_exist s.

(** The keys of the three tables are the given ones and the items refer
    to categories among them. *)
Definition keys_are (kc ki kq : list N) (s : State) : Prop :=
  pk <$> categories s = kc ∧ pk <$> items s = ki ∧ pk <$> questions s = kq
  ∧ ∀ i k, i ∈ items s → item_category i = Some k → k ∈ kc.

(** [m] keeps [I], whatever its outcome, and its result satisfies [Q]. *)
Definition keeps (I : State → Prop) {A} (m : M A) (Q : A → Prop) : Prop :=
  ∀ s, I s → I (m s).2 ∧ ∀ a, (m s).1 = Ok a → Q a.

(** * Properties *)

(** ** Text *)

Lemma int_str n : int (str n) = Some n.
Proof.
  unfold int, str.
  assert (N.to_uint n ≠ Decimal.Nil) as Hn.
  { intros En. pose proof (DecimalN.Unsigned.of_to n) as E.
    rewrite En in E. simpl in E. subst n. discriminate. }
  rewrite (NilZero.usu _ Hn). simpl. f_equal. apply DecimalN.Unsigned.of_to.
Qed.

Lemma str_inj n m : str n = str m → n = m.
Proof.
  intros E. apply (f_equal int) in E. rewrite !int_str in E. congruence.
Qed.

Lemma digit_char_parses c d :
  is_digit_char c = true ↔ is_Some (uint_of_char c (Some d)).
Proof.
  destruct c as [[|] [|] [|] [|] [|] [|] [|] [|]]; vm_compute;
    split; intros Hx; try discriminate; try (eexists; reflexivity);
    try (destruct Hx as [? Hx]; discriminate); reflexivity.
Qed.

Lemma all_digits_parses s :
  all_digits s = true ↔ is_Some (NilEmpty.uint_of_string s).
Proof.
  induction s as [|c s IH]; simpl.
  - split; eauto.
  - rewrite andb_true_iff, IH. split.
    + intros [Hc [d Hd]]. rewrite Hd. by apply digit_char_parses.
    + intros [d' Hd']. destruct (NilEmpty.uint_of_string s) as [d|] eqn:E.
      * split; [|eauto]. apply (digit_char_parses c d). eauto.
      * simpl in Hd'. discriminate.
Qed.

Lemma isdigit_int s : isdigit s = true ↔ is_Some (int s).
Proof.
  unfold int, isdigit, NilZero.uint_of_string. destruct s as [|c s].
  - simpl. split; [discriminate|]. intros [? ?]; discriminate.
  - rewrite all_digits_parses, fmap_is_Some. reflexivity.
Qed.

Lemma isdigit_str n : isdigit (str n) = true.
Proof. apply isdigit_int. rewrite int_str. eauto. Qed.

(** ** Loops *)

Lemma for_each_ext {A} (l : list A) (f g : A → M unit) s :
  (∀ x s', x ∈ l → f x s' = g x s') → for_each l f s = for_each l g s.
Proof.
  revert s. induction l as [|x l IH]; intros s Hfg; [done|].
  simpl. unfold mbind, M_bind. rewrite Hfg by left.
  destruct (g x s) as [[[]|e] s']; [|done]. apply IH. intros. apply Hfg. by right.
Qed.

Lemma list_index_lookup x l i : list_index x l = Some i → l !! i = Some x.
Proof.
  revert i. induction l as [|y l IH]; intros i; simpl; [done|].
  destruct (String.eqb_spec y x) as [->|Hne].
  - by intros [= <-].
  - destruct (list_index x l) as [j|]; [|done]. intros [= <-]. by apply IH.
Qed.

Lemma list_index_elem x l : x ∈ l → is_Some (list_index x l).
Proof.
  induction 1 as [|y z l Hin IH]; simpl.
  - rewrite String.eqb_refl. eauto.
  - destruct (String.eqb z y); [eauto|]. destruct IH as [i ->]. eauto.
Qed.

Lemma list_index_first x l i j :
  list_index x l = Some i → l !! j = Some x → (i ≤ j)%nat.
Proof.
  revert i j. induction l as [|y l IH]; intros i j; simpl; [done|].
  destruct (String.eqb_spec y x) as [->|Hne].
  - intros [= <-] _. lia.
  - destruct (list_index x l) as [k|] eqn:E; [|done]. intros [= <-].
    destruct j as [|j]; simpl; [congruence|]. intros Hj.
    specialize (IH k j eq_refl Hj). lia.
Qed.

Lemma mapM_as_str ids : mapM as_str (JString <$> ids) = Some ids.
Proof.
  induction ids as [|x ids IH]; [done|].
  rewrite fmap_cons. change (mapM as_str (JString x :: (JString <$> ids)))
    with (y ← as_str (JString x); k ← mapM as_str (JString <$> ids); Some (y :: k)).
  by rewrite IH.
Qed.

Lemma bind_ok {A B} (m : M A) (f : A → M B) s a s' :
  m s = (Ok a, s') → (m ≫= f) s = f a s'.
Proof. unfold mbind, M_bind. by intros ->. Qed.

Lemma bind_raise {A B} (m : M A) (f : A → M B) s e s' :
  m s = (Raise e, s') → (m ≫= f) s = (Raise e, s').
Proof. unfold mbind, M_bind. by intros ->. Qed.

Lemma mapM_cons {A B} (f : A → option B) x l :
  mapM f (x :: l) = y ← f x; k ← mapM f l; Some (y :: k).
Proof. done. Qed.

Lemma ids_index_found {B} ids x i (f : nat → M B) s :
  list_index x ids = Some i → (ids_index (IdsList ids) x ≫= f) s = f i s.
Proof. intros E. apply bind_ok. unfold ids_index. by rewrite E. Qed.

Lemma ids_index_missing {B} ids x (f : nat → M B) s :
  list_index x ids = None → (ids_index (IdsList ids) x ≫= f) s = (Raise ValueError, s).
Proof. intros E. apply bind_raise. unfold ids_index. by rewrite E. Qed.

Section CommitFacts.
Context {A : Type} `{ModelLaws A}.
Variable plan : A → nat → A.
Variable changed : A → nat → Prop.
Context `{∀ x i, Decision (changed x i)}.
Variable entry : A → nat → LogEntry.
Variable fields : option (list string).
Hypothesis pk_plan : ∀ x i, pk (plan x i) = pk x.

Local Abbreviation step := (step plan changed entry fields).
Local Abbreviation commit := (commit plan changed entry fields).
Local Abbreviation commit1 := (commit1 plan changed entry fields).
Local Abbreviation walk := (walk plan changed).
Local Abbreviation walk1 := (walk1 plan changed).
Local Abbreviation moved := (moved changed).

Lemma step_run p s : step p s = (Ok tt, commit1 s p).
Proof. unfold step, commit1. by destruct (bool_decide (changed p.2 p.1)). Qed.

Lemma for_each_step pairs s : for_each pairs step s = (Ok tt, commit pairs s).
Proof.
  revert s. induction pairs as [|p pairs IH]; intros s; [done|].
  simpl. by rewrite (bind_ok _ _ _ _ _ (step_run p s)).
Qed.

Lemma indexed_cons ids c input :
  indexed (A:=A) ids (c :: input)
  = i ← list_index (str (pk c)) ids; ps ← indexed ids input; Some ((i, c) :: ps).
Proof.
  unfold indexed. rewrite mapM_cons.
  destruct (list_index (str (pk c)) ids); [|done]. done.
Qed.

Lemma indexed_loop ids input s pairs :
  indexed ids input = Some pairs →
  for_each input (λ c, pos ← ids_index (IdsList ids) (str (pk c)); step (pos, c)) s
  = (Ok tt, commit pairs s).
Proof.
  revert s pairs. induction input as [|c input IH]; intros s pairs Hidx.
  - injection Hidx as <-. done.
  - rewrite indexed_cons in Hidx.
    destruct (list_index (str (pk c)) ids) as [i|] eqn:Ei; [|done].
    destruct (indexed ids input) as [ps|] eqn:Ep; [|done].
    injection Hidx as <-.
    change (for_each (c :: input) ?body s) with ((body c;; for_each input body) s).
    rewrite (bind_ok _ _ s tt (commit1 s (i, c))).
    + exact (IH (commit1 s (i, c)) ps eq_refl).
    + cbv beta. rewrite (ids_index_found _ _ _ _ _ Ei). apply step_run.
Qed.

Lemma indexed_loop_raises ids input s :
  indexed ids input = None →
  ∃ s', for_each input (λ c, pos ← ids_index (IdsList ids) (str (pk c)); step (pos, c)) s
        = (Raise ValueError, s').
Proof.
  revert s. induction input as [|c input IH]; intros s Hidx; [done|].
  rewrite indexed_cons in Hidx.
  change (for_each (c :: input) ?body s) with ((body c;; for_each input body) s).
  destruct (list_index (str (pk c)) ids) as [i|] eqn:Ei.
  - destruct (indexed ids input) as [ps|] eqn:Ep; [done|].
    destruct (IH (commit1 s (i, c)) eq_refl) as [s' Hs'].
    exists s'. rewrite (bind_ok _ _ s tt (commit1 s (i, c))); [exact Hs'|].
    cbv beta. rewrite (ids_index_found _ _ _ _ _ Ei). apply step_run.
  - exists s. rewrite (bind_raise _ _ s ValueError s); [done|].
    cbv beta. by rewrite (ids_index_missing _ _ _ _ Ei).
Qed.

Lemma commit_moved pairs s : commit pairs s = commit (moved pairs) s.
Proof.
  revert s. induction pairs as [|p pairs IH]; intros s; [done|].
  unfold moved. rewrite filter_cons. case_decide as Hp.
  - exact (IH (commit1 s p)).
  - change (commit pairs (commit1 s p) = commit (moved pairs) s).
    replace (commit1 s p) with s; [apply IH|].
    unfold commit1. by rewrite bool_decide_false.
Qed.

Lemma logentries_commit pairs s :
  logentries (commit pairs s)
  = logentries s ++ ((λ p, entry (plan p.2 p.1) p.1) <$> moved pairs).
Proof.
  revert s. induction pairs as [|p pairs IH]; intros s; simpl.
  - by rewrite app_nil_r.
  - rewrite IH. unfold moved. rewrite filter_cons. unfold commit1.
    destruct (decide (changed p.2 p.1)) as [Hp|Hp].
    + rewrite bool_decide_true by done. simpl. by rewrite logentries_set_objects, <- app_assoc.
    + rewrite bool_decide_false by done. done.
Qed.

Lemma writes_commit pairs s :
  writes (commit pairs s)
  = writes s ++ ((λ p, RowSave (target (plan p.2 p.1)) fields) <$> moved pairs).
Proof.
  revert s. induction pairs as [|p pairs IH]; intros s; simpl.
  - by rewrite app_nil_r.
  - rewrite IH. unfold moved. rewrite filter_cons. unfold commit1.
    destruct (decide (changed p.2 p.1)) as [Hp|Hp].
    + rewrite bool_decide_true by done. simpl. rewrite writes_set_objects.
      by rewrite <- app_assoc.
    + rewrite bool_decide_false by done. done.
Qed.

Lemma settings_commit pairs s : settings (commit pairs s) = settings s.
Proof.
  revert s. induction pairs as [|p pairs IH]; intros s; simpl; [done|].
  rewrite IH. unfold commit1. case_bool_decide; [|done].
  simpl. apply settings_set_objects.
Qed.

Lemma flash_commit pairs s : flash (commit pairs s) = flash s.
Proof.
  revert s. induction pairs as [|p pairs IH]; intros s; simpl; [done|].
  rewrite IH. unfold commit1. case_bool_decide; [|done].
  simpl. apply flash_set_objects.
Qed.

Lemma objects_commit pairs s :
  objects (commit pairs s) = walk pairs <$> objects s.
Proof.
  revert s. induction pairs as [|p pairs IH]; intros s.
  - simpl. by rewrite list_fmap_id.
  - change (objects (commit pairs (commit1 s p))
            = (λ r, walk pairs (walk1 r p)) <$> objects s).
    rewrite IH. unfold commit1, walk1.
    destruct (bool_decide (changed p.2 p.1)).
    + rewrite objects_add_log, objects_add_write, objects_set_objects.
      unfold replace_row. by rewrite <- list_fmap_compose.
    + done.
Qed.

Lemma pk_walk pairs r : pk (walk pairs r) = pk r.
Proof.
  revert r. induction pairs as [|p pairs IH]; intros r; simpl; [done|].
  rewrite IH. unfold walk1. case_bool_decide; [|done].
  case_decide as E; [|done]. by rewrite E.
Qed.

Lemma walk1_miss r p : pk p.2 ≠ pk r → walk1 r p = r.
Proof.
  intros Hne. unfold walk1. case_bool_decide; [|done].
  rewrite decide_False; [done|]. rewrite pk_plan. congruence.
Qed.

Lemma walk1_hit r p :
  pk p.2 = pk r → walk1 r p = if bool_decide (changed p.2 p.1) then plan p.2 p.1 else r.
Proof.
  intros E. unfold walk1. case_bool_decide; [|done].
  rewrite decide_True; [done|]. rewrite pk_plan. congruence.
Qed.

Lemma walk_moved pairs r : walk pairs r = walk (moved pairs) r.
Proof.
  revert r. induction pairs as [|p pairs IH]; intros r; [done|].
  unfold moved. rewrite filter_cons. case_decide as Hp.
  - exact (IH (walk1 r p)).
  - change (walk pairs (walk1 r p) = walk (moved pairs) r).
    replace (walk1 r p) with r; [apply IH|].
    unfold walk1. by rewrite bool_decide_false.
Qed.

Lemma walk_other pairs r :
  pk r ∉ (pk ∘ snd <$> pairs) → walk pairs r = r.
Proof.
  revert r. induction pairs as [|p pairs IH]; intros r Hr; [done|].
  rewrite fmap_cons, not_elem_of_cons in Hr. destruct Hr as [Hp Hr].
  change (walk pairs (walk1 r p) = r).
  rewrite walk1_miss; [by apply IH|]. simpl in Hp. congruence.
Qed.

Lemma walk_hit pairs r i x :
  NoDup (pk ∘ snd <$> pairs) → (i, x) ∈ pairs → pk x = pk r →
  walk pairs r = if bool_decide (changed x i) then plan x i else r.
Proof.
  revert r. induction pairs as [|p pairs IH]; intros r Hnd Hin Hpk.
  - by apply elem_of_nil in Hin.
  - rewrite fmap_cons, NoDup_cons in Hnd. destruct Hnd as [Hp Hnd].
    change (walk pairs (walk1 r p) = if bool_decide (changed x i) then plan x i else r).
    apply elem_of_cons in Hin. destruct Hin as [<-|Hin].
    + rewrite walk1_hit by done. simpl. apply walk_other.
      simpl in Hp. case_bool_decide; [rewrite pk_plan|rewrite <- Hpk]; done.
    + rewrite walk1_miss; [by apply IH|].
      intros E. apply Hp. apply list_elem_of_fmap. exists (i, x).
      split; [|done]. simpl. congruence.
Qed.
End CommitFacts.

(** ** What the reorder endpoints compute on a well-formed request *)

Lemma bind_ret {A B} (a : A) (f : A → M B) s : (mret a ≫= f) s = f a s.
Proof. done. Qed.

Lemma as_ids_run {B} ids (f : Ids → M B) s :
  (as_ids (JArray (JString <$> ids)) ≫= f) s = f (IdsList ids) s.
Proof. unfold as_ids. by rewrite mapM_as_str. Qed.

Lemma filter_id_in_run {A B} `{Model A} ids (f : list A → M B) s :
  (filter_id_in (filter isdigit ids) ≫= f) s = f (selected ids (objects s)) s.
Proof. done. Qed.

Lemma count_run {A B} `{Model A} (f : nat → M B) s :
  (count (A:=A) ≫= f) s = f (length (objects (A:=A) s)) s.
Proof. done. Qed.

Lemma bind_assoc {A B C} (m : M A) (g : A → M B) (h : B → M C) s :
  ((m ≫= g) ≫= h) s = (m ≫= λ x, g x ≫= h) s.
Proof. unfold mbind, M_bind. by destruct (m s) as [[a|e] s']. Qed.

Lemma get_by_id_run {A B} `{Model A} id (f : option A → M B) s :
  (get_by_id id ≫= f) s = f (snd <$> list_find (λ r, pk r = id) (objects s)) s.
Proof. done. Qed.

Lemma get_state_run {B} (f : State → M B) s : (get_state ≫= f) s = f s s.
Proof. done. Qed.

Lemma then_ret {B} (m : M unit) (b : B) s :
  (m;; mret b) s = match m s with
                   | (Ok _, s') => (Ok b, s')
                   | (Raise e, s') => (Raise e, s')
                   end.
Proof. done. Qed.

Lemma reorder_categories_run u ids s :
  reorder_categories (ids_request u ids) s =
  let input := selected ids (categories s) in
  if bool_decide (length input ≠ length ids) then (Raise (Http404 invalid_ids), s)
  else if bool_decide (length input ≠ length (categories s)) then
    (Raise (Http404 not_all_selected), s)
  else match indexed ids input with
       | Some pairs => (Ok HttpResponse, category_commit u pairs s)
       | None => (Raise ValueError, s)
       end.
Proof.
  unfold reorder_categories, atomic, ids_request, event_permission_required, require_POST.
  cbn [can_change_items method body String.eqb Ascii.eqb Bool.eqb load_ids user].
  cbn [dict_get String.eqb Ascii.eqb Bool.eqb].
  rewrite bind_ret, as_ids_run, filter_id_in_run.
  change (ids_len (IdsList ids)) with (length ids).
  cbn [ids_iter objects ItemCategory_Model].
  destruct (bool_decide (length (selected ids (categories s)) ≠ length ids)); [done|].
  rewrite count_run. cbn [objects ItemCategory_Model].
  destruct (bool_decide (length (selected ids (categories s)) ≠ length (categories s)));
    [done|].
  rewrite then_ret.
  change (for_each ?l _) with
    (for_each l (λ c, pos ← ids_index (IdsList ids) (str (pk c));
       step strict_plan strict_changed
            (position_entry "pretix.event.category.reordered" u) (Some ["position"])
            (pos, c))).
  destruct (indexed ids (selected ids (categories s))) as [pairs|] eqn:Ei.
  - by rewrite (indexed_loop _ _ _ _ _ _ _ _ Ei).
  - destruct (indexed_loop_raises strict_plan strict_changed
                (position_entry "pretix.event.category.reordered" u) (Some ["position"])
                _ _ s Ei) as [s' Hs'].
    by rewrite Hs'.
Qed.

Lemma fill_order_run ids keys order s :
  fill_order (IdsList ids) keys order s = (Ok (fill_pure ids keys order), s).
Proof.
  revert order. induction keys as [|key keys IH]; intros order; [done|].
  simpl. unfold key_position. case_bool_decide as Hin.
  - destruct (list_index_elem _ _ Hin) as [i Hi].
    rewrite (ids_index_found _ _ _ _ _ Hi), Hi. apply IH.
  - destruct (list_index key ids) as [i|] eqn:Hi; [|apply IH].
    apply list_index_lookup in Hi. destruct Hin. by eapply list_elem_of_lookup_2.
Qed.

Lemma reorder_questions_run u ids s :
  reorder_questions (ids_request u ids) s =
  let input := selected ids (questions s) in
  if bool_decide (length input ≠ length (filter isdigit ids)) then
    (Raise (Http404 invalid_ids), s)
  else if bool_decide (length input ≠ length (questions s)) then
    (Raise (Http404 not_all_selected), s)
  else match indexed ids input with
       | Some pairs =>
           (Ok HttpResponse,
            store_order u (fill_pure ids system_questions ∅) (question_commit u pairs s))
       | None => (Raise ValueError, s)
       end.
Proof.
  unfold reorder_questions, atomic, ids_request, event_permission_required, require_POST.
  cbn [can_change_items method body String.eqb Ascii.eqb Bool.eqb load_ids user].
  cbn [dict_get String.eqb Ascii.eqb Bool.eqb].
  rewrite bind_ret, as_ids_run, filter_id_in_run.
  cbn [ids_iter objects Question_Model].
  destruct (bool_decide (length (selected ids (questions s)) ≠ length (filter isdigit ids)));
    [done|].
  rewrite count_run. cbn [objects Question_Model].
  destruct (bool_decide (length (selected ids (questions s)) ≠ length (questions s)));
    [done|].
  change (for_each ?l _) with
    (for_each l (λ c, pos ← ids_index (IdsList ids) (str (pk c));
       step strict_plan strict_changed
            (position_entry "pretix.event.question.reordered" u) (Some ["position"])
            (pos, c))).
  destruct (indexed ids (selected ids (questions s))) as [pairs|] eqn:Ei.
  - rewrite (bind_ok _ _ _ _ _ (indexed_loop _ _ _ _ _ _ _ _ Ei)).
    rewrite (bind_ok _ _ _ _ _ (fill_order_run _ _ _ _)). done.
  - destruct (indexed_loop_raises strict_plan strict_changed
                (position_entry "pretix.event.question.reordered" u) (Some ["position"])
                _ _ s Ei) as [s' Hs'].
    by rewrite (bind_raise _ _ _ _ _ Hs').
Qed.

Lemma reorder_items_run u ids category s :
  reorder_items (ids_request u ids) category s =
  let input := selected ids (items s) in
  if bool_decide (length input ≠ length ids) then (Raise (Http404 invalid_ids), s)
  else match target_of category s with
       | None => (Raise DoesNotExist, s)
       | Some t =>
           match indexed ids input with
           | Some pairs => (Ok HttpResponse, item_commit u t pairs s)
           | None => (Raise ValueError, s)
           end
       end.
Proof.
  unfold reorder_items, atomic, ids_request, event_permission_required, require_POST.
  cbn [can_change_items method body String.eqb Ascii.eqb Bool.eqb load_ids user].
  cbn [dict_get String.eqb Ascii.eqb Bool.eqb].
  rewrite bind_ret, as_ids_run, filter_id_in_run.
  change (ids_len (IdsList ids)) with (length ids).
  cbn [ids_iter objects Item_Model].
  destruct (bool_decide (length (selected ids (items s)) ≠ length ids)); [done|].
  unfold target_of. destruct (bool_decide (category ≠ 0%N)).
  - rewrite bind_assoc, get_by_id_run. cbn [objects ItemCategory_Model].
    destruct (list_find (λ r : ItemCategory, pk r = category) (categories s))
      as [[j c]|]; [|done].
    cbn [fmap option_fmap option_map snd].
    rewrite bind_ret, then_ret.
    change (for_each ?l _) with
      (for_each l (λ c0, pos ← ids_index (IdsList ids) (str (pk c0));
         step (relaxed_plan (Some (pk c))) (relaxed_changed (Some (pk c)))
              (relaxed_entry (Some (pk c)) u) (Some ["position"; "category_id"])
              (pos, c0))).
    destruct (indexed ids (selected ids (items s))) as [pairs|] eqn:Ei.
    + by rewrite (indexed_loop _ _ _ _ _ _ _ _ Ei).
    + destruct (indexed_loop_raises (relaxed_plan (Some (pk c)))
                  (relaxed_changed (Some (pk c))) (relaxed_entry (Some (pk c)) u)
                  (Some ["position"; "category_id"]) _ _ s Ei) as [s' Hs'].
      by rewrite Hs'.
  - rewrite bind_ret, then_ret.
    change (for_each ?l _) with
      (for_each l (λ c0, pos ← ids_index (IdsList ids) (str (pk c0));
         step (relaxed_plan None) (relaxed_changed None)
              (relaxed_entry None u) (Some ["position"; "category_id"])
              (pos, c0))).
    destruct (indexed ids (selected ids (items s))) as [pairs|] eqn:Ei.
    + by rewrite (indexed_loop _ _ _ _ _ _ _ _ Ei).
    + destruct (indexed_loop_raises (relaxed_plan None)
                  (relaxed_changed None) (relaxed_entry None u)
                  (Some ["position"; "category_id"]) _ _ s Ei) as [s' Hs'].
      by rewrite Hs'.
Qed.

(** ** Facts about lists used below *)

Lemma filter_all {A} (P : A → Prop) `{∀ x, Decision (P x)} (l : list A) :
  length (filter P l) = length l → filter P l = l.
Proof.
  induction l as [|x l IH]; [done|]. rewrite filter_cons. case_decide.
  - simpl. intros [= E]. by rewrite IH.
  - intros E. pose proof (length_filter P l). simpl in E. lia.
Qed.

Lemma filter_Forall_id {A} (P : A → Prop) `{∀ x, Decision (P x)} (l : list A) :
  Forall P l → filter P l = l.
Proof.
  induction 1 as [|x l Hx _ IH]; [done|]. rewrite filter_cons_True by done. by rewrite IH.
Qed.

Lemma NoDup_fmap_eq {A B} (f : A → B) (l : list A) x y :
  NoDup (f <$> l) → x ∈ l → y ∈ l → f x = f y → x = y.
Proof.
  induction l as [|z l IH]; intros Hnd Hx Hy E; [by apply elem_of_nil in Hx|].
  rewrite fmap_cons, NoDup_cons in Hnd. destruct Hnd as [Hz Hnd].
  apply elem_of_cons in Hx. apply elem_of_cons in Hy.
  destruct Hx as [->|Hx], Hy as [->|Hy]; [done| | |by apply IH].
  - destruct Hz. rewrite E. by apply list_elem_of_fmap_2.
  - destruct Hz. rewrite <- E. by apply list_elem_of_fmap_2.
Qed.

(** A duplicate-free list of [n] numbers below [n] is [0 .. n-1] rearranged. *)
Lemma NoDup_below_contiguous (l : list nat) :
  NoDup l → Forall (λ i, (i < length l)%nat) l → l ≡ₚ seq 0 (length l).
Proof.
  intros Hnd Hlt. apply submseteq_length_Permutation.
  - apply NoDup_submseteq; [done|]. intros i Hi.
    rewrite Forall_forall in Hlt. apply list_elem_of_In, in_seq.
    specialize (Hlt i Hi). lia.
  - by rewrite length_seq.
Qed.

Section Indexed.
Context {A : Type} `{ModelLaws A}.

Lemma indexed_spec ids (input : list A) pairs :
  indexed ids input = Some pairs →
  pairs.*2 = input ∧ Forall (λ p, list_index (str (pk p.2)) ids = Some p.1) pairs.
Proof.
  revert pairs. induction input as [|c input IH]; intros pairs Hidx.
  - injection Hidx as <-. by split.
  - rewrite indexed_cons in Hidx.
    destruct (list_index (str (pk c)) ids) as [i|] eqn:Ei; [|done].
    destruct (indexed ids input) as [ps|] eqn:Ep; [|done].
    injection Hidx as <-. destruct (IH ps eq_refl) as [E1 E2].
    split; [by rewrite fmap_cons, E1|]. by constructor.
Qed.

Lemma indexed_is_Some ids (input : list A) :
  is_Some (indexed ids input) ↔ ∀ c, c ∈ input → str (pk c) ∈ ids.
Proof.
  induction input as [|c input IH].
  - split; [|by eexists]. intros _ c Hc. by apply elem_of_nil in Hc.
  - rewrite indexed_cons. split.
    + intros [pairs Hp] c' Hc'.
      destruct (list_index (str (pk c)) ids) as [i|] eqn:Ei; [|done].
      destruct (indexed ids input) as [ps|] eqn:Ep; [|done].
      apply elem_of_cons in Hc'. destruct Hc' as [->|Hc'].
      * apply list_index_lookup in Ei. by eapply list_elem_of_lookup_2.
      * apply IH; eauto.
    + intros Hall. destruct (list_index_elem (str (pk c)) ids) as [i ->].
      { apply Hall. by left. }
      destruct (proj2 IH) as [ps ->]; [|by eexists].
      intros c' Hc'. apply Hall. by right.
Qed.

Lemma indexed_length ids (input : list A) pairs :
  indexed ids input = Some pairs → length pairs = length input.
Proof. intros Hi. apply indexed_spec in Hi as [<- _]. by rewrite length_fmap. Qed.

Lemma indexed_elem ids (input : list A) pairs c :
  indexed ids input = Some pairs → c ∈ input →
  ∃ i, (i, c) ∈ pairs ∧ list_index (str (pk c)) ids = Some i.
Proof.
  intros Hi Hc. apply indexed_spec in Hi as [<- Hall].
  apply list_elem_of_fmap in Hc as [[i c'] [-> Hp]].
  exists i. split; [done|]. rewrite Forall_forall in Hall. by apply (Hall _ Hp).
Qed.

Lemma key_position_indexed ids (c : A) i :
  list_index (str (pk c)) ids = Some i → key_position ids (str (pk c)) = Z.of_nat i.
Proof. unfold key_position. by intros ->. Qed.

(** The filter keeps the keys apart. *)
Lemma NoDup_selected ids (rows : list A) :
  NoDup (pk <$> rows) → NoDup (pk <$> selected ids rows).
Proof.
  intros Hnd. unfold selected. induction rows as [|r rows IH]; [done|].
  rewrite fmap_cons, NoDup_cons in Hnd. destruct Hnd as [Hr Hnd].
  rewrite filter_cons. case_decide; [|by apply IH].
  rewrite fmap_cons. apply NoDup_cons. split; [|by apply IH].
  intros Hin. apply Hr. apply list_elem_of_fmap in Hin as [y [-> Hy]].
  apply list_elem_of_filter in Hy as [_ Hy]. by apply list_elem_of_fmap_2.
Qed.
End Indexed.

(** ** The table after a reorder loop *)

Section Walk.
Context {A : Type} `{ModelLaws A}.
Variable plan : A → nat → A.
Variable changed : A → nat → Prop.
Context `{∀ x i, Decision (changed x i)}.
Hypothesis pk_plan : ∀ x i, pk (plan x i) = pk x.

(** Rows named in the request get their planned value when the guard
    holds; all other rows stay. *)
Lemma walk_indexed ids (input rows : list A) pairs r :
  NoDup (pk <$> rows) → NoDup (pk <$> input) → input ⊆ rows →
  indexed ids input = Some pairs → r ∈ rows →
  walk plan changed pairs r =
    match list_index (str (pk r)) ids with
    | Some i =>
        if bool_decide (pk r ∈ (pk <$> input) ∧ changed r i) then plan r i else r
    | None => r
    end.
Proof.
  intros Hrows Hnd Hsub Hidx Hr.
  assert (pk ∘ snd <$> pairs = pk <$> input) as Epk.
  { apply indexed_spec in Hidx as [E _]. by rewrite list_fmap_compose, E. }
  destruct (decide (pk r ∈ (pk <$> input))) as [Hin|Hout].
  - apply list_elem_of_fmap in Hin as Hx. destruct Hx as [x [Ex Hx]].
    assert (x = r) as ->.
    { apply (NoDup_fmap_eq pk rows); auto. }
    destruct (indexed_elem _ _ _ _ Hidx Hx) as [i [Hp Hi]]. rewrite Hi.
    rewrite (walk_hit plan changed pk_plan pairs r i r); [|by rewrite Epk|done|done].
    destruct (decide (changed r i)).
    + by rewrite !bool_decide_true.
    + rewrite !bool_decide_false; [done|tauto|done].
  - rewrite walk_other; [|done|by rewrite Epk].
    destruct (list_index (str (pk r)) ids); [|done].
    rewrite bool_decide_false; [done|tauto].
Qed.
End Walk.

Section Strict.
Context {A : Type} `{ModelLaws A}.

Lemma strict_table ids (rows : list A) pairs :
  NoDup (pk <$> rows) → indexed ids rows = Some pairs →
  walk strict_plan strict_changed pairs <$> rows = reordered ids rows.
Proof.
  intros Hnd Hidx. unfold reordered. apply list_fmap_ext. intros j r Hr.
  apply list_elem_of_lookup_2 in Hr.
  rewrite (walk_indexed strict_plan strict_changed (λ x i, pk_set_position _ x)
             ids rows rows pairs r) by done.
  destruct (indexed_elem _ _ _ _ Hidx Hr) as [i [_ Hi]].
  rewrite Hi, (key_position_indexed _ _ _ Hi). unfold strict_plan, strict_changed.
  case_bool_decide as Hc; [done|].
  assert (Z.of_nat i = position r) as ->; [|by rewrite set_position_same].
  destruct (decide (Z.of_nat i = position r)); [done|]. destruct Hc. split; [|done].
  by apply list_elem_of_fmap_2.
Qed.

Lemma position_reordered ids (rows : list A) :
  position <$> reordered ids rows = (λ r, key_position ids (str (pk r))) <$> rows.
Proof.
  unfold reordered. rewrite <- list_fmap_compose. apply list_fmap_ext.
  intros _ r _. simpl. apply position_set_position.
Qed.

Lemma pk_reordered ids (rows : list A) : pk <$> reordered ids rows = pk <$> rows.
Proof.
  unfold reordered. rewrite <- list_fmap_compose. apply list_fmap_ext.
  intros _ r _. simpl. apply pk_set_position.
Qed.

(** The indices found for rows with distinct keys are distinct and in
    range. *)
Lemma indexed_positions ids (rows : list A) pairs :
  NoDup (pk <$> rows) → indexed ids rows = Some pairs →
  (λ r, key_position ids (str (pk r))) <$> rows = Z.of_nat <$> pairs.*1
  ∧ NoDup pairs.*1 ∧ Forall (λ i, (i < length ids)%nat) pairs.*1.
Proof.
  revert pairs. induction rows as [|r rows IH]; intros pairs Hnd Hidx.
  - injection Hidx as <-. repeat split; constructor.
  - rewrite indexed_cons in Hidx.
    destruct (list_index (str (pk r)) ids) as [i|] eqn:Ei; [|done].
    destruct (indexed ids rows) as [ps|] eqn:Ep; [|done].
    injection Hidx as <-. rewrite fmap_cons, NoDup_cons in Hnd.
    destruct Hnd as [Hr Hnd]. destruct (IH ps Hnd eq_refl) as (E1 & E2 & E3).
    rewrite !fmap_cons. simpl. repeat split.
    + by rewrite E1, (key_position_indexed _ _ _ Ei).
    + apply NoDup_cons. split; [|done]. intros Hin.
      apply list_elem_of_fmap in Hin as [[j x] [-> Hx]]. simpl in *.
      destruct (indexed_spec _ _ _ Ep) as [E Hall].
      rewrite Forall_forall in Hall. specialize (Hall _ Hx). simpl in Hall.
      apply list_index_lookup in Ei, Hall. rewrite Ei in Hall.
      injection Hall as Hs. apply str_inj in Hs. apply Hr. rewrite Hs, <- E.
      rewrite <- list_fmap_compose. apply list_elem_of_fmap. by exists (j, x).
    + constructor; [|done]. apply list_index_lookup in Ei. by eapply lookup_lt_Some.
Qed.
End Strict.

Section StrictResult.
Context {A : Type} `{ModelLaws A}.

Lemma row_view_keys (rows : list A) : (row_view rows).*1 = pk <$> rows.
Proof. unfold row_view. by rewrite <- list_fmap_compose. Qed.

Lemma row_view_positions (rows : list A) : (row_view rows).*2 = position <$> rows.
Proof. unfold row_view. by rewrite <- list_fmap_compose. Qed.

Lemma reordered_result ids (rows : list A) pairs :
  NoDup (pk <$> rows) → indexed ids rows = Some pairs →
  (row_view (reordered ids rows)).*1 = (row_view rows).*1
  ∧ (∀ id p, (id, p) ∈ row_view (reordered ids rows) →
       0 ≤ p ∧ list_index (str id) ids = Some (Z.to_nat p))
  ∧ NoDup (row_view (reordered ids rows)).*2
  ∧ ((length rows = length ids)%nat → contiguous (row_view (reordered ids rows)).*2).
Proof.
  intros Hnd Hidx.
  destruct (indexed_positions ids rows pairs Hnd Hidx) as (E & Hnd' & Hlt).
  rewrite !row_view_keys, row_view_positions, pk_reordered, position_reordered, E.
  split; [done|]. split; [|split].
  - intros id p Hin.
    apply list_elem_of_fmap in Hin as [r [[= -> ->] Hr]].
    apply list_elem_of_fmap in Hr as [r0 [-> Hr0]].
    rewrite position_set_position, pk_set_position.
    destruct (indexed_elem _ _ _ _ Hidx Hr0) as [i [_ Hi]].
    rewrite (key_position_indexed _ _ _ Hi), Hi, Nat2Z.id. split; [lia|done].
  - apply NoDup_fmap_2; [|done]. intros x y. lia.
  - intros Hlen. unfold contiguous. rewrite length_fmap.
    assert (length pairs.*1 = length ids) as Hl.
    { by rewrite length_fmap, (indexed_length _ _ _ Hidx). }
    apply fmap_Permutation. rewrite <- Hl in Hlt.
    by apply NoDup_below_contiguous.
Qed.
End StrictResult.

(** ** Outcomes of the strict endpoints *)

Lemma reorder_categories_ok u ids s s' :
  reorder_categories (ids_request u ids) s = (Ok HttpResponse, s') →
  length (categories s) = length ids
  ∧ selected ids (categories s) = categories s
  ∧ ∃ pairs, indexed ids (categories s) = Some pairs ∧ s' = category_commit u pairs s.
Proof.
  rewrite reorder_categories_run. cbv zeta.
  case_bool_decide as H1; [done|]. case_bool_decide as H2; [done|].
  assert (selected ids (categories s) = categories s) as E by by apply filter_all.
  rewrite E in *. destruct (indexed ids (categories s)) as [pairs|]; [|done].
  intros [= <-]. eauto.
Qed.

Lemma reorder_questions_ok u ids s s' :
  reorder_questions (ids_request u ids) s = (Ok HttpResponse, s') →
  length (questions s) = length (filter isdigit ids)
  ∧ selected ids (questions s) = questions s
  ∧ ∃ pairs, indexed ids (questions s) = Some pairs
      ∧ s' = store_order u (fill_pure ids system_questions ∅) (question_commit u pairs s).
Proof.
  rewrite reorder_questions_run. cbv zeta.
  case_bool_decide as H1; [done|]. case_bool_decide as H2; [done|].
  assert (selected ids (questions s) = questions s) as E by by apply filter_all.
  rewrite E in *. destruct (indexed ids (questions s)) as [pairs|]; [|done].
  intros [= <-]. eauto.
Qed.

Lemma categories_after u ids s pairs :
  NoDup (pk <$> categories s) → indexed ids (categories s) = Some pairs →
  categories (category_commit u pairs s) = reordered ids (categories s).
Proof.
  intros Hnd Hidx. unfold category_commit.
  rewrite <- (strict_table ids (categories s) pairs Hnd Hidx).
  exact (objects_commit (A:=ItemCategory) strict_plan strict_changed _ _ pairs s).
Qed.

Lemma questions_after u ids s pairs order :
  NoDup (pk <$> questions s) → indexed ids (questions s) = Some pairs →
  questions (store_order u order (question_commit u pairs s)) = reordered ids (questions s).
Proof.
  intros Hnd Hidx. unfold question_commit.
  rewrite <- (strict_table ids (questions s) pairs Hnd Hidx).
  exact (objects_commit (A:=Question) strict_plan strict_changed _ _ pairs s).
Qed.

Lemma not_contiguous_1 : ¬ contiguous [1].
Proof.
  unfold contiguous. simpl. intros Hp. apply Permutation_singleton_l in Hp. discriminate.
Qed.

Lemma contiguous_of_nat (l : list nat) :
  contiguous (Z.of_nat <$> l) ↔ l ≡ₚ seq 0 (length l).
Proof.
  unfold contiguous. rewrite length_fmap.
  assert (∀ l' : list nat, Z.to_nat <$> (Z.of_nat <$> l') = l') as Hid.
  { intros l'. rewrite <- list_fmap_compose. etransitivity; [|apply list_fmap_id].
    apply list_fmap_ext. intros ? x _. simpl. lia. }
  split.
  - intros Hp. apply (fmap_Permutation Z.to_nat) in Hp. by rewrite !Hid in Hp.
  - intros Hp. by apply fmap_Permutation.
Qed.

Section Contiguity.
Context {A : Type} `{ModelLaws A}.

Lemma reordered_positions ids (rows : list A) pairs :
  NoDup (pk <$> rows) → indexed ids rows = Some pairs →
  (row_view (reordered ids rows)).*2 = Z.of_nat <$> pairs.*1.
Proof.
  intros Hnd Hidx. destruct (indexed_positions ids rows pairs Hnd Hidx) as (E & _ & _).
  by rewrite row_view_positions, position_reordered, E.
Qed.

(** Contiguous positions put the rows on the first places of the request. *)
Lemma contiguous_digits ids (rows : list A) pairs :
  NoDup (pk <$> rows) → indexed ids rows = Some pairs →
  contiguous (row_view (reordered ids rows)).*2 →
  Forall isdigit (take (length rows) ids).
Proof.
  intros Hnd Hidx. rewrite (reordered_positions ids rows pairs Hnd Hidx).
  intros Hc%contiguous_of_nat. rewrite length_fmap, (indexed_length _ _ _ Hidx) in Hc.
  apply Forall_lookup. intros j x Hj.
  apply lookup_take_Some in Hj as [Hj Hlt].
  assert (j ∈ pairs.*1) as Hin.
  { rewrite Hc. apply list_elem_of_In, in_seq. lia. }
  apply list_elem_of_fmap in Hin as ([i c] & -> & Hp).
  destruct (indexed_spec _ _ _ Hidx) as [_ Hall]. rewrite Forall_forall in Hall.
  specialize (Hall _ Hp). simpl in Hall, Hj. apply list_index_lookup in Hall.
  rewrite Hj in Hall. injection Hall as ->. apply Is_true_true, isdigit_str.
Qed.

(** When the numeric ids are as many as the rows and fill the first places
    of the request, the positions are contiguous. *)
Lemma digits_contiguous ids (rows : list A) pairs :
  NoDup (pk <$> rows) → indexed ids rows = Some pairs →
  length rows = length (filter isdigit ids) →
  Forall isdigit (take (length rows) ids) →
  contiguous (row_view (reordered ids rows)).*2.
Proof.
  intros Hnd Hidx Hlen Hall. rewrite (reordered_positions ids rows pairs Hnd Hidx).
  apply contiguous_of_nat.
  destruct (indexed_positions ids rows pairs Hnd Hidx) as (_ & Hnd' & _).
  apply NoDup_below_contiguous; [done|].
  rewrite length_fmap, (indexed_length _ _ _ Hidx).
  set (n := length rows) in *.
  assert (n ≤ length ids)%nat as Hn.
  { rewrite Hlen. apply length_filter. }
  assert (filter isdigit (drop n ids) = []) as Hdrop.
  { apply nil_length_inv.
    pose proof (f_equal length (filter_app isdigit (take n ids) (drop n ids))) as E.
    rewrite take_drop, length_app, (filter_Forall_id _ _ Hall), length_take in E. lia. }
  apply Forall_forall. intros i Hi.
  apply list_elem_of_fmap in Hi as ([i' c] & -> & Hp). simpl.
  destruct (indexed_spec _ _ _ Hidx) as [_ Hspec]. rewrite Forall_forall in Hspec.
  specialize (Hspec _ Hp). simpl in Hspec. apply list_index_lookup in Hspec.
  destruct (decide (i' < n)%nat) as [|Hge]; [done|]. exfalso.
  assert (str (pk c) ∈ filter isdigit (drop n ids)) as Hin.
  { apply list_elem_of_filter. split; [apply Is_true_true, isdigit_str|].
    apply (list_elem_of_lookup_2 _ (i' - n)%nat). rewrite lookup_drop.
    by replace (n + (i' - n))%nat with i' by lia. }
  rewrite Hdrop in Hin. by apply elem_of_nil in Hin.
Qed.
End Contiguity.

(** C1, as stated, fails for questions: the position of a stored question
    is its index among all submitted ids, system keys included, so with one
    stored question submitted between two system keys the positions of the
    scope are [1], not [0]. *)
Lemma strict_positions_counterexample :
  let s := example_state in
  let r := reorder_questions
             (ids_request 7 ["attendee_email"; "17"; "attendee_name_parts"]) s in
  NoDup (strict_rows StrictQuestions s).*1
  ∧ r.1 = Ok HttpResponse
  ∧ (strict_rows StrictQuestions r.2).*2 = [1]
  ∧ ¬ contiguous (strict_rows StrictQuestions r.2).*2.
Proof.
  cbv zeta. split; [|split; [|split]].
  - apply (bool_decide_unpack _). vm_compute. reflexivity.
  - vm_compute. reflexivity.
  - vm_compute. reflexivity.
  - replace (strict_rows _ _).*2 with [1] by (vm_compute; reflexivity).
    apply not_contiguous_1.
Qed.

(** C1 (amended): after a strict reconciliation that returns its success
    response, the scope has the same entities, each stored position is the
    index of the entity's id in the submitted list, and positions are
    pairwise distinct.  They are exactly 0..n-1 for categories.  For
    questions they are exactly 0..n-1 if and only if the first n submitted
    ids are numeric, n being the number of questions: a system key or any
    other non-numeric string placed before a question id takes an index
    of its own. *)
Theorem strict_positions (k : Strict) u ids s s' :
  NoDup (strict_rows k s).*1 →
  strict_view k (ids_request u ids) s = (Ok HttpResponse, s') →
  (strict_rows k s').*1 = (strict_rows k s).*1
  ∧ (∀ id p, (id, p) ∈ strict_rows k s' →
       0 ≤ p ∧ list_index (str id) ids = Some (Z.to_nat p))
  ∧ NoDup (strict_rows k s').*2
  ∧ (k = StrictCategories ∨ Forall isdigit ids → contiguous (strict_rows k s').*2)
  ∧ (contiguous (strict_rows k s').*2
     ↔ Forall isdigit (take (length (strict_rows k s)) ids)).
Proof.
  destruct k; simpl; rewrite row_view_keys; intros Hnd Hrun.
  - apply reorder_categories_ok in Hrun as (Hlen & _ & pairs & Hidx & ->).
    rewrite (categories_after _ _ _ _ Hnd Hidx).
    destruct (reordered_result ids (categories s) pairs Hnd Hidx) as (E1 & E2 & E3 & E4).
    rewrite (row_view_keys (categories s)) in E1.
    split; [done|]. split; [done|]. split; [done|]. split; [auto|].
    unfold row_view at 2. rewrite length_fmap. split; [|auto].
    by apply (contiguous_digits ids (categories s) pairs).
  - apply reorder_questions_ok in Hrun as (Hlen & _ & pairs & Hidx & ->).
    rewrite (questions_after _ _ _ _ _ Hnd Hidx).
    destruct (reordered_result ids (questions s) pairs Hnd Hidx) as (E1 & E2 & E3 & E4).
    rewrite (row_view_keys (questions s)) in E1.
    split; [done|]. split; [done|]. split; [done|]. split.
    + intros [|Hall]; [done|]. apply E4. rewrite Hlen.
      f_equal. clear -Hall. induction Hall as [|x l Hx Hall IH]; [done|].
      rewrite filter_cons, decide_True by done. by rewrite IH.
    + unfold row_view at 2. rewrite length_fmap. split.
      * by apply (contiguous_digits ids (questions s) pairs).
      * by apply (digits_contiguous ids (questions s) pairs).
Qed.

Lemma strict_positions_witness :
  let s' := (reorder_questions (ids_request 7 ["17"; "attendee_email"]) example_state).2 in
  (strict_rows StrictQuestions s').*1 = (strict_rows StrictQuestions example_state).*1
  ∧ (∀ id p, (id, p) ∈ strict_rows StrictQuestions s' →
       0 ≤ p ∧ list_index (str id) ["17"; "attendee_email"] = Some (Z.to_nat p))
  ∧ NoDup (strict_rows StrictQuestions s').*2
  ∧ (StrictQuestions = StrictCategories ∨ Forall isdigit ["17"; "attendee_email"] →
     contiguous (strict_rows StrictQuestions s').*2)
  ∧ (contiguous (strict_rows StrictQuestions s').*2
     ↔ Forall isdigit
         (take (length (strict_rows StrictQuestions example_state))
               ["17"; "attendee_email"])).
Proof.
  apply (strict_positions StrictQuestions 7 ["17"; "attendee_email"] example_state).
  - apply (bool_decide_unpack _). vm_compute. reflexivity.
  - vm_compute. reflexivity.
Defined.

(** ** Write avoidance *)

Section MovedTargets.
Context {A : Type} `{ModelLaws A}.
Variable plan : A → nat → A.
Variable changed : A → nat → Prop.
Context `{∀ x i, Decision (changed x i)}.
Variable entry : A → nat → LogEntry.
Variable fields : option (list string).
Variable P : A → Prop.
Context `{∀ x, Decision (P x)}.
Hypothesis target_plan : ∀ x i, target (plan x i) = target x.
Hypothesis target_entry : ∀ x i, log_target (entry x i) = target x.
Hypothesis target_row : ∀ x : A, target x ≠ OnEvent.

Lemma moved_targets ids (input : list A) pairs :
  indexed ids input = Some pairs →
  (∀ c i, list_index (str (pk c)) ids = Some i → changed c i ↔ P c) →
  (λ p, target p.2) <$> moved changed pairs = target <$> filter P input.
Proof.
  revert pairs. induction input as [|c input IH]; intros pairs Hidx HP.
  - by injection Hidx as <-.
  - rewrite indexed_cons in Hidx.
    destruct (list_index (str (pk c)) ids) as [i|] eqn:Ei; [|done].
    destruct (indexed ids input) as [ps|] eqn:Ep; [|done].
    injection Hidx as <-. unfold moved. rewrite !filter_cons. simpl.
    specialize (IH ps eq_refl HP). specialize (HP c i Ei).
    destruct (decide (changed c i)), (decide (P c)); try tauto; try exact IH.
    rewrite !fmap_cons. simpl. f_equal. apply IH.
Qed.

Lemma saved_commit pairs s :
  saved (writes (commit plan changed entry fields pairs s))
  = saved (writes s) ++ ((λ p, target p.2) <$> moved changed pairs).
Proof.
  rewrite writes_commit. unfold saved. rewrite omap_app. f_equal.
  induction (moved changed pairs) as [|p l IH]; [done|].
  rewrite !fmap_cons. cbn. rewrite target_plan. f_equal. exact IH.
Qed.

Lemma logged_commit pairs s :
  logged (logentries (commit plan changed entry fields pairs s))
  = logged (logentries s) ++ ((λ p, target p.2) <$> moved changed pairs).
Proof.
  rewrite logentries_commit. unfold logged. rewrite fmap_app, filter_app. f_equal.
  induction (moved changed pairs) as [|p l IH]; [done|].
  rewrite !fmap_cons, filter_cons. rewrite target_entry, target_plan.
  rewrite decide_True by done. by rewrite IH.
Qed.
End MovedTargets.

Lemma target_of_new_category category s t :
  target_of category s = Some t → t = new_category category.
Proof.
  unfold target_of, new_category. case_bool_decide; [|by intros [= <-]].
  destruct (list_find _ _) as [[j c]|] eqn:Ef; [|done].
  apply list_find_Some in Ef as (_ & Ec & _). simpl. intros [= <-]. by rewrite <- Ec.
Qed.

Lemma reorder_items_ok u ids category s s' :
  reorder_items (ids_request u ids) category s = (Ok HttpResponse, s') →
  length (selected ids (items s)) = length ids
  ∧ target_of category s = Some (new_category category)
  ∧ ∃ pairs, indexed ids (selected ids (items s)) = Some pairs
      ∧ s' = item_commit u (new_category category) pairs s.
Proof.
  rewrite reorder_items_run. cbv zeta.
  case_bool_decide as H1; [done|].
  destruct (target_of category s) as [t|] eqn:Et; [|done].
  apply target_of_new_category in Et as ->.
  destruct (indexed ids (selected ids (items s))) as [pairs|]; [|done].
  intros [= <-]. eauto.
Qed.

Lemma strict_changed_differs {A} `{Model A} ids (c : A) i :
  list_index (str (pk c)) ids = Some i → strict_changed c i ↔ differs_position ids c.
Proof.
  intros Hi. unfold strict_changed, differs_position.
  rewrite (key_position_indexed _ _ _ Hi). split; congruence.
Qed.

Lemma saved_store_order u order s :
  saved (writes (store_order u order s)) = saved (writes s).
Proof. unfold saved. simpl. rewrite omap_app. simpl. by rewrite app_nil_r. Qed.

Lemma logged_store_order u order s :
  logged (logentries (store_order u order s)) = logged (logentries s).
Proof.
  unfold logged. simpl. rewrite fmap_app, filter_app. simpl.
  rewrite filter_cons, decide_False by (by intros Hne; apply Hne). by rewrite app_nil_r.
Qed.

(** ** Validation *)

Lemma omap_cons_Some {A B} (f : A → option B) x y l :
  f x = Some y → omap f (x :: l) = y :: omap f l.
Proof. intros E. cbn. by rewrite E. Qed.

Section Validation.
Context {A : Type} `{ModelLaws A}.

Lemma digits_filter (ids : list string) : Forall isdigit (filter isdigit ids).
Proof. apply Forall_forall. intros x Hx. by apply list_elem_of_filter in Hx as [Hx _]. Qed.

Lemma digits_int_length_all (l : list string) :
  Forall isdigit l → length (omap int l) = length l.
Proof.
  induction 1 as [|x l Hx Hl IH]; [done|].
  apply Is_true_true, isdigit_int in Hx as [n Hn].
  rewrite (omap_cons_Some _ _ _ _ Hn). simpl. by rewrite IH.
Qed.

Lemma digits_int_length (ids : list string) :
  length (omap int (filter isdigit ids)) = length (filter isdigit ids).
Proof. apply digits_int_length_all, digits_filter. Qed.

Lemma digits_int_NoDup (l : list string) :
  Forall isdigit l → NoDup (omap int l) → NoDup l.
Proof.
  induction 1 as [|x l Hx Hl IH]; [constructor|].
  apply Is_true_true, isdigit_int in Hx as [n Hn].
  rewrite (omap_cons_Some _ _ _ _ Hn).
  intros Hnd. apply NoDup_cons in Hnd as [Hn' Hnd]. apply NoDup_cons.
  split; [|by apply IH]. intros Hx. apply Hn'. apply list_elem_of_omap. by exists x.
Qed.

Lemma selected_keys ids (rows : list A) :
  ∀ k, k ∈ (pk <$> selected ids rows)
       ↔ k ∈ (pk <$> rows) ∧ k ∈ omap int (filter isdigit ids).
Proof.
  intros k. unfold selected. rewrite !list_elem_of_fmap. split.
  - intros [r [-> Hr]]. apply list_elem_of_filter in Hr as [Hk Hr]. split; [|done].
    by exists r.
  - intros [[r [-> Hr]] Hk]. exists r. split; [done|]. by apply list_elem_of_filter.
Qed.

(** The first check of the views counts rows against submitted ids. *)
Lemma selected_length_le ids (rows : list A) :
  NoDup (pk <$> rows) →
  (length (selected ids rows) ≤ length (filter isdigit ids))%nat.
Proof.
  intros Hnd. rewrite <- digits_int_length, <- (length_fmap pk).
  apply submseteq_length, NoDup_submseteq; [by apply NoDup_selected|].
  intros k Hk. by apply selected_keys in Hk as [_ Hk].
Qed.

Lemma selected_length_eq ids (rows : list A) :
  NoDup (pk <$> rows) →
  length (selected ids rows) = length (filter isdigit ids)
  ↔ NoDup (omap int (filter isdigit ids))
    ∧ ∀ k, k ∈ omap int (filter isdigit ids) → k ∈ (pk <$> rows).
Proof.
  intros Hnd. rewrite <- digits_int_length, <- (length_fmap pk). split.
  - intros Hlen.
    assert (pk <$> selected ids rows ≡ₚ omap int (filter isdigit ids)) as Hp.
    { apply submseteq_length_Permutation; [|lia].
      apply NoDup_submseteq; [by apply NoDup_selected|].
      intros k Hk. by apply selected_keys in Hk as [_ Hk]. }
    split.
    + rewrite <- Hp. by apply NoDup_selected.
    + intros k Hk. rewrite <- Hp in Hk. by apply selected_keys in Hk as [Hk _].
  - intros [Hnd' Hsub]. apply Nat.le_antisymm.
    + apply submseteq_length, NoDup_submseteq; [by apply NoDup_selected|].
      intros k Hk. by apply selected_keys in Hk as [_ Hk].
    + apply submseteq_length, NoDup_submseteq; [done|].
      intros k Hk. apply selected_keys. auto.
Qed.

Lemma filter_digits_length (ids : list string) :
  (length (filter isdigit ids) ≤ length ids)%nat.
Proof. apply length_filter. Qed.

(** An id that does not resolve makes the first check fail. *)
Lemma unresolved_mismatch ids (rows : list A) x :
  NoDup (pk <$> rows) → x ∈ ids → isdigit x → ¬ resolves (pk <$> rows) x →
  length (selected ids rows) ≠ length (filter isdigit ids).
Proof.
  intros Hnd Hx Hd Hres Hlen. apply selected_length_eq in Hlen as [_ Hsub]; [|done].
  apply Is_true_true in Hd as Hd'. apply isdigit_int in Hd' as [n Hn].
  assert (n ∈ omap int (filter isdigit ids)) as Hin.
  { apply list_elem_of_omap. exists x. split; [|done]. by apply list_elem_of_filter. }
  apply Hsub in Hin. apply Hres. split; [done|]. by exists n.
Qed.

(** A numeric id submitted twice makes the first check fail. *)
Lemma duplicate_mismatch ids (rows : list A) :
  NoDup (pk <$> rows) → ¬ NoDup (filter isdigit ids) →
  length (selected ids rows) ≠ length (filter isdigit ids).
Proof.
  intros Hnd Hdup Hlen. apply selected_length_eq in Hlen as [Hnd' _]; [|done].
  apply Hdup. by apply digits_int_NoDup; [apply digits_filter|].
Qed.
End Validation.

Section FirstCheck.
Context {A : Type} `{ModelLaws A}.

Lemma nondigit_shorter (ids : list string) x :
  x ∈ ids → ¬ isdigit x → (length (filter isdigit ids) < length ids)%nat.
Proof.
  induction 1 as [x l|x y l Hin IH]; intros Hx; rewrite filter_cons.
  - rewrite decide_False by done. pose proof (length_filter isdigit l). simpl. lia.
  - specialize (IH Hx). case_decide; simpl; lia.
Qed.

Lemma all_digits_filter (ids : list string) :
  Forall isdigit ids → filter isdigit ids = ids.
Proof.
  induction 1 as [|x l Hx Hl IH]; [done|].
  by rewrite filter_cons, decide_True, IH.
Qed.

(** Unresolved or repeated ids fail the comparison with [len(ids)]. *)
Lemma first_check_fails ids (rows : list A) :
  NoDup (pk <$> rows) →
  (∃ x, x ∈ ids ∧ ¬ resolves (pk <$> rows) x) ∨ ¬ NoDup ids →
  length (selected ids rows) ≠ length ids.
Proof.
  intros Hnd Hbad.
  pose proof (selected_length_le ids rows Hnd) as Hle.
  pose proof (filter_digits_length ids) as Hle'.
  destruct (decide (Forall isdigit ids)) as [Hall|Hsome].
  - rewrite <- (all_digits_filter ids Hall) at 2. destruct Hbad as [[x [Hx Hres]]|Hdup].
    + rewrite Forall_forall in Hall. by eapply unresolved_mismatch; eauto.
    + apply duplicate_mismatch; [done|]. by rewrite all_digits_filter.
  - apply not_Forall_Exists in Hsome; [|apply _].
    apply Exists_exists in Hsome as [x [Hx Hd]].
    pose proof (nondigit_shorter ids x Hx Hd). lia.
Qed.

(** Ids that resolve to distinct rows pass it. *)
Lemma first_check_passes ids (rows : list A) :
  NoDup (pk <$> rows) → Forall (resolves (pk <$> rows)) ids → NoDup (omap int ids) →
  filter isdigit ids = ids ∧ length (selected ids rows) = length ids.
Proof.
  intros Hnd Hall Hdist.
  assert (filter isdigit ids = ids) as E.
  { apply all_digits_filter. eapply Forall_impl; [exact Hall|]. by intros x [Hx _]. }
  split; [done|]. rewrite <- E at 2. apply selected_length_eq; [done|]. rewrite E.
  split; [done|]. intros k Hk. apply list_elem_of_omap in Hk as [x [Hx Hk]].
  rewrite Forall_forall in Hall. destruct (Hall x Hx) as [_ [k' [Hr Hk']]].
  rewrite Hk in Hk'. by injection Hk' as ->.
Qed.

(** A row whose key is not named fails the comparison with [count()]. *)
Lemma second_check_fails ids (rows : list A) key :
  key ∈ (pk <$> rows) → key ∉ omap int (filter isdigit ids) →
  length (selected ids rows) ≠ length rows.
Proof.
  intros Hkey Hout Hlen. apply filter_all in Hlen.
  apply Hout. rewrite <- Hlen in Hkey. by apply selected_keys in Hkey as [_ Hk].
Qed.

(** A request that gets through names every row exactly once. *)
Lemma accepted_covers ids (rows : list A) pairs :
  NoDup (pk <$> rows) → indexed ids rows = Some pairs →
  length rows = length (filter isdigit ids) →
  filter isdigit ids ≡ₚ str <$> (pk <$> rows).
Proof.
  intros Hnd Hidx Hlen. symmetry. apply submseteq_length_Permutation.
  - apply NoDup_submseteq.
    + apply NoDup_fmap_2; [|done]. intros x y. apply str_inj.
    + intros x Hx. apply list_elem_of_fmap in Hx as [k [-> Hk]].
      apply list_elem_of_fmap in Hk as [r [-> Hr]].
      apply list_elem_of_filter. split; [by apply Is_true_true, isdigit_str|].
      by apply (proj1 (indexed_is_Some ids rows)); [rewrite Hidx|].
  - rewrite !length_fmap. lia.
Qed.
End FirstCheck.

(** ** Rejection leaves the state alone *)









Lemma selected_digits {A} `{Model A} ids (rows : list A) :
  selected (filter isdigit ids) rows = selected ids rows.
Proof.
  unfold selected. f_equal. rewrite all_digits_filter; [done|].
  apply Forall_forall. intros x Hx. by apply list_elem_of_filter in Hx as [Hx _].
Qed.

Lemma questions_first_check_fails ids (rows : list Question) :
  NoDup (pk <$> rows) →
  (∃ x, x ∈ filter isdigit ids ∧ ¬ resolves (pk <$> rows) x) ∨ ¬ NoDup (filter isdigit ids) →
  length (selected ids rows) ≠ length (filter isdigit ids).
Proof.
  intros Hnd [[x [Hx Hres]]|Hdup].
  - apply list_elem_of_filter in Hx as [Hd Hx]. by eapply unresolved_mismatch.
  - by apply duplicate_mismatch.
Qed.

(** ** C2: valid requests succeed and write only what moved *)

Lemma omap_int_str (keys : list N) : omap int (str <$> keys) = keys.
Proof.
  induction keys as [|k keys IH]; [done|].
  rewrite fmap_cons, (omap_cons_Some _ _ _ _ (int_str k)). by rewrite IH.
Qed.

Section Accepted.
Context {A : Type} `{ModelLaws A}.

(** Decimal keys of distinct rows pass the first check and are found by
    the loop. *)
Lemma named_rows_accepted ids (checked_ids : list string) (rows : list A) keys :
  NoDup (pk <$> rows) → NoDup keys → keys ⊆ (pk <$> rows) →
  checked_ids ≡ₚ str <$> keys → filter isdigit ids = checked_ids →
  length (selected ids rows) = length checked_ids
  ∧ pk <$> selected ids rows ≡ₚ keys
  ∧ is_Some (indexed ids (selected ids rows)).
Proof.
  intros Hnd Hkeys Hsub Hperm Hfilter.
  assert (omap int checked_ids ≡ₚ keys) as Hint.
  { rewrite Hperm. by rewrite omap_int_str. }
  assert (Forall (resolves (pk <$> rows)) checked_ids) as Hres.
  { apply Forall_forall. intros x Hx. rewrite Hperm in Hx.
    apply list_elem_of_fmap in Hx as (k & -> & Hk). split.
    - apply Is_true_true, isdigit_str.
    - exists k. split; [by apply Hsub|apply int_str]. }
  destruct (first_check_passes checked_ids rows Hnd Hres) as [Ed Hlen].
  { by rewrite Hint. }
  assert (selected checked_ids rows = selected ids rows) as Esel.
  { rewrite <- Hfilter. apply selected_digits. }
  rewrite Esel in Hlen. split; [done|].
  assert (pk <$> selected ids rows ≡ₚ keys) as Hpk.
  { apply NoDup_Permutation; [by apply NoDup_selected|done|].
    intros k. rewrite selected_keys, Hfilter, Hint. split; [tauto|]. auto. }
  split; [done|].
  apply indexed_is_Some. intros c Hc.
  assert (pk c ∈ keys) as Hk by (rewrite <- Hpk; by apply list_elem_of_fmap_2).
  assert (str (pk c) ∈ checked_ids) as Hin.
  { rewrite Hperm. by apply list_elem_of_fmap_2. }
  rewrite <- Hfilter in Hin. by apply list_elem_of_filter in Hin as [_ ?].
Qed.
End Accepted.

Lemma digits_of_keys (keys : list N) : filter isdigit (str <$> keys) = str <$> keys.
Proof.
  apply filter_Forall_id, Forall_forall. intros x (k & -> & _)%list_elem_of_fmap.
  apply Is_true_true, isdigit_str.
Qed.

Lemma digits_of_Permutation (ids : list string) (keys : list N) :
  ids ≡ₚ str <$> keys → filter isdigit ids = ids.
Proof.
  intros Hp. apply filter_Forall_id, Forall_forall. intros x Hx. rewrite Hp in Hx.
  apply list_elem_of_fmap in Hx as (k & -> & _). apply Is_true_true, isdigit_str.
Qed.

(** A valid request is answered by the success response. *)
Lemma valid_request_succeeds (e : Endpoint) u ids s :
  NoDup (scope_keys e s) → valid_request e ids s →
  ∃ s', run e (ids_request u ids) s = (Ok HttpResponse, s').
Proof.
  destruct e as [category| |]; cbn [run scope_keys valid_request]; intros Hnd [_ Hvalid].
  - destruct Hvalid as [(keys & Hkeys & Hsub & ->) Hcat].
    destruct (named_rows_accepted (str <$> keys) (str <$> keys) (items s) keys
                Hnd Hkeys Hsub (reflexivity _) (digits_of_keys keys))
      as (Hlen & _ & [pairs Hidx]).
    rewrite reorder_items_run. cbv zeta.
    rewrite bool_decide_false by (by intros Hne; apply Hne).
    assert (is_Some (target_of category s)) as [t ->].
    { unfold target_of. case_bool_decide as Hc; [|by eexists].
      destruct Hcat as [?|Hin]; [done|].
      apply list_elem_of_fmap in Hin as (c & -> & Hc').
      destruct (list_find_elem_of (λ r : ItemCategory, pk r = pk c) (categories s) c Hc' eq_refl)
        as [[j c0] ->]. by eexists. }
    rewrite Hidx. by eexists.
  - assert (filter isdigit ids = ids) as Hd by (by eapply digits_of_Permutation).
    destruct (named_rows_accepted ids ids (categories s) (pk <$> categories s)
                Hnd Hnd (λ x Hx, Hx) Hvalid Hd)
      as (Hlen & Hpk & [pairs Hidx]).
    rewrite reorder_categories_run. cbv zeta.
    rewrite bool_decide_false by (by intros Hne; apply Hne).
    rewrite bool_decide_false.
    + rewrite Hidx. by eexists.
    + intros Hne. apply Hne. rewrite <- (length_fmap pk), Hpk. by rewrite length_fmap.
  - destruct (named_rows_accepted ids (filter isdigit ids) (questions s) (pk <$> questions s)
                Hnd Hnd (λ x Hx, Hx) Hvalid eq_refl)
      as (Hlen & Hpk & [pairs Hidx]).
    rewrite reorder_questions_run. cbv zeta.
    rewrite bool_decide_false by (by intros Hne; apply Hne).
    rewrite bool_decide_false.
    + rewrite Hidx. by eexists.
    + intros Hne. apply Hne. rewrite <- (length_fmap pk), Hpk. by rewrite length_fmap.
Qed.

(** C2: on each reorder endpoint a valid request is answered by the
    success response, and the rows saved and the entities logged about by
    a successful request are exactly the resolved entities whose computed
    position (or, for items, category) differs from the stored one, one
    write and one record each, in the order of the loop. *)
Theorem write_avoidance (e : Endpoint) u ids s :
  (NoDup (scope_keys e s) → valid_request e ids s →
   ∃ s', run e (ids_request u ids) s = (Ok HttpResponse, s'))
  ∧ (∀ s', run e (ids_request u ids) s = (Ok HttpResponse, s') →
       saved (writes s') = saved (writes s) ++ changed_targets e ids s
       ∧ logged (logentries s') = logged (logentries s) ++ changed_targets e ids s).
Proof.
  split; [apply valid_request_succeeds|].
  destruct e as [category| |]; simpl; intros s' Hrun.
  - apply reorder_items_ok in Hrun as (_ & _ & pairs & Hidx & ->).
    unfold item_commit. rewrite saved_commit, logged_commit by done.
    rewrite (moved_targets _ (λ i, differs_position ids i
                                   ∨ new_category category ≠ item_category i)
               ids _ pairs Hidx); [done|].
    intros c i Hi. unfold relaxed_changed, differs_position.
    rewrite (key_position_indexed _ _ _ Hi). split; intros [?|?]; auto.
  - apply reorder_categories_ok in Hrun as (_ & E & pairs & Hidx & ->).
    rewrite E. unfold category_commit.
    rewrite saved_commit, logged_commit by done.
    by rewrite (moved_targets _ (differs_position ids) ids _ pairs Hidx
                  (strict_changed_differs ids)).
  - apply reorder_questions_ok in Hrun as (_ & E & pairs & Hidx & ->).
    rewrite E, saved_store_order, logged_store_order. unfold question_commit.
    rewrite saved_commit, logged_commit by done.
    by rewrite (moved_targets _ (differs_position ids) ids _ pairs Hidx
                  (strict_changed_differs ids)).
Qed.

Lemma write_avoidance_witness :
  (∃ s', run (ReorderItems 2) (ids_request 7 ["12"; "11"]) example_state
         = (Ok HttpResponse, s')
     ∧ saved (writes s') = [OnItem 11; OnItem 12]
     ∧ logged (logentries s') = [OnItem 11; OnItem 12])
  ∧ (∃ s', run (ReorderItems 2) (ids_request 7 ["14"]) example_state
           = (Ok HttpResponse, s')
       ∧ saved (writes s') = [] ∧ logged (logentries s') = [])
  ∧ (∃ s', run ReorderCategories (ids_request 7 ["1"; "3"; "2"]) example_state
           = (Ok HttpResponse, s')
       ∧ saved (writes s') = [OnCategory 2; OnCategory 3]
       ∧ logged (logentries s') = [OnCategory 2; OnCategory 3])
  ∧ (∃ s', run ReorderQuestions (ids_request 7 ["attendee_email"; "17"]) example_state
           = (Ok HttpResponse, s')
       ∧ saved (writes s') = [OnQuestion 17]
       ∧ logged (logentries s') = [OnQuestion 17]).
Proof.
  split; [|split; [|split]].
  - destruct (write_avoidance (ReorderItems 2) 7 ["12"; "11"] example_state)
      as [Hvalid Hrecords].
    destruct Hvalid as [s' Hrun].
    + apply (bool_decide_unpack _). vm_compute. reflexivity.
    + split; [apply (bool_decide_unpack _); vm_compute; reflexivity|]. split; [|right; apply (bool_decide_unpack _); vm_compute; reflexivity].
      exists [12%N; 11%N]. split; [apply (bool_decide_unpack _); vm_compute; reflexivity|]. split; [|reflexivity].
      apply (bool_decide_unpack _). vm_compute. reflexivity.
    + exists s'. split; [exact Hrun|]. destruct (Hrecords s' Hrun) as [-> ->].
      split; vm_compute; reflexivity.
  - destruct (write_avoidance (ReorderItems 2) 7 ["14"] example_state)
      as [Hvalid Hrecords].
    destruct Hvalid as [s' Hrun].
    + apply (bool_decide_unpack _). vm_compute. reflexivity.
    + split; [apply (bool_decide_unpack _); vm_compute; reflexivity|]. split; [|right; apply (bool_decide_unpack _); vm_compute; reflexivity].
      exists [14%N]. split; [apply (bool_decide_unpack _); vm_compute; reflexivity|]. split; [|reflexivity].
      apply (bool_decide_unpack _). vm_compute. reflexivity.
    + exists s'. split; [exact Hrun|]. destruct (Hrecords s' Hrun) as [-> ->].
      split; vm_compute; reflexivity.
  - destruct (write_avoidance ReorderCategories 7 ["1"; "3"; "2"] example_state)
      as [Hvalid Hrecords].
    destruct Hvalid as [s' Hrun].
    + apply (bool_decide_unpack _). vm_compute. reflexivity.
    + split; [apply (bool_decide_unpack _); vm_compute; reflexivity|]. vm_compute. 
      apply Permutation_skip, Permutation_swap.
    + exists s'. split; [exact Hrun|]. destruct (Hrecords s' Hrun) as [-> ->].
      split; vm_compute; reflexivity.
  - destruct (write_avoidance ReorderQuestions 7 ["attendee_email"; "17"] example_state)
      as [Hvalid Hrecords].
    destruct Hvalid as [s' Hrun].
    + apply (bool_decide_unpack _). vm_compute. reflexivity.
    + split; [apply (bool_decide_unpack _); vm_compute; reflexivity|]. vm_compute. reflexivity.
    + exists s'. split; [exact Hrun|]. destruct (Hrecords s' Hrun) as [-> ->].
      split; vm_compute; reflexivity.
Defined.

(** ** C3: rejection *)



(** ** C4: classification of rejected strict requests *)

(** C4, as stated, fails: a repeated id is reported as an invalid id, not
    as an incomplete selection (scenario C of the specification). *)
Lemma duplicate_ids_counterexample :
  let s := mkState [mkItemCategory 1 0] [] [] example_settings [] [] [] in
  NoDup (strict_rows StrictCategories s).*1
  ∧ strict_view StrictCategories (ids_request 7 ["1"; "1"]) s
    = (Raise (Http404 invalid_ids), s)
  ∧ strict_view StrictCategories (ids_request 7 ["1"; "1"]) s
    ≠ (Raise (Http404 not_all_selected), s).
Proof.
  cbv zeta. split; [|split].
  - apply (bool_decide_unpack _). vm_compute. reflexivity.
  - vm_compute. reflexivity.
  - vm_compute. discriminate.
Qed.

(** C4 (amended): a strict endpoint validates the submitted ids for
    categories and only the numeric ones for questions, where every other
    string is passed over.  For plain ids (ASCII text, numerals within the
    range of a key) it accepts exactly the requests whose validated ids
    are the decimal keys of the scope, each exactly once; a validated id
    that does not resolve or is repeated yields the "invalid ids" failure;
    validated ids that resolve to distinct rows but leave a row out yield
    the "not all selected" failure; both leave the state unchanged. *)
Theorem strict_validation (k : Strict) u ids s :
  NoDup (strict_rows k s).*1 →
  (∀ s', strict_view k (ids_request u ids) s = (Ok HttpResponse, s') →
         checked k ids ≡ₚ str <$> (strict_rows k s).*1)
  ∧ (plain_ids ids → checked k ids ≡ₚ str <$> (strict_rows k s).*1 →
     ∃ s', strict_view k (ids_request u ids) s = (Ok HttpResponse, s'))
  ∧ (plain_ids ids →
     (∃ x, x ∈ checked k ids ∧ ¬ resolves (strict_rows k s).*1 x)
     ∨ ¬ NoDup (checked k ids) →
     strict_view k (ids_request u ids) s = (Raise (Http404 invalid_ids), s))
  ∧ (plain_ids ids →
     Forall (resolves (strict_rows k s).*1) (checked k ids) →
     NoDup (omap int (checked k ids)) →
     (∃ key, key ∈ (strict_rows k s).*1 ∧ key ∉ omap int (checked k ids)) →
     strict_view k (ids_request u ids) s = (Raise (Http404 not_all_selected), s)).
Proof.
  destruct k; simpl; rewrite row_view_keys; intros Hnd; (split; [|split; [|split]]).
  - intros s' Hrun.
    apply reorder_categories_ok in Hrun as (Hlen & E & pairs & Hidx & _).
    assert (filter isdigit ids = ids) as Ed.
    { apply filter_all. pose proof (selected_length_le ids (categories s) Hnd) as Hle.
      pose proof (filter_digits_length ids). rewrite E in Hle. lia. }
    rewrite <- Ed at 1. apply (accepted_covers ids _ pairs Hnd Hidx). by rewrite Ed.
  - intros Hplain Hperm.
    exact (valid_request_succeeds ReorderCategories u ids s Hnd (conj Hplain Hperm)).
  - intros _ Hbad. rewrite reorder_categories_run. cbv zeta.
    rewrite bool_decide_true; [done|]. by apply first_check_fails.
  - intros _ Hall Hdist [key [Hk Hout]]. rewrite reorder_categories_run. cbv zeta.
    destruct (first_check_passes ids (categories s) Hnd Hall Hdist) as [Ed Hlen].
    rewrite bool_decide_false by (by intros Hne; apply Hne).
    rewrite bool_decide_true; [done|]. eapply second_check_fails; [exact Hk|].
    by rewrite Ed.
  - intros s' Hrun.
    apply reorder_questions_ok in Hrun as (Hlen & E & pairs & Hidx & _).
    by apply (accepted_covers ids _ pairs Hnd Hidx).
  - intros Hplain Hperm.
    exact (valid_request_succeeds ReorderQuestions u ids s Hnd (conj Hplain Hperm)).
  - intros _ Hbad. rewrite reorder_questions_run. cbv zeta.
    rewrite bool_decide_true; [done|]. by apply questions_first_check_fails.
  - intros _ Hall Hdist [key [Hk Hout]]. rewrite reorder_questions_run. cbv zeta.
    destruct (first_check_passes (filter isdigit ids) (questions s) Hnd Hall Hdist)
      as [Ed Hlen].
    rewrite selected_digits in Hlen.
    rewrite bool_decide_false by (by intros Hne; apply Hne).
    rewrite bool_decide_true; [done|]. by eapply second_check_fails.
Qed.

Lemma strict_validation_witness :
  let s := mkState [mkItemCategory 1 0] [] [] example_settings [] [] [] in
  strict_view StrictCategories (ids_request 7 ["1"; "1"]) s
  = (Raise (Http404 invalid_ids), s)
  ∧ strict_view StrictCategories (ids_request 7 ["2"; "1"]) example_state
    = (Raise (Http404 not_all_selected), example_state)
  ∧ (∃ s', strict_view StrictQuestions
             (ids_request 7 ["foo"; "17"; "attendee_email"; "attendee_email"]) example_state
           = (Ok HttpResponse, s'))
  ∧ strict_view StrictQuestions (ids_request 7 ["foo"; "17"; "17"]) example_state
    = (Raise (Http404 invalid_ids), example_state).
Proof.
  cbv zeta. split; [|split; [|split]].
  - apply (strict_validation StrictCategories 7 ["1"; "1"]
             (mkState [mkItemCategory 1 0] [] [] example_settings [] [] [])).
    + apply (bool_decide_unpack _). vm_compute. reflexivity.
    + apply (bool_decide_unpack _). vm_compute. reflexivity.
    + right. apply (bool_decide_unpack _). vm_compute. reflexivity.
  - apply (strict_validation StrictCategories 7 ["2"; "1"] example_state).
    + apply (bool_decide_unpack _). vm_compute. reflexivity.
    + apply (bool_decide_unpack _). vm_compute. reflexivity.
    + constructor; [|constructor; [|constructor]];
        (split; [exact I|]); eexists; (split; [|reflexivity]);
        apply (bool_decide_unpack _); vm_compute; reflexivity.
    + apply (bool_decide_unpack _). vm_compute. reflexivity.
    + exists 3%N. split; apply (bool_decide_unpack _); vm_compute; reflexivity.
  - apply (strict_validation StrictQuestions 7
             ["foo"; "17"; "attendee_email"; "attendee_email"] example_state).
    + apply (bool_decide_unpack _). vm_compute. reflexivity.
    + apply (bool_decide_unpack _). vm_compute. reflexivity.
    + vm_compute. reflexivity.
  - apply (strict_validation StrictQuestions 7 ["foo"; "17"; "17"] example_state).
    + apply (bool_decide_unpack _). vm_compute. reflexivity.
    + apply (bool_decide_unpack _). vm_compute. reflexivity.
    + right. apply (bool_decide_unpack _). vm_compute. reflexivity.
Defined.

(** ** C8: malformed requests *)

(** C8: on each reorder endpoint, an authorised POST whose body does not
    decode to JSON, or decodes to an object without [ids], is answered by
    the 400 response with body "expected JSON: {ids:[]}", and the state,
    audit log included, is unchanged. *)
Theorem malformed_request (e : Endpoint) request s :
  can_change_items request = true →
  method request = "POST" →
  (body request = None
   ∨ ∃ fields, body request = Some (JObject fields) ∧ dict_get "ids" fields = None) →
  run e request s = (Ok (HttpResponseBadRequest "expected JSON: {ids:[]}"), s).
Proof.
  intros Hperm Hpost Hbody.
  assert (load_ids request s = (Ok None, s)) as Hload.
  { unfold load_ids. destruct Hbody as [->|[fields [-> ->]]]; done. }
  destruct e as [category| |]; simpl;
    unfold reorder_items, reorder_categories, reorder_questions, atomic,
      event_permission_required, require_POST;
    rewrite Hperm, Hpost; cbn [String.eqb Ascii.eqb Bool.eqb];
    by rewrite (bind_ok _ _ _ _ _ Hload).
Qed.

Lemma malformed_request_witness :
  run ReorderQuestions (mkRequest "POST" 7 true None) example_state
  = (Ok (HttpResponseBadRequest "expected JSON: {ids:[]}"), example_state)
  ∧ run (ReorderItems 2) (mkRequest "POST" 7 true (Some (JObject [("id", JArray [])])))
        example_state
    = (Ok (HttpResponseBadRequest "expected JSON: {ids:[]}"), example_state).
Proof.
  split.
  - apply (malformed_request ReorderQuestions (mkRequest "POST" 7 true None));
      [reflexivity|reflexivity|left; reflexivity].
  - apply (malformed_request (ReorderItems 2)
             (mkRequest "POST" 7 true (Some (JObject [("id", JArray [])]))));
      [reflexivity|reflexivity|right; eexists; split; reflexivity].
Defined.

(** ** C6: the system question order *)

Lemma fill_pure_lookup ids keys (order : gmap string Z) key :
  fill_pure ids keys order !! key
  = if decide (key ∈ keys) then Some (key_position ids key) else order !! key.
Proof.
  revert order. induction keys as [|k keys IH]; intros order; [done|].
  unfold fill_pure. simpl. fold (fill_pure ids keys (<[k:=key_position ids k]> order)).
  rewrite IH. destruct (decide (key ∈ keys)) as [Hin|Hout].
  - rewrite decide_True; [done|]. by right.
  - destruct (decide (key = k)) as [->|Hne].
    + rewrite decide_True by left. by rewrite lookup_insert_eq.
    + rewrite decide_False; [by rewrite lookup_insert_ne|].
      intros Hin. apply elem_of_cons in Hin as [?|?]; done.
Qed.

Lemma order_store_order u order s :
  system_question_order (settings (store_order u order s)) = order.
Proof. done. Qed.

Lemma writes_store_order u order s :
  writes (store_order u order s) = writes s ++ [SettingsSet "system_question_order"].
Proof. done. Qed.

Lemma logentries_store_order u order s :
  logentries (store_order u order s) = logentries s ++ [settings_entry u order].
Proof. done. Qed.

(** C6: a successful [reorder_questions] stores a map with exactly the
    seven system keys, each bound to the index of the key in the submitted
    ids or to -1 when absent; the map is written by one settings write,
    the last write of the request, and logged by one event-level record,
    the last record of the request; before them come one row write and one
    record per stored question whose position changed. *)
Theorem system_order_stored u ids s s' :
  reorder_questions (ids_request u ids) s = (Ok HttpResponse, s') →
  let order := system_question_order (settings s') in
  (∀ key, order !! key
          = if decide (key ∈ system_questions) then Some (key_position ids key) else None)
  ∧ ∃ row_writes row_logs,
      writes s' = writes s ++ row_writes ++ [SettingsSet "system_question_order"]
      ∧ Forall is_row_save row_writes
      ∧ logentries s' = logentries s ++ row_logs ++ [settings_entry u order]
      ∧ Forall (λ e, log_target e ≠ OnEvent) row_logs
      ∧ length row_writes = length (filter (differs_position ids) (questions s))
      ∧ length row_logs = length (filter (differs_position ids) (questions s)).
Proof.
  intros Hrun. apply reorder_questions_ok in Hrun as (_ & _ & pairs & Hidx & ->).
  cbv zeta. rewrite order_store_order. split.
  - intros key. rewrite fill_pure_lookup. by rewrite lookup_empty.
  - eexists _, _. split; [|split; [|split; [|split; [|split]]]].
    + rewrite writes_store_order. unfold question_commit.
      rewrite writes_commit, <- app_assoc. reflexivity.
    + apply Forall_fmap, Forall_forall. by intros p _.
    + rewrite logentries_store_order. unfold question_commit.
      rewrite logentries_commit, <- app_assoc. reflexivity.
    + apply Forall_fmap, Forall_forall. by intros p _.
    + rewrite length_fmap, <- (length_fmap (λ p, target p.2)).
      rewrite (moved_targets strict_changed (differs_position ids) ids _ pairs Hidx
                 (strict_changed_differs ids)).
      by rewrite length_fmap.
    + rewrite length_fmap, <- (length_fmap (λ p, target p.2)).
      rewrite (moved_targets strict_changed (differs_position ids) ids _ pairs Hidx
                 (strict_changed_differs ids)).
      by rewrite length_fmap.
Qed.

Lemma system_order_stored_witness :
  let ids := ["attendee_email"; "17"; "attendee_name_parts"] in
  let s' := (reorder_questions (ids_request 7 ids) example_state).2 in
  let order := system_question_order (settings s') in
  (∀ key, order !! key
          = if decide (key ∈ system_questions) then Some (key_position ids key) else None)
  ∧ ∃ row_writes row_logs,
      writes s' = writes example_state ++ row_writes ++ [SettingsSet "system_question_order"]
      ∧ Forall is_row_save row_writes
      ∧ logentries s' = logentries example_state ++ row_logs ++ [settings_entry 7 order]
      ∧ Forall (λ e, log_target e ≠ OnEvent) row_logs
      ∧ length row_writes = length (filter (differs_position ids) (questions example_state))
      ∧ length row_logs = length (filter (differs_position ids) (questions example_state)).
Proof.
  apply (system_order_stored 7 ["attendee_email"; "17"; "attendee_name_parts"] example_state).
  vm_compute. reflexivity.
Defined.

(** Scenario E of the specification. *)
Example scenario_E :
  let s' := (reorder_questions
               (ids_request 7 ["attendee_email"; "17"; "attendee_name_parts"])
               example_state).2 in
  questions s' = [mkQuestion 17 1]
  ∧ map_to_list (system_question_order (settings s'))
    ≡ₚ [("attendee_email", 0); ("attendee_name_parts", 2); ("company", -1);
        ("street", -1); ("zipcode", -1); ("city", -1); ("country", -1)]
  ∧ length (logentries s') = 2%nat.
Proof.
  cbv zeta. split; [by vm_compute|]. split; [|by vm_compute].
  apply NoDup_Permutation.
  - apply NoDup_map_to_list.
  - apply (bool_decide_unpack _). by vm_compute.
  - intros [k v]. rewrite elem_of_map_to_list.
    replace (system_question_order _) with
      (fill_pure ["attendee_email"; "17"; "attendee_name_parts"] system_questions ∅)
      by (by vm_compute).
    rewrite fill_pure_lookup, lookup_empty.
    case_decide as Hk.
    + repeat (apply elem_of_cons in Hk as [->|Hk]); [..|by apply elem_of_nil in Hk];
        vm_compute key_position; split.
      all: try (intros [= <-]; set_solver).
      all: intros Hin; repeat (apply elem_of_cons in Hin as [Hin|Hin]; [by inversion Hin|]);
        by apply elem_of_nil in Hin.
    + split; [done|]. intros Hin. destruct Hk.
      repeat (apply elem_of_cons in Hin as [[= -> _]|Hin]; [set_solver|]).
      by apply elem_of_nil in Hin.
Qed.

(** ** Single-step moves *)

Lemma item_move_run request id up s :
  item_move request id up s =
  match list_find (λ r : Item, pk r = id) (items s) with
  | None => (Raise (Http404 "The requested product does not exist."), s)
  | Some (_, it) =>
      match index_of it (item_scope it s) with
      | None => (Raise ValueError, s)
      | Some index =>
          (Ok tt,
           add_flash "The order of items has been updated."
             (item_move_commit (user request)
                (enumerate (moved_list up index (item_scope it s))) s))
      end
  end.
Proof.
  unfold item_move. rewrite get_by_id_run. cbn [objects Item_Model].
  destruct (list_find (λ r : Item, pk r = id) (items s)) as [[j it]|]; [|done].
  cbn [fmap option_fmap option_map snd]. rewrite get_state_run. cbn [objects Item_Model].
  change (sort_by position (filter _ (items s))) with (item_scope it s).
  destruct (index_of it (item_scope it s)) as [index|]; [|done].
  fold (moved_list up index (item_scope it s)).
  erewrite bind_ok; [reflexivity|].
  erewrite for_each_ext; [apply for_each_step|].
  intros [i x] s0 _. reflexivity.
Qed.

Lemma category_move_run request id up s :
  category_move request id up s =
  match list_find (λ r : ItemCategory, pk r = id) (categories s) with
  | None => (Raise (Http404 "The requested product category does not exist."), s)
  | Some (_, cat) =>
      match index_of cat (category_scope s) with
      | None => (Raise ValueError, s)
      | Some index =>
          (Ok tt,
           add_flash "The order of categories has been updated."
             (category_move_commit (user request)
                (enumerate (moved_list up index (category_scope s))) s))
      end
  end.
Proof.
  unfold category_move. rewrite get_by_id_run. cbn [objects ItemCategory_Model].
  destruct (list_find (λ r : ItemCategory, pk r = id) (categories s)) as [[j cat]|]; [|done].
  cbn [fmap option_fmap option_map snd]. rewrite get_state_run.
  cbn [objects ItemCategory_Model].
  change (sort_by position (categories s)) with (category_scope s).
  destruct (index_of cat (category_scope s)) as [index|]; [|done].
  fold (moved_list up index (category_scope s)).
  erewrite bind_ok; [reflexivity|].
  erewrite for_each_ext; [apply for_each_step|].
  intros [i x] s0 _. reflexivity.
Qed.

(** ** The stable sort *)

Section Sort.
Context {A : Type} (key : A → Z).

Lemma insert_by_Permutation x l : insert_by key x l ≡ₚ x :: l.
Proof.
  induction l as [|y l IH]; [done|]. simpl. destruct (key x <=? key y); [done|].
  rewrite IH. apply Permutation_swap.
Qed.

Lemma sort_by_Permutation l : sort_by key l ≡ₚ l.
Proof.
  induction l as [|x l IH]; [done|]. simpl.
  rewrite insert_by_Permutation. by rewrite IH.
Qed.

Lemma length_sort_by l : length (sort_by key l) = length l.
Proof. by rewrite sort_by_Permutation. Qed.

Lemma insert_by_sorted x l :
  StronglySorted (λ a b, key a ≤ key b) l →
  StronglySorted (λ a b, key a ≤ key b) (insert_by key x l).
Proof.
  induction 1 as [|y l Hl IH Hy]; simpl.
  - repeat constructor.
  - destruct (Z.leb_spec (key x) (key y)) as [Hle|Hgt].
    + constructor; [by constructor|]. constructor; [done|].
      eapply Forall_impl; [exact Hy|]. intros z Hz. simpl in Hz. lia.
    + constructor; [done|]. rewrite insert_by_Permutation.
      constructor; [lia|done].
Qed.

Lemma sort_by_sorted l : StronglySorted (λ a b, key a ≤ key b) (sort_by key l).
Proof.
  induction l as [|x l IH]; simpl; [constructor|]. by apply insert_by_sorted.
Qed.

Lemma keys_sorted l : StronglySorted Z.le (key <$> sort_by key l).
Proof.
  eapply (StronglySorted_fmap key (λ a b, key a ≤ key b)); [|apply sort_by_sorted].
  done.
Qed.

(** Stability: entries with the same key keep their relative order. *)
Lemma insert_by_stable k x l :
  filter (λ y, key y = k) (insert_by key x l) = filter (λ y, key y = k) (x :: l).
Proof.
  induction l as [|y l IH]; [done|]. simpl.
  destruct (Z.leb_spec (key x) (key y)) as [Hle|Hgt]; [done|].
  rewrite (filter_cons _ y), IH, !filter_cons.
  destruct (decide (key y = k)), (decide (key x = k)); try done. lia.
Qed.

Lemma sort_by_stable k l :
  filter (λ y, key y = k) (sort_by key l) = filter (λ y, key y = k) l.
Proof.
  induction l as [|x l IH]; [done|]. simpl.
  by rewrite insert_by_stable, !filter_cons, IH.
Qed.

Lemma sort_by_sorted_id l :
  StronglySorted (λ a b, key a ≤ key b) l → sort_by key l = l.
Proof.
  induction 1 as [|x l Hl IH Hx]; [done|]. simpl. rewrite IH.
  destruct l as [|y l]; [done|]. simpl.
  apply Forall_cons in Hx as [Hxy _].
  by destruct (Z.leb_spec (key x) (key y)); [|lia].
Qed.
End Sort.

Lemma seq_sorted n m : StronglySorted Z.le (Z.of_nat <$> seq n m).
Proof.
  revert n. induction m as [|m IH]; intros n; simpl; constructor; [apply IH|].
  apply Forall_fmap, Forall_forall. intros i Hi. apply list_elem_of_In, in_seq in Hi.
  simpl. lia.
Qed.

(** Sorting contiguous positions yields [0; 1; ...; n-1]. *)
Lemma sorted_contiguous {A} (key : A → Z) (l : list A) :
  contiguous (key <$> l) → key <$> sort_by key l = Z.of_nat <$> seq 0 (length l).
Proof.
  unfold contiguous. rewrite length_fmap. intros Hp.
  apply (StronglySorted_unique Z.le).
  - apply keys_sorted.
  - apply seq_sorted.
  - by rewrite sort_by_Permutation.
Qed.

(** ** Enumeration and the adjacent swap *)

Lemma imap_enum_from {A} n (l : list A) : imap (λ i x, ((n + i)%nat, x)) l = enum_from n l.
Proof.
  revert n. induction l as [|x l IH]; intros n; [done|].
  rewrite imap_cons. simpl. rewrite Nat.add_0_r. f_equal. rewrite <- IH.
  apply imap_ext. intros i y _. simpl. f_equal. lia.
Qed.

Lemma enumerate_enum_from {A} (l : list A) : enumerate l = enum_from 0 l.
Proof. apply (imap_enum_from 0). Qed.

Lemma enum_from_app {A} n (l1 l2 : list A) :
  enum_from n (l1 ++ l2) = enum_from n l1 ++ enum_from (n + length l1) l2.
Proof.
  revert n. induction l1 as [|x l1 IH]; intros n; simpl.
  - by rewrite Nat.add_0_r.
  - rewrite IH. do 3 f_equal. lia.
Qed.

Lemma enum_from_snd {A} n (l : list A) : (enum_from n l).*2 = l.
Proof. revert n. induction l as [|x l IH]; intros n; simpl; [done|]. by rewrite IH. Qed.

Lemma enum_from_elem {A} n (l : list A) j x :
  (j, x) ∈ enum_from n l ↔ ∃ i, j = (n + i)%nat ∧ l !! i = Some x.
Proof.
  revert n. induction l as [|y l IH]; intros n; simpl.
  - split; [by intros Hin; apply elem_of_nil in Hin|]. by intros [i [_ Hi]].
  - rewrite elem_of_cons, IH. split.
    + intros [[= -> ->]|[i [-> Hi]]]; [exists 0%nat|exists (S i)]; split; auto; lia.
    + intros [[|i] [-> Hi]]; simpl in Hi.
      * left. injection Hi as ->. f_equal. lia.
      * right. exists i. split; [lia|done].
Qed.

Lemma swap_up {A} (l1 : list A) a b l2 :
  swap (length l1) (S (length l1)) (l1 ++ a :: b :: l2) = l1 ++ b :: a :: l2.
Proof.
  unfold swap. rewrite list_lookup_middle by done.
  rewrite lookup_app_r by lia. replace (S (length l1) - length l1)%nat with 1%nat by lia.
  simpl. rewrite insert_app_r_alt by lia. rewrite Nat.sub_diag. simpl.
  rewrite insert_app_r_alt by lia.
  replace (S (length l1) - length l1)%nat with 1%nat by lia. done.
Qed.

Lemma swap_down {A} (l1 : list A) a b l2 :
  swap (S (length l1)) (length l1) (l1 ++ a :: b :: l2) = l1 ++ b :: a :: l2.
Proof.
  unfold swap. rewrite (list_lookup_middle l1 (b :: l2) a (length l1) eq_refl).
  rewrite lookup_app_r by lia. replace (S (length l1) - length l1)%nat with 1%nat by lia.
  simpl. rewrite insert_app_r_alt by lia.
  replace (S (length l1) - length l1)%nat with 1%nat by lia. simpl.
  rewrite insert_app_r_alt by lia. rewrite Nat.sub_diag. done.
Qed.

Lemma split_adjacent {A} (l : list A) i a b :
  l !! i = Some a → l !! S i = Some b →
  ∃ l1 l2, l = l1 ++ a :: b :: l2 ∧ length l1 = i.
Proof.
  intros Ha Hb. exists (take i l), (drop (S (S i)) l). split.
  - rewrite <- (take_drop_middle l i a Ha) at 1. f_equal. f_equal.
    rewrite <- (take_drop_middle l (S i) b Hb) at 1.
    apply lookup_lt_Some in Hb.
    rewrite drop_app_ge; rewrite length_take_le; try lia.
    replace (S i - S i)%nat with 0%nat by lia. done.
  - apply lookup_lt_Some in Ha. rewrite length_take_le; lia.
Qed.

(** What the conditional swap does to a list holding [x] at [index]. *)
Lemma moved_list_cases {A} up index (l : list A) x :
  l !! index = Some x →
  (moved_list up index l = l
   ∧ ((up = true ∧ index = 0%nat) ∨ (up = false ∧ S index = length l)))
  ∨ (∃ l1 a b l2, l = l1 ++ a :: b :: l2 ∧ moved_list up index l = l1 ++ b :: a :: l2
       ∧ ((up = true ∧ index = S (length l1) ∧ x = b)
          ∨ (up = false ∧ index = length l1 ∧ x = a))).
Proof.
  intros Hx. pose proof (lookup_lt_Some _ _ _ Hx) as Hlt. unfold moved_list.
  destruct up; simpl.
  - rewrite andb_true_r. case_bool_decide as H0.
    + right. destruct index as [|i]; [done|].
      destruct (lookup_lt_is_Some_2 l i) as [a Ha]; [lia|].
      destruct (split_adjacent l i a x Ha Hx) as (l1 & l2 & -> & <-).
      exists l1, a, x, l2. split; [done|]. split; [|by left].
      replace (S (length l1) - 1)%nat with (length l1) by lia. apply swap_up.
    + left. rewrite andb_false_r. split; [done|]. left. split; [done|]. lia.
  - rewrite andb_false_r, andb_true_r. case_bool_decide as H1.
    + right. destruct (lookup_lt_is_Some_2 l (S index)) as [b Hb]; [lia|].
      destruct (split_adjacent l index x b Hx Hb) as (l1 & l2 & -> & <-).
      exists l1, x, b, l2. split; [done|]. split; [|by right].
      replace (length l1 + 1)%nat with (S (length l1)) by lia. apply swap_down.
    + left. split; [done|]. right. split; [done|]. lia.
Qed.

Lemma moved_list_Permutation {A} up index (l : list A) x :
  l !! index = Some x → moved_list up index l ≡ₚ l.
Proof.
  intros Hx. destruct (moved_list_cases up index l x Hx)
    as [[-> _]|(l1 & a & b & l2 & -> & -> & _)]; [done|].
  apply Permutation_app_head, Permutation_swap.
Qed.

Lemma filter_fmap {A B} (f : A → B) (P : B → Prop) `{∀ y, Decision (P y)} (l : list A) :
  filter P (f <$> l) = f <$> filter (λ x, P (f x)) l.
Proof.
  induction l as [|x l IH]; [done|]. rewrite fmap_cons, !filter_cons.
  destruct (decide (P (f x))); [|done]. by rewrite fmap_cons, IH.
Qed.

Lemma filter_ext_in {A} (P Q : A → Prop) `{∀ x, Decision (P x)} `{∀ x, Decision (Q x)}
    (l : list A) :
  (∀ x, x ∈ l → P x ↔ Q x) → filter P l = filter Q l.
Proof.
  induction l as [|x l IH]; intros HPQ; [done|]. rewrite !filter_cons.
  rewrite IH by (intros y Hy; apply HPQ; by right).
  destruct (decide (P x)) as [Hp|Hp], (decide (Q x)) as [Hq|Hq]; try done.
  - destruct Hq. by apply (HPQ x); [left|].
  - destruct Hp. by apply (HPQ x); [left|].
Qed.

Lemma NoDup_fmap_filter {A B} (f : A → B) (P : A → Prop) `{∀ x, Decision (P x)}
    (l : list A) :
  NoDup (f <$> l) → NoDup (f <$> filter P l).
Proof.
  induction l as [|x l IH]; [done|]. rewrite fmap_cons, NoDup_cons. intros [Hx Hl].
  rewrite filter_cons. case_decide; [|by apply IH].
  rewrite fmap_cons. apply NoDup_cons. split; [|by apply IH].
  intros Hin. apply Hx. apply list_elem_of_fmap in Hin as [y [-> Hy]].
  apply list_elem_of_filter in Hy as [_ Hy]. by apply list_elem_of_fmap_2.
Qed.

(** ** The renumbering loop of the move helpers *)

Section Renumber.
Context {A : Type} `{ModelLaws A}.
Variable action : string.
Variable u : N.

Local Abbreviation mwalk := (walk (A:=A) strict_plan move_changed).
Local Abbreviation mmoved := (moved (A:=A) move_changed).

Lemma enumerate_keys (l : list A) : pk ∘ snd <$> enumerate l = pk <$> l.
Proof. by rewrite list_fmap_compose, enumerate_enum_from, enum_from_snd. Qed.

Lemma renumbered (l : list A) r j :
  NoDup (pk <$> l) → l !! j = Some r →
  mwalk (enumerate l) r = set_position (Z.of_nat j) r.
Proof.
  intros Hnd Hj.
  rewrite (walk_hit strict_plan move_changed (λ x i, pk_set_position _ x)
             (enumerate l) r j r); [|by rewrite enumerate_keys| |done].
  - unfold strict_plan, move_changed. case_bool_decide as Hc; [done|].
    by rewrite <- Hc, set_position_same.
  - rewrite enumerate_enum_from. apply enum_from_elem. by exists j.
Qed.

Lemma not_renumbered (l : list A) r :
  pk r ∉ (pk <$> l) → mwalk (enumerate l) r = r.
Proof.
  intros Hout. apply (walk_other strict_plan move_changed (λ x i, pk_set_position _ x)).
  by rewrite enumerate_keys.
Qed.

(** A row is either renumbered to its index in the list or left alone. *)
Lemma mwalk_cases (l rows : list A) r :
  NoDup (pk <$> rows) → l ⊆ rows → NoDup (pk <$> l) → r ∈ rows →
  (∃ j, l !! j = Some r ∧ mwalk (enumerate l) r = set_position (Z.of_nat j) r)
  ∨ ((r ∉ l) ∧ mwalk (enumerate l) r = r).
Proof.
  intros Hrows Hsub Hl Hr. destruct (decide (pk r ∈ (pk <$> l))) as [Hin|Hout].
  - left. apply list_elem_of_fmap in Hin as [x [Ex Hx]].
    assert (x = r) as ->. { apply (NoDup_fmap_eq pk rows); auto. }
    apply list_elem_of_lookup in Hx as [j Hj]. exists j. split; [done|].
    by apply renumbered.
  - right. split; [|by apply not_renumbered].
    intros Hin. apply Hout. by apply list_elem_of_fmap_2.
Qed.

(** After the loop the rows of the list hold their indices. *)
Lemma renumbered_positions (l : list A) :
  NoDup (pk <$> l) →
  position <$> (mwalk (enumerate l) <$> l) = Z.of_nat <$> seq 0 (length l).
Proof.
  intros Hnd. apply list_eq. intros j. rewrite !list_lookup_fmap.
  destruct (l !! j) as [r|] eqn:Hj; simpl.
  - rewrite (renumbered l r j Hnd Hj), position_set_position.
    rewrite lookup_seq_lt by (by eapply lookup_lt_Some). done.
  - rewrite lookup_seq_ge; [done|]. by apply lookup_ge_None.
Qed.

Lemma renumbered_scope (P : A → Prop) `{∀ x, Decision (P x)} (l rows : list A) :
  NoDup (pk <$> rows) → l ≡ₚ filter P rows →
  (∀ z r, P (set_position z r) ↔ P r) →
  filter P (mwalk (enumerate l) <$> rows) = mwalk (enumerate l) <$> filter P rows
  ∧ position <$> sort_by position (filter P (mwalk (enumerate l) <$> rows))
    = Z.of_nat <$> seq 0 (length l).
Proof.
  intros Hrows Hl HP.
  assert (l ⊆ rows) as Hsub.
  { intros x Hx. rewrite Hl in Hx. by apply list_elem_of_filter in Hx as [_ Hx]. }
  assert (NoDup (pk <$> l)) as Hnd.
  { rewrite Hl. by apply NoDup_fmap_filter. }
  assert (filter P (mwalk (enumerate l) <$> rows)
          = mwalk (enumerate l) <$> filter P rows) as E.
  { rewrite filter_fmap. f_equal. apply filter_ext_in. intros r Hr.
    destruct (mwalk_cases l rows r Hrows Hsub Hnd Hr) as [[j [_ ->]]|[_ ->]]; [|done].
    apply HP. }
  split; [done|]. rewrite E. rewrite sorted_contiguous.
  - by rewrite length_fmap, <- Hl.
  - unfold contiguous. rewrite !length_fmap, <- Hl.
    by rewrite (renumbered_positions l Hnd).
Qed.
End Renumber.

Section Aligned.
Context {A : Type} `{ModelLaws A}.
Variable action : string.
Variable u : N.

Local Abbreviation mwalk := (walk (A:=A) strict_plan move_changed).
Local Abbreviation mmoved := (moved (A:=A) move_changed).
Local Abbreviation mcommit :=
  (commit (A:=A) strict_plan move_changed (position_entry action u) None).

(** No row is touched exactly when every row already holds its index. *)
Lemma moved_aligned n (l : list A) :
  mmoved (enum_from n l) = [] ↔ position <$> l = Z.of_nat <$> seq n (length l).
Proof.
  revert n. induction l as [|x l IH]; intros n; [done|].
  cbn [enum_from length seq]. rewrite !fmap_cons. unfold moved. rewrite filter_cons.
  fold (mmoved (enum_from (S n) l)). case_decide as Hx; unfold move_changed in Hx;
    simpl in Hx.
  - split; [done|]. intros [= E _]. done.
  - apply dec_stable in Hx. rewrite IH. split.
    + intros ->. by rewrite Hx.
    + by intros [= _ E].
Qed.

Lemma aligned_commit (l : list A) s :
  position <$> l = Z.of_nat <$> seq 0 (length l) → mcommit (enumerate l) s = s.
Proof.
  intros Hal. rewrite commit_moved, enumerate_enum_from.
  by rewrite (proj2 (moved_aligned 0 l) Hal).
Qed.

Lemma quiet_aligned (l : list A) s :
  logentries (mcommit (enumerate l) s) = logentries s →
  position <$> l = Z.of_nat <$> seq 0 (length l).
Proof.
  rewrite logentries_commit, enumerate_enum_from. intros E.
  apply moved_aligned. rewrite <- (app_nil_r (logentries s)) in E at 2.
  apply app_inv_head in E. by apply fmap_nil_inv in E.
Qed.

(** After swapping two neighbours of an aligned list, the loop touches
    exactly the two of them. *)
Lemma swapped_moved (l1 : list A) a b l2 :
  position <$> (l1 ++ a :: b :: l2) = Z.of_nat <$> seq 0 (length (l1 ++ a :: b :: l2)) →
  mmoved (enumerate (l1 ++ b :: a :: l2)) = [(length l1, b); (S (length l1), a)].
Proof.
  rewrite fmap_app, length_app, seq_app, fmap_app. intros E.
  apply app_inj_1 in E as [E1 E2]; [|by rewrite !length_fmap, length_seq].
  simpl in E2. injection E2 as Ea Eb E2.
  rewrite enumerate_enum_from, enum_from_app. unfold moved.
  rewrite filter_app. fold (mmoved (enum_from 0 l1)).
  rewrite (proj2 (moved_aligned 0 l1) E1). simpl.
  rewrite !filter_cons. simpl.
  rewrite decide_True by (unfold move_changed; lia).
  rewrite decide_True by (unfold move_changed; lia).
  fold (mmoved (enum_from (S (S (length l1))) l2)).
  by rewrite (proj2 (moved_aligned _ l2) E2).
Qed.

(** The keys of the rows whose position the swap changes. *)
Lemma swapped_rows (rows : list A) i a b :
  NoDup (pk <$> rows) → a ∈ rows → b ∈ rows → pk a ≠ pk b →
  position a = Z.of_nat i → position b = Z.of_nat (S i) →
  pk <$> filter (λ r, position (mwalk [(i, b); (S i, a)] r) ≠ position r) rows
  ≡ₚ [pk b; pk a].
Proof.
  intros Hrows Ha Hb Hab Epa Epb.
  pose proof (λ (x : A) (j : nat), pk_set_position (Z.of_nat j) x) as Hpk.
  apply NoDup_Permutation.
  - by apply NoDup_fmap_filter.
  - apply NoDup_cons. split; [|apply NoDup_singleton]. rewrite list_elem_of_singleton.
    congruence.
  - intros key. rewrite list_elem_of_fmap. split.
    + intros [r [-> Hr]]. apply list_elem_of_filter in Hr as [Hch Hr].
      destruct (decide (pk r = pk b)) as [E|Hnb]; [rewrite E; by left|].
      destruct (decide (pk r = pk a)) as [E|Hna]; [rewrite E; right; by left|].
      destruct Hch. simpl.
      rewrite (walk1_miss strict_plan move_changed Hpk r (i, b)) by (simpl; congruence).
      by rewrite (walk1_miss strict_plan move_changed Hpk r (S i, a))
        by (simpl; congruence).
    + intros Hkey. apply elem_of_cons in Hkey as [->|Hkey];
        [|apply list_elem_of_singleton in Hkey as ->].
      * exists b. split; [done|]. apply list_elem_of_filter. split; [|done]. simpl.
        rewrite (walk1_hit strict_plan move_changed Hpk b (i, b)) by done. simpl.
        rewrite bool_decide_true by (unfold move_changed; lia).
        rewrite (walk1_miss strict_plan move_changed Hpk _ (S i, a)).
        -- unfold strict_plan. rewrite position_set_position. lia.
        -- unfold strict_plan. simpl. rewrite pk_set_position. done.
      * exists a. split; [done|]. apply list_elem_of_filter. split; [|done]. simpl.
        rewrite (walk1_miss strict_plan move_changed Hpk a (i, b)) by (simpl; congruence).
        rewrite (walk1_hit strict_plan move_changed Hpk a (S i, a)) by done. simpl.
        rewrite bool_decide_true by (unfold move_changed; lia).
        unfold strict_plan. rewrite position_set_position. lia.
Qed.
End Aligned.

Lemma StronglySorted_by_key {A} (key : A → Z) (l : list A) :
  StronglySorted Z.le (key <$> l) → StronglySorted (λ a b, key a ≤ key b) l.
Proof.
  induction l as [|x l IH]; intros Hs; [constructor|]. rewrite fmap_cons in Hs.
  apply StronglySorted_inv in Hs as [Hl Hx]. constructor; [by apply IH|].
  apply Forall_forall. intros b Hb. rewrite Forall_forall in Hx.
  apply Hx. by apply list_elem_of_fmap_2.
Qed.

Lemma moved_list_fmap {A B} (f : A → B) up index (l : list A) :
  moved_list up index (f <$> l) = f <$> moved_list up index l.
Proof.
  unfold moved_list, swap. rewrite length_fmap, !list_lookup_fmap.
  repeat match goal with
         | |- context [bool_decide ?P && ?b] => destruct (bool_decide P && b)
         | |- context [l !! ?i] => destruct (l !! i)
         end; simpl; rewrite ?list_fmap_insert; done.
Qed.

Section Order.
Context {A : Type} `{ModelLaws A}.

Local Abbreviation mwalk := (walk (A:=A) strict_plan move_changed).

(** Sorted by position, the renumbered scope is the list the loop ran
    over. *)
Lemma renumbered_order (P : A → Prop) `{∀ x, Decision (P x)} (l rows : list A) :
  NoDup (pk <$> rows) → l ≡ₚ filter P rows →
  (∀ z r, P (set_position z r) ↔ P r) →
  sort_by position (filter P (mwalk (enumerate l) <$> rows)) = mwalk (enumerate l) <$> l.
Proof.
  intros Hrows Hl HP.
  destruct (renumbered_scope P l rows Hrows Hl HP) as [E _]. rewrite E.
  assert (NoDup (pk <$> l)) as Hnd.
  { rewrite Hl. by apply NoDup_fmap_filter. }
  pose proof (renumbered_positions l Hnd) as Hpos.
  set (f := mwalk (enumerate l)) in *.
  assert (f <$> filter P rows ≡ₚ f <$> l) as Hperm.
  { apply fmap_Permutation. by symmetry. }
  apply (StronglySorted_unique_strong (λ a b, position a ≤ position b)).
  - intros x1 x2 Hx1 Hx2 H12 H21. rewrite sort_by_Permutation, Hperm in Hx1.
    apply (NoDup_fmap_eq position (f <$> l)); [|done|done|lia].
    rewrite Hpos. apply NoDup_fmap_2; [intros x y; lia|]. apply NoDup_ListNoDup, seq_NoDup.
  - apply sort_by_sorted.
  - apply StronglySorted_by_key. rewrite Hpos. apply seq_sorted.
  - by rewrite sort_by_Permutation.
Qed.

Lemma row_view_renumbered (l : list A) :
  NoDup (pk <$> l) →
  row_view (mwalk (enumerate l) <$> l) = imap (λ j key, (key, Z.of_nat j)) (pk <$> l).
Proof.
  intros Hnd. apply list_eq. intros j. unfold row_view.
  rewrite list_lookup_imap, !list_lookup_fmap.
  destruct (l !! j) as [r|] eqn:Hj; simpl; [|done].
  by rewrite (renumbered l r j Hnd Hj), pk_set_position, position_set_position.
Qed.

Lemma index_of_lookup (x : A) (l : list A) i :
  NoDup (pk <$> l) → index_of x l = Some i → (pk <$> l) !! i = Some (pk x).
Proof.
  unfold index_of. intros Hnd Hi.
  destruct (list_find _ l) as [[j y]|] eqn:Ef; [|done]. injection Hi as <-.
  apply list_find_Some in Ef as (Hj & Ey & _). by rewrite list_lookup_fmap, Hj, <- Ey.
Qed.
End Order.

(** ** Views of a table shared by the move theorems *)

Section Views.
Context {A : Type} `{ModelLaws A}.

Lemma stored_position_row (rows : list A) r :
  NoDup (pk <$> rows) → r ∈ rows →
  stored_position (pk r) (row_view rows) = Some (position r).
Proof.
  intros Hnd Hr. unfold stored_position.
  destruct (list_find_elem_of (λ p : N * Z, p.1 = pk r) (row_view rows)
              (pk r, position r)) as [[j p] Hf];
    [by apply (list_elem_of_fmap_2 (λ r0 : A, (pk r0, position r0)))|done|].
  rewrite Hf. simpl. apply list_find_Some in Hf as (Hj & Hp & _).
  apply list_elem_of_lookup_2, list_elem_of_fmap in Hj as [r' [-> Hr']].
  simpl in *. by rewrite (NoDup_fmap_eq pk rows r' r Hnd Hr' Hr Hp).
Qed.

Lemma repositioned_fmap (f : A → A) (rows : list A) :
  NoDup (pk <$> rows) → (∀ r, pk (f r) = pk r) →
  repositioned (row_view rows) (row_view (f <$> rows))
  = pk <$> filter (λ r, position (f r) ≠ position r) rows.
Proof.
  intros Hnd Hpk. unfold repositioned. rewrite row_view_keys, filter_fmap. f_equal.
  apply filter_ext_in. intros r Hr.
  rewrite (stored_position_row rows r Hnd Hr).
  replace (pk r) with (pk (f r)) by apply Hpk.
  rewrite (stored_position_row (f <$> rows) (f r)).
  - split; congruence.
  - rewrite <- list_fmap_compose. erewrite list_fmap_ext; [exact Hnd|].
    intros i x _. apply Hpk.
  - by apply list_elem_of_fmap_2.
Qed.
End Views.

Lemma boundary_no_swap {A} up index (l : list A) :
  (up = true ∧ index = 0%nat) ∨ (up = false ∧ S index = length l) →
  moved_list up index l = l.
Proof.
  unfold moved_list. intros [[-> ->]|[-> Hlast]].
  - rewrite bool_decide_false; [|by intros Hne; apply Hne]. simpl.
    by rewrite andb_false_r.
  - simpl. rewrite andb_false_r, andb_true_r. rewrite bool_decide_false; [done|]. lia.
Qed.

Section MoveEffect.
Context {A : Type} `{ModelLaws A}.
Variable action : string.
Variable u : N.
Variable P : A → Prop.
Context `{∀ x, Decision (P x)}.
Hypothesis P_set_position : ∀ z r, P (set_position z r) ↔ P r.

Local Abbreviation mwalk := (walk (A:=A) strict_plan move_changed).
Local Abbreviation mcommit :=
  (commit (A:=A) strict_plan move_changed (position_entry action u) None).

Variable s : State.
Variable up : bool.
Variable index : nat.
Variable y : A.
Hypothesis keys_unique : NoDup (pk <$> objects (A:=A) s).
Hypothesis at_index : sort_by position (filter P (objects s)) !! index = Some y.

Local Abbreviation scope := (sort_by position (filter P (objects (A:=A) s))).
Local Abbreviation after := (mcommit (enumerate (moved_list up index scope)) s).

Lemma scope_keys_unique : NoDup (pk <$> scope).
Proof. rewrite sort_by_Permutation. by apply NoDup_fmap_filter. Qed.

Lemma scope_rows r : r ∈ scope → r ∈ objects (A:=A) s.
Proof.
  rewrite sort_by_Permutation. intros Hr. by apply list_elem_of_filter in Hr as [_ Hr].
Qed.

(** The scope read back after the move. *)
Lemma move_scope_after :
  row_view (sort_by position (filter P (objects after)))
  = imap (λ j key, (key, Z.of_nat j)) (moved_list up index (pk <$> scope)).
Proof.
  rewrite objects_commit.
  rewrite (renumbered_order P (moved_list up index scope) (objects s) keys_unique).
  - rewrite row_view_renumbered, moved_list_fmap; [done|].
    rewrite (moved_list_Permutation up index scope y at_index).
    apply scope_keys_unique.
  - rewrite (moved_list_Permutation up index scope y at_index).
    apply sort_by_Permutation.
  - exact P_set_position.
Qed.

(** Without a swap, nothing is written exactly when the scope was
    already numbered by index. *)
Lemma move_quiet :
  moved_list up index scope = scope →
  (row_view (objects after) = row_view (objects (A:=A) s)
   ∧ logentries after = logentries s ∧ writes after = writes s)
  ↔ position <$> scope = Z.of_nat <$> seq 0 (length scope).
Proof.
  intros ->. split.
  - intros (_ & Hlog & _). by eapply quiet_aligned.
  - intros Hal. by rewrite (aligned_commit action u scope s Hal).
Qed.

(** With a swap of two neighbours of an aligned scope, exactly the two
    are written, logged and repositioned. *)
Lemma move_swapped l1 a b l2 :
  position <$> scope = Z.of_nat <$> seq 0 (length scope) →
  scope = l1 ++ a :: b :: l2 →
  moved_list up index scope = l1 ++ b :: a :: l2 →
  saved (writes after) = saved (writes s) ++ [target b; target a]
  ∧ logged (logentries after) = logged (logentries s) ++ [target b; target a]
  ∧ repositioned (row_view (objects (A:=A) s)) (row_view (objects after))
    ≡ₚ [pk b; pk a].
Proof.
  intros Hal Es ->.
  pose proof scope_keys_unique as Hnd. pose proof scope_rows as Hsub.
  rewrite Es in Hal, Hnd, Hsub.
  pose proof (swapped_moved l1 a b l2 Hal) as Hm.
  assert (position a = Z.of_nat (length l1) ∧ position b = Z.of_nat (S (length l1)))
    as [Epa Epb].
  { rewrite fmap_app, length_app, seq_app, fmap_app in Hal.
    apply app_inj_1 in Hal as [_ E]; [|by rewrite !length_fmap, length_seq].
    simpl in E. by injection E as -> -> _. }
  assert (pk a ≠ pk b) as Hab.
  { rewrite fmap_app, !fmap_cons in Hnd. apply NoDup_app in Hnd as (_ & _ & Hnd).
    apply NoDup_cons in Hnd as [Ha _]. intros E. apply Ha. rewrite E. by left. }
  split; [|split].
  - rewrite (saved_commit strict_plan move_changed _ _
               (λ x i, target_set_position _ x)), Hm. done.
  - rewrite (logged_commit strict_plan move_changed (position_entry action u) None
               (λ x i, target_set_position _ x) (λ x i, eq_refl) target_not_event), Hm.
    done.
  - rewrite objects_commit, repositioned_fmap;
      [|done|intros r; apply (pk_walk strict_plan move_changed)].
    rewrite <- (swapped_rows (objects s) (length l1) a b keys_unique); try done.
    + apply fmap_Permutation.
      replace (filter (λ r, position (mwalk (enumerate (l1 ++ b :: a :: l2)) r)
                            ≠ position r) (objects s))
        with (filter (λ r, position (mwalk [(length l1, b); (S (length l1), a)] r)
                           ≠ position r) (objects s)); [done|].
      apply filter_ext_in. intros r _.
      by rewrite (walk_moved strict_plan move_changed (enumerate _)), Hm.
    + apply Hsub. rewrite elem_of_app. right. by left.
    + apply Hsub. rewrite elem_of_app. right. right. by left.
Qed.

(** The three cases of a move in an aligned scope. *)
Lemma move_adjacent :
  position <$> scope = Z.of_nat <$> seq 0 (length scope) →
  ((up = true ∧ index = 0%nat) ∨ (up = false ∧ S index = length scope) → after = s)
  ∧ (up = true → index ≠ 0%nat →
     ∃ nb, scope !! (index - 1)%nat = Some nb
       ∧ repositioned (row_view (objects (A:=A) s)) (row_view (objects after))
         ≡ₚ [pk y; pk nb]
       ∧ saved (writes after) = saved (writes s) ++ [target y; target nb]
       ∧ logged (logentries after) = logged (logentries s) ++ [target y; target nb])
  ∧ (up = false → S index ≠ length scope →
     ∃ nb, scope !! S index = Some nb
       ∧ repositioned (row_view (objects (A:=A) s)) (row_view (objects after))
         ≡ₚ [pk nb; pk y]
       ∧ saved (writes after) = saved (writes s) ++ [target nb; target y]
       ∧ logged (logentries after) = logged (logentries s) ++ [target nb; target y]).
Proof.
  intros Hal. split; [|split].
  - intros Hb. rewrite (boundary_no_swap up index scope Hb). by apply aligned_commit.
  - intros Hup Hne.
    destruct (moved_list_cases up index scope y at_index)
      as [[_ [[_ Hi]|[Hf _]]]|(l1 & a & b & l2 & Es & Em & [(_ & Hi & Hy)|(Hf & _)])];
      [done|congruence| |congruence].
    subst b. exists a. split.
    + rewrite Es, Hi. replace (S (length l1) - 1)%nat with (length l1) by lia.
      by apply list_lookup_middle.
    + destruct (move_swapped l1 a y l2 Hal Es Em) as (Hw & Hl & Hr). done.
  - intros Hup Hne.
    destruct (moved_list_cases up index scope y at_index)
      as [[_ [[Hf _]|[_ Hlast]]]|(l1 & a & b & l2 & Es & Em & [(Hf & _)|(_ & Hi & Hy)])];
      [congruence|done|congruence|].
    subst a. exists b. split.
    + rewrite Es, Hi. rewrite lookup_app_r by lia.
      by replace (S (length l1) - length l1)%nat with 1%nat by lia.
    + destruct (move_swapped l1 y b l2 Hal Es Em) as (Hw & Hl & Hr). done.
Qed.
End MoveEffect.

(** ** The two move helpers, side by side *)

Lemma filter_True {A} (l : list A) : filter (λ _, True) l = l.
Proof. induction l as [|x l IH]; [done|]. by rewrite filter_cons, decide_True, IH. Qed.

Lemma length_row_view {A} `{Model A} (rows : list A) : length (row_view rows) = length rows.
Proof. apply length_fmap. Qed.

(** What a successful move did, in terms of the loop. *)
Lemma item_move_ok request id up s s' index :
  NoDup (pk <$> items s) →
  (scope_view MoveItem id s).*1 !! index = Some id →
  item_move request id up s = (Ok tt, s') →
  ∃ it, scope_view MoveItem id s = row_view (item_scope it s)
    ∧ pk it = id
    ∧ item_scope it s !! index = Some it
    ∧ s' = add_flash "The order of items has been updated."
             (item_move_commit (user request)
                (enumerate (moved_list up index (item_scope it s))) s).
Proof.
  intros Hnd. rewrite item_move_run. unfold scope_view.
  destruct (list_find (λ r : Item, pk r = id) (items s)) as [[j it]|] eqn:Ef; [|done].
  apply list_find_Some in Ef as (Hj & Hid & _). rewrite row_view_keys. intros Hidx.
  destruct (index_of it (item_scope it s)) as [i|] eqn:Ei; [|done]. intros [= <-].
  assert (NoDup (pk <$> item_scope it s)) as Hscope.
  { unfold item_scope. rewrite sort_by_Permutation. by apply NoDup_fmap_filter. }
  apply index_of_lookup in Ei; [|done]. rewrite Hid in Ei.
  assert (i = index) as -> by (eapply NoDup_lookup; eauto).
  exists it. split; [done|]. split; [done|]. split; [|done].
  rewrite list_lookup_fmap in Hidx.
  destruct (item_scope it s !! index) as [y|] eqn:Hy; [|done]. injection Hidx as Hpk.
  f_equal. apply (NoDup_fmap_eq pk (items s));
    [done| |by eapply list_elem_of_lookup_2|rewrite Hid; exact Hpk].
  apply list_elem_of_lookup_2 in Hy. unfold item_scope in Hy.
  rewrite sort_by_Permutation in Hy. by apply list_elem_of_filter in Hy as [_ Hy].
Qed.

Lemma category_move_ok request id up s s' index :
  NoDup (pk <$> categories s) →
  (scope_view MoveCategory id s).*1 !! index = Some id →
  category_move request id up s = (Ok tt, s') →
  ∃ cat, pk cat = id
    ∧ category_scope s !! index = Some cat
    ∧ s' = add_flash "The order of categories has been updated."
             (category_move_commit (user request)
                (enumerate (moved_list up index (category_scope s))) s).
Proof.
  intros Hnd. rewrite category_move_run. unfold scope_view.
  destruct (list_find (λ r : ItemCategory, pk r = id) (categories s)) as [[j cat]|] eqn:Ef;
    [|done].
  apply list_find_Some in Ef as (Hj & Hid & _). rewrite row_view_keys. intros Hidx.
  destruct (index_of cat (category_scope s)) as [i|] eqn:Ei; [|done]. intros [= <-].
  assert (NoDup (pk <$> category_scope s)) as Hscope.
  { unfold category_scope. by rewrite sort_by_Permutation. }
  apply index_of_lookup in Ei; [|done]. rewrite Hid in Ei.
  assert (i = index) as -> by (eapply NoDup_lookup; eauto).
  exists cat. split; [done|]. split; [|done].
  rewrite list_lookup_fmap in Hidx.
  destruct (category_scope s !! index) as [y|] eqn:Hy; [|done]. injection Hidx as Hpk.
  f_equal. apply (NoDup_fmap_eq pk (categories s));
    [done| |by eapply list_elem_of_lookup_2|rewrite Hid; exact Hpk].
  apply list_elem_of_lookup_2 in Hy. unfold category_scope in Hy.
  by rewrite sort_by_Permutation in Hy.
Qed.

Lemma item_walk_category (l : list Item) (rows : list Item) r :
  NoDup (pk <$> rows) → l ⊆ rows → NoDup (pk <$> l) → r ∈ rows →
  item_category (walk strict_plan move_changed (enumerate l) r) = item_category r.
Proof.
  intros Hrows Hsub Hl Hr.
  by destruct (mwalk_cases l rows r Hrows Hsub Hl Hr) as [[j [_ ->]]|[_ ->]].
Qed.

(** The scope of the moved item, read back from the state after the move. *)
Lemma item_scope_after u id up index s it msg :
  NoDup (pk <$> items s) → pk it = id → item_scope it s !! index = Some it →
  let after := item_move_commit u (enumerate (moved_list up index (item_scope it s))) s in
  scope_view MoveItem id (add_flash msg after)
  = row_view (sort_by position
                (filter (λ i, item_category i = item_category it) (objects after))).
Proof.
  intros Hnd Hid Hidx after. unfold scope_view.
  change (items (add_flash msg after)) with (objects (A:=Item) after).
  unfold after, item_move_commit. rewrite objects_commit.
  set (f := walk strict_plan move_changed
              (enumerate (moved_list up index (item_scope it s)))).
  assert (it ∈ items s) as Hit.
  { apply list_elem_of_lookup_2 in Hidx. unfold item_scope in Hidx.
    rewrite sort_by_Permutation in Hidx. by apply list_elem_of_filter in Hidx as [_ ?]. }
  assert (item_category (f it) = item_category it) as Hcat.
  { apply (item_walk_category _ (items s)); [done| | |done].
    - intros x Hx. rewrite (moved_list_Permutation up index _ it Hidx) in Hx.
      unfold item_scope in Hx. rewrite sort_by_Permutation in Hx.
      by apply list_elem_of_filter in Hx as [_ ?].
    - rewrite (moved_list_Permutation up index _ it Hidx). unfold item_scope.
      rewrite sort_by_Permutation. by apply NoDup_fmap_filter. }
  rewrite list_find_fmap.
  rewrite (list_find_ext _ (λ r : Item, pk r = id)).
  2:{ intros x. unfold compose, f.
      by rewrite (pk_walk (A:=Item) strict_plan move_changed). }
  destruct (list_find_elem_of (λ r : Item, pk r = id) (items s) it Hit Hid) as [[j x] Hf].
  cbn [objects Item_Model]. rewrite Hf. simpl.
  assert (x = it) as ->.
  { apply list_find_Some in Hf as (Hj & Hx & _).
    apply (NoDup_fmap_eq pk (items s)); [done|by eapply list_elem_of_lookup_2|done|].
    by rewrite Hid. }
  unfold item_scope.
  change (items (add_flash msg ?s1)) with (objects (A:=Item) s1).
  rewrite objects_commit. fold f. cbn [objects Item_Model].
  do 2 f_equal. apply list_filter_iff. intros i. by rewrite Hcat.
Qed.

Lemma same_category_set_position it z r :
  same_category it (set_position z r) ↔ same_category it r.
Proof. done. Qed.

Lemma item_move_renumbers request id up s s' index :
  NoDup (pk <$> items s) →
  (scope_view MoveItem id s).*1 !! index = Some id →
  item_move request id up s = (Ok tt, s') →
  scope_view MoveItem id s'
  = imap (λ j key, (key, Z.of_nat j)) (moved_list up index (scope_view MoveItem id s).*1)
  ∧ ((up = true ∧ index = 0%nat)
     ∨ (up = false ∧ S index = length (scope_view MoveItem id s)) →
     (table_view MoveItem s' = table_view MoveItem s
      ∧ logentries s' = logentries s ∧ writes s' = writes s)
     ↔ (scope_view MoveItem id s).*2
       = Z.of_nat <$> seq 0 (length (scope_view MoveItem id s))).
Proof.
  intros Hnd Hi Hrun.
  destruct (item_move_ok request id up s s' index Hnd Hi Hrun) as (it & Esv & Hid & Hidx & ->).
  rewrite Esv, row_view_keys, row_view_positions, length_row_view. split.
  - rewrite (item_scope_after _ _ _ _ _ it) by done.
    apply (move_scope_after "pretix.event.item.reordered" (user request)
             (same_category it) (same_category_set_position it) s up index it Hnd Hidx).
  - intros Hb.
    exact (move_quiet "pretix.event.item.reordered" (user request)
             (same_category it) s up index (boundary_no_swap up index _ Hb)).
Qed.

Lemma category_move_renumbers request id up s s' index :
  NoDup (pk <$> categories s) →
  (scope_view MoveCategory id s).*1 !! index = Some id →
  category_move request id up s = (Ok tt, s') →
  scope_view MoveCategory id s'
  = imap (λ j key, (key, Z.of_nat j)) (moved_list up index (scope_view MoveCategory id s).*1)
  ∧ ((up = true ∧ index = 0%nat)
     ∨ (up = false ∧ S index = length (scope_view MoveCategory id s)) →
     (table_view MoveCategory s' = table_view MoveCategory s
      ∧ logentries s' = logentries s ∧ writes s' = writes s)
     ↔ (scope_view MoveCategory id s).*2
       = Z.of_nat <$> seq 0 (length (scope_view MoveCategory id s))).
Proof.
  intros Hnd Hi Hrun.
  destruct (category_move_ok request id up s s' index Hnd Hi Hrun) as (cat & Hid & Hidx & ->).
  unfold scope_view. rewrite row_view_keys, row_view_positions, length_row_view.
  assert (category_scope s
          = sort_by position (filter (λ _, True) (objects (A:=ItemCategory) s))) as Es.
  { by rewrite filter_True. }
  rewrite Es in Hidx. split.
  - pose proof (move_scope_after "pretix.event.category.reordered" (user request)
                  (λ _, True) (λ z r, reflexivity _) s up index cat Hnd Hidx) as Hafter.
    rewrite !filter_True in Hafter. exact Hafter.
  - intros Hb.
    pose proof (move_quiet (A:=ItemCategory) "pretix.event.category.reordered"
                  (user request) (λ _, True) s up index) as Hq.
    rewrite !filter_True in Hq. exact (Hq (boundary_no_swap up index _ Hb)).
Qed.

Lemma index_of_elem {A} `{Model A} (x : A) (l : list A) :
  x ∈ l → is_Some (index_of x l).
Proof.
  intros Hx. unfold index_of.
  destruct (list_find_elem_of (λ r, pk r = pk x) l x Hx eq_refl) as [[i y] ->]. by eexists.
Qed.

(** A move of an existing entity always goes through. *)
Lemma move_total (k : MoveKind) request id up s :
  NoDup (table_view k s).*1 → id ∈ (table_view k s).*1 →
  ∃ s' index, move k request id up s = (Ok tt, s')
              ∧ (scope_view k id s).*1 !! index = Some id.
Proof.
  destruct k; cbn [table_view move scope_view]; rewrite row_view_keys; intros Hnd Hid.
  - apply list_elem_of_fmap in Hid as [it [-> Hit]].
    destruct (list_find_elem_of (λ r : Item, pk r = pk it) (items s) it Hit eq_refl)
      as [[j x] Hf].
    assert (x = it) as ->.
    { apply list_find_Some in Hf as (Hj & Hx & _).
      apply (NoDup_fmap_eq pk (items s)); [done|by eapply list_elem_of_lookup_2|done|done]. }
    assert (it ∈ item_scope it s) as Hscope.
    { unfold item_scope. rewrite sort_by_Permutation. by apply list_elem_of_filter. }
    destruct (index_of_elem it _ Hscope) as [index Hi].
    rewrite item_move_run, Hf, Hi. eexists _, index. split; [done|].
    rewrite row_view_keys. apply index_of_lookup; [|done].
    unfold item_scope. rewrite sort_by_Permutation. by apply NoDup_fmap_filter.
  - apply list_elem_of_fmap in Hid as [cat [-> Hcat]].
    destruct (list_find_elem_of (λ r : ItemCategory, pk r = pk cat) (categories s) cat
                Hcat eq_refl) as [[j x] Hf].
    assert (x = cat) as ->.
    { apply list_find_Some in Hf as (Hj & Hx & _).
      apply (NoDup_fmap_eq pk (categories s));
        [done|by eapply list_elem_of_lookup_2|done|done]. }
    assert (cat ∈ category_scope s) as Hscope.
    { unfold category_scope. by rewrite sort_by_Permutation. }
    destruct (index_of_elem cat _ Hscope) as [index Hi].
    rewrite category_move_run, Hf, Hi. eexists _, index. split; [done|].
    rewrite row_view_keys. apply index_of_lookup; [|done].
    unfold category_scope. by rewrite sort_by_Permutation.
Qed.

Lemma move_renumbers_at (k : MoveKind) request id up s s' index :
  NoDup (table_view k s).*1 →
  (scope_view k id s).*1 !! index = Some id →
  move k request id up s = (Ok tt, s') →
  scope_view k id s'
  = imap (λ j key, (key, Z.of_nat j)) (moved_list up index (scope_view k id s).*1)
  ∧ ((up = true ∧ index = 0%nat) ∨ (up = false ∧ S index = length (scope_view k id s)) →
     (table_view k s' = table_view k s ∧ logentries s' = logentries s ∧ writes s' = writes s)
     ↔ (scope_view k id s).*2 = Z.of_nat <$> seq 0 (length (scope_view k id s))).
Proof.
  destruct k; cbn [table_view move]; rewrite row_view_keys.
  - apply item_move_renumbers.
  - apply category_move_renumbers.
Qed.

(** C10: a single-step move of an existing entity always completes, and
    afterwards the entity's scope, read back in position order, is the list
    the helper built (the scope by position, with the entity swapped with
    its neighbour when the move is not at a boundary) with positions
    0, 1, ..., n-1 along it, whatever they were before; a move at a
    boundary leaves the table, the audit log and the writes untouched
    exactly when the positions of the scope were 0, 1, ..., n-1 before the
    call. *)
Theorem move_renumbers (k : MoveKind) request id up s :
  NoDup (table_view k s).*1 →
  id ∈ (table_view k s).*1 →
  ∃ s' index,
    move k request id up s = (Ok tt, s')
    ∧ (scope_view k id s).*1 !! index = Some id
    ∧ scope_view k id s'
      = imap (λ j key, (key, Z.of_nat j)) (moved_list up index (scope_view k id s).*1)
    ∧ ((up = true ∧ index = 0%nat) ∨ (up = false ∧ S index = length (scope_view k id s)) →
       (table_view k s' = table_view k s
        ∧ logentries s' = logentries s ∧ writes s' = writes s)
       ↔ (scope_view k id s).*2 = Z.of_nat <$> seq 0 (length (scope_view k id s))).
Proof.
  intros Hnd Hid. destruct (move_total k request id up s Hnd Hid) as (s' & index & Hrun & Hi).
  exists s', index. split; [done|]. split; [done|].
  exact (move_renumbers_at k request id up s s' index Hnd Hi Hrun).
Qed.

Lemma sorted_scope_aligned {A} (key : A → Z) (l : list A) :
  contiguous (key <$> sort_by key l) →
  key <$> sort_by key l = Z.of_nat <$> seq 0 (length (sort_by key l)).
Proof.
  intros Hc. rewrite <- (sort_by_sorted_id key (sort_by key l)) at 1.
  - by apply sorted_contiguous.
  - apply sort_by_sorted.
Qed.

Lemma item_adjacent_move request id up s s' index :
  NoDup (pk <$> items s) →
  contiguous (scope_view MoveItem id s).*2 →
  (scope_view MoveItem id s).*1 !! index = Some id →
  item_move request id up s = (Ok tt, s') →
  ((up = true ∧ index = 0%nat)
   ∨ (up = false ∧ S index = length (scope_view MoveItem id s)) →
   table_view MoveItem s' = table_view MoveItem s
   ∧ logentries s' = logentries s ∧ writes s' = writes s)
  ∧ (up = true → index ≠ 0%nat →
     ∃ neighbour, (scope_view MoveItem id s).*1 !! (index - 1)%nat = Some neighbour
       ∧ repositioned (table_view MoveItem s) (table_view MoveItem s') ≡ₚ [id; neighbour]
       ∧ saved (writes s') = saved (writes s) ++ [OnItem id; OnItem neighbour]
       ∧ logged (logentries s') = logged (logentries s) ++ [OnItem id; OnItem neighbour])
  ∧ (up = false → S index ≠ length (scope_view MoveItem id s) →
     ∃ neighbour, (scope_view MoveItem id s).*1 !! S index = Some neighbour
       ∧ repositioned (table_view MoveItem s) (table_view MoveItem s') ≡ₚ [neighbour; id]
       ∧ saved (writes s') = saved (writes s) ++ [OnItem neighbour; OnItem id]
       ∧ logged (logentries s') = logged (logentries s) ++ [OnItem neighbour; OnItem id]).
Proof.
  intros Hnd Hc Hi Hrun.
  destruct (item_move_ok request id up s s' index Hnd Hi Hrun) as (it & Esv & Hid & Hidx & ->).
  rewrite Esv, row_view_keys, length_row_view. rewrite Esv, row_view_positions in Hc.
  apply sorted_scope_aligned in Hc.
  destruct (move_adjacent "pretix.event.item.reordered" (user request)
              (same_category it) s up index it Hnd Hidx Hc) as (Hb & Hup & Hdown).
  subst id. split; [|split].
  - intros Hbd. specialize (Hb Hbd).
    assert (item_move_commit (user request)
              (enumerate (moved_list up index (item_scope it s))) s = s) as -> by exact Hb.
    done.
  - intros Hu Hne. destruct (Hup Hu Hne) as (nb & Hnb & Hrep & Hw & Hl).
    exists (pk nb). split; [|done].
    rewrite list_lookup_fmap.
    assert (item_scope it s !! (index - 1)%nat = Some nb) as -> by exact Hnb. done.
  - intros Hu Hne. destruct (Hdown Hu Hne) as (nb & Hnb & Hrep & Hw & Hl).
    exists (pk nb). split; [|done].
    rewrite list_lookup_fmap.
    assert (item_scope it s !! S index = Some nb) as -> by exact Hnb. done.
Qed.

Lemma category_adjacent_move request id up s s' index :
  NoDup (pk <$> categories s) →
  contiguous (scope_view MoveCategory id s).*2 →
  (scope_view MoveCategory id s).*1 !! index = Some id →
  category_move request id up s = (Ok tt, s') →
  ((up = true ∧ index = 0%nat)
   ∨ (up = false ∧ S index = length (scope_view MoveCategory id s)) →
   table_view MoveCategory s' = table_view MoveCategory s
   ∧ logentries s' = logentries s ∧ writes s' = writes s)
  ∧ (up = true → index ≠ 0%nat →
     ∃ neighbour, (scope_view MoveCategory id s).*1 !! (index - 1)%nat = Some neighbour
       ∧ repositioned (table_view MoveCategory s) (table_view MoveCategory s')
         ≡ₚ [id; neighbour]
       ∧ saved (writes s') = saved (writes s) ++ [OnCategory id; OnCategory neighbour]
       ∧ logged (logentries s')
         = logged (logentries s) ++ [OnCategory id; OnCategory neighbour])
  ∧ (up = false → S index ≠ length (scope_view MoveCategory id s) →
     ∃ neighbour, (scope_view MoveCategory id s).*1 !! S index = Some neighbour
       ∧ repositioned (table_view MoveCategory s) (table_view MoveCategory s')
         ≡ₚ [neighbour; id]
       ∧ saved (writes s') = saved (writes s) ++ [OnCategory neighbour; OnCategory id]
       ∧ logged (logentries s')
         = logged (logentries s) ++ [OnCategory neighbour; OnCategory id]).
Proof.
  intros Hnd Hc Hi Hrun.
  destruct (category_move_ok request id up s s' index Hnd Hi Hrun) as (cat & Hid & Hidx & ->).
  unfold scope_view in *. rewrite row_view_keys, length_row_view.
  rewrite row_view_positions in Hc. apply sorted_scope_aligned in Hc.
  pose proof (move_adjacent (A:=ItemCategory) "pretix.event.category.reordered"
                (user request) (λ _, True) s up index cat Hnd)
    as Hadj.
  rewrite !filter_True in Hadj. destruct (Hadj Hidx Hc) as (Hb & Hup & Hdown).
  subst id. split; [|split].
  - intros Hbd. specialize (Hb Hbd).
    assert (category_move_commit (user request)
              (enumerate (moved_list up index (category_scope s))) s = s) as -> by exact Hb.
    done.
  - intros Hu Hne. destruct (Hup Hu Hne) as (nb & Hnb & Hrep & Hw & Hl).
    exists (pk nb). split; [|done].
    rewrite list_lookup_fmap.
    assert (category_scope s !! (index - 1)%nat = Some nb) as -> by exact Hnb. done.
  - intros Hu Hne. destruct (Hdown Hu Hne) as (nb & Hnb & Hrep & Hw & Hl).
    exists (pk nb). split; [|done].
    rewrite list_lookup_fmap.
    assert (category_scope s !! S index = Some nb) as -> by exact Hnb. done.
Qed.

Lemma adjacent_move_records (k : MoveKind) request id up s s' index :
  NoDup (table_view k s).*1 →
  contiguous (scope_view k id s).*2 →
  (scope_view k id s).*1 !! index = Some id →
  move k request id up s = (Ok tt, s') →
  ((up = true ∧ index = 0%nat) ∨ (up = false ∧ S index = length (scope_view k id s)) →
   table_view k s' = table_view k s ∧ logentries s' = logentries s ∧ writes s' = writes s)
  ∧ (up = true → index ≠ 0%nat →
     ∃ neighbour, (scope_view k id s).*1 !! (index - 1)%nat = Some neighbour
       ∧ repositioned (table_view k s) (table_view k s') ≡ₚ [id; neighbour]
       ∧ saved (writes s') = saved (writes s) ++ [move_target k id; move_target k neighbour]
       ∧ logged (logentries s')
         = logged (logentries s) ++ [move_target k id; move_target k neighbour])
  ∧ (up = false → S index ≠ length (scope_view k id s) →
     ∃ neighbour, (scope_view k id s).*1 !! S index = Some neighbour
       ∧ repositioned (table_view k s) (table_view k s') ≡ₚ [neighbour; id]
       ∧ saved (writes s') = saved (writes s) ++ [move_target k neighbour; move_target k id]
       ∧ logged (logentries s')
         = logged (logentries s) ++ [move_target k neighbour; move_target k id]).
Proof.
  destruct k; cbn [table_view move move_target]; rewrite row_view_keys.
  - apply item_adjacent_move.
  - apply category_adjacent_move.
Qed.

(** *** The positions after a swap *)

Lemma move_keys k request id up s :
  (table_view k (move k request id up s).2).*1 = (table_view k s).*1.
Proof.
  destruct k; cbn [move table_view]; rewrite !row_view_keys.
  - rewrite item_move_run. destruct (list_find _ (items s)) as [[j it]|]; [|done].
    destruct (index_of it (item_scope it s)); [|done]. simpl.
    unfold item_move_commit.
    etransitivity;
      [apply (f_equal (fmap item_pk)); exact (objects_commit (A:=Item) _ _ _ _ _ s)|].
    rewrite <- list_fmap_compose.
    apply list_fmap_ext. intros ? r _. exact (pk_walk (A:=Item) _ _ _ r).
  - rewrite category_move_run. destruct (list_find _ (categories s)) as [[j cat]|]; [|done].
    destruct (index_of cat (category_scope s)); [|done]. simpl.
    unfold category_move_commit.
    etransitivity;
      [apply (f_equal (fmap category_pk));
       exact (objects_commit (A:=ItemCategory) _ _ _ _ _ s)|].
    rewrite <- list_fmap_compose.
    apply list_fmap_ext. intros ? r _. exact (pk_walk (A:=ItemCategory) _ _ _ r).
Qed.

Lemma stored_position_elem key p (rows : list (N * Z)) :
  NoDup rows.*1 → (key, p) ∈ rows → stored_position key rows = Some p.
Proof.
  intros Hnd Hin. unfold stored_position.
  destruct (list_find_elem_of (λ q : N * Z, q.1 = key) rows (key, p) Hin eq_refl)
    as [[j q] Hf].
  rewrite Hf. simpl. apply list_find_Some in Hf as (Hj & Hq & _).
  apply list_elem_of_lookup_2 in Hj.
  by rewrite (NoDup_fmap_eq fst rows q (key, p) Hnd Hj Hin Hq).
Qed.

Lemma scope_view_table k id s : scope_view k id s ⊆ table_view k s.
Proof.
  destruct k; cbn [scope_view table_view].
  - destruct (list_find _ (items s)) as [[j it]|]; [|by intros x ?%elem_of_nil].
    intros x (r & -> & Hr)%list_elem_of_fmap.
    apply (list_elem_of_fmap_2 (λ r0 : Item, (pk r0, position r0))).
    unfold item_scope in Hr. rewrite sort_by_Permutation in Hr.
    by apply list_elem_of_filter in Hr as [_ ?].
  - intros x (r & -> & Hr)%list_elem_of_fmap.
    apply (list_elem_of_fmap_2 (λ r0 : ItemCategory, (pk r0, position r0))).
    unfold category_scope in Hr. by rewrite sort_by_Permutation in Hr.
Qed.

Lemma scope_view_sorted k id s :
  contiguous (scope_view k id s).*2 →
  (scope_view k id s).*2 = Z.of_nat <$> seq 0 (length (scope_view k id s)).
Proof.
  destruct k; cbn [scope_view].
  - destruct (list_find _ (items s)) as [[j it]|]; [|done].
    rewrite row_view_positions, length_row_view. apply sorted_scope_aligned.
  - rewrite row_view_positions, length_row_view. apply sorted_scope_aligned.
Qed.

(** In a scope with positions 0..n-1 every entity is stored at its index. *)
Lemma aligned_position k id s j key :
  NoDup (table_view k s).*1 → contiguous (scope_view k id s).*2 →
  (scope_view k id s).*1 !! j = Some key →
  stored_position key (table_view k s) = Some (Z.of_nat j).
Proof.
  intros Hnd Hc%scope_view_sorted Hj. apply stored_position_elem; [done|].
  apply (scope_view_table k id s). apply list_elem_of_lookup. exists j.
  rewrite list_lookup_fmap in Hj.
  destruct (scope_view k id s !! j) as [[key' p]|] eqn:E; [|done].
  injection Hj as ->. f_equal. f_equal.
  apply (f_equal (λ l, l !! j)) in Hc. rewrite !list_lookup_fmap, E in Hc.
  rewrite lookup_seq_lt in Hc by (by eapply lookup_lt_Some). by injection Hc.
Qed.

(** After a move every entity of the scope is stored at its index in the
    list the helper built. *)
Lemma moved_position k request id up s s' index j key :
  NoDup (table_view k s).*1 → (scope_view k id s).*1 !! index = Some id →
  move k request id up s = (Ok tt, s') →
  moved_list up index (scope_view k id s).*1 !! j = Some key →
  stored_position key (table_view k s') = Some (Z.of_nat j).
Proof.
  intros Hnd Hi Hrun Hj.
  destruct (move_renumbers_at k request id up s s' index Hnd Hi Hrun) as [Hs' _].
  apply stored_position_elem.
  - replace s' with (move k request id up s).2 by (by rewrite Hrun). by rewrite move_keys.
  - apply (scope_view_table k id s'). rewrite Hs'. apply list_elem_of_lookup. exists j.
    by rewrite list_lookup_imap, Hj.
Qed.

Lemma moved_list_swapped {A} up index (l : list A) x :
  l !! index = Some x →
  (up = true → index ≠ 0%nat → ∀ nb, l !! (index - 1)%nat = Some nb →
     moved_list up index l !! (index - 1)%nat = Some x
     ∧ moved_list up index l !! index = Some nb)
  ∧ (up = false → S index ≠ length l → ∀ nb, l !! S index = Some nb →
     moved_list up index l !! S index = Some x
     ∧ moved_list up index l !! index = Some nb).
Proof.
  intros Hx. split.
  - intros -> Hne nb Hnb.
    destruct (moved_list_cases true index l x Hx)
      as [[_ [[_ ?]|[? _]]]|(l1 & a & b & l2 & El & Em & [(_ & Hi & Hb)|(? & _)])];
      try done.
    subst l b index. rewrite Em.
    replace (S (length l1) - 1)%nat with (length l1) in * by lia.
    rewrite list_lookup_middle in Hnb by done. injection Hnb as <-.
    split; [by apply list_lookup_middle|].
    rewrite lookup_app_r by lia. by replace (S (length l1) - length l1)%nat with 1%nat by lia.
  - intros -> Hne nb Hnb.
    destruct (moved_list_cases false index l x Hx)
      as [[_ [[? _]|[_ ?]]]|(l1 & a & b & l2 & El & Em & [(? & _)|(_ & Hi & Ha)])];
      try done.
    subst l a index. rewrite Em.
    rewrite lookup_app_r in Hnb by lia.
    replace (S (length l1) - length l1)%nat with 1%nat in Hnb by lia.
    injection Hnb as <-.
    split; [|by apply list_lookup_middle].
    rewrite lookup_app_r by lia. by replace (S (length l1) - length l1)%nat with 1%nat by lia.
Qed.

(** C7, as stated, fails: moving the first item up is not a no-op when the
    scope has a gap; the other item is renumbered and logged. *)
Lemma boundary_move_counterexample :
  let r := move MoveItem post_request 11 true gap_state in
  NoDup (table_view MoveItem gap_state).*1
  ∧ (scope_view MoveItem 11 gap_state).*1 !! 0%nat = Some 11%N
  ∧ r.1 = Ok tt
  ∧ table_view MoveItem r.2 = [(11%N, 0); (12%N, 1)]
  ∧ table_view MoveItem gap_state = [(11%N, 0); (12%N, 2)]
  ∧ logged (logentries r.2) = [OnItem 12]
  ∧ logentries gap_state = [].
Proof.
  cbv zeta. split.
  - apply (bool_decide_unpack _). vm_compute. reflexivity.
  - repeat split; vm_compute; reflexivity.
Qed.

(** C7 (amended): when the positions of the scope are 0..n-1, moving the
    first entity up or the last entity down changes no row, writes nothing
    and logs nothing; any other move changes the position of exactly two
    entities, the moved one and the neighbour it is swapped with, which
    exchange their positions (index and index - 1 when moving up, index
    and index + 1 when moving down), with one write and one audit record
    for each. *)
Theorem adjacent_move (k : MoveKind) request id up s s' index :
  NoDup (table_view k s).*1 →
  contiguous (scope_view k id s).*2 →
  (scope_view k id s).*1 !! index = Some id →
  move k request id up s = (Ok tt, s') →
  ((up = true ∧ index = 0%nat) ∨ (up = false ∧ S index = length (scope_view k id s)) →
   table_view k s' = table_view k s ∧ logentries s' = logentries s ∧ writes s' = writes s)
  ∧ (up = true → index ≠ 0%nat →
     ∃ neighbour, (scope_view k id s).*1 !! (index - 1)%nat = Some neighbour
       ∧ repositioned (table_view k s) (table_view k s') ≡ₚ [id; neighbour]
       ∧ saved (writes s') = saved (writes s) ++ [move_target k id; move_target k neighbour]
       ∧ logged (logentries s')
         = logged (logentries s) ++ [move_target k id; move_target k neighbour]
       ∧ stored_position id (table_view k s) = Some (Z.of_nat index)
       ∧ stored_position neighbour (table_view k s) = Some (Z.of_nat (index - 1))
       ∧ stored_position id (table_view k s') = Some (Z.of_nat (index - 1))
       ∧ stored_position neighbour (table_view k s') = Some (Z.of_nat index))
  ∧ (up = false → S index ≠ length (scope_view k id s) →
     ∃ neighbour, (scope_view k id s).*1 !! S index = Some neighbour
       ∧ repositioned (table_view k s) (table_view k s') ≡ₚ [neighbour; id]
       ∧ saved (writes s') = saved (writes s) ++ [move_target k neighbour; move_target k id]
       ∧ logged (logentries s')
         = logged (logentries s) ++ [move_target k neighbour; move_target k id]
       ∧ stored_position id (table_view k s) = Some (Z.of_nat index)
       ∧ stored_position neighbour (table_view k s) = Some (Z.of_nat (S index))
       ∧ stored_position id (table_view k s') = Some (Z.of_nat (S index))
       ∧ stored_position neighbour (table_view k s') = Some (Z.of_nat index)).
Proof.
  intros Hnd Hc Hi Hrun.
  destruct (adjacent_move_records k request id up s s' index Hnd Hc Hi Hrun)
    as (Hboundary & Hup & Hdown).
  destruct (moved_list_swapped up index (scope_view k id s).*1 id Hi) as [Sup Sdown].
  split; [done|]. split.
  - intros Hu Hne. destruct (Hup Hu Hne) as (nb & Hnb & Hrep & Hw & Hl).
    exists nb. destruct (Sup Hu Hne nb Hnb) as [Hid' Hnb'].
    repeat split; try done.
    + by apply (aligned_position k id).
    + by apply (aligned_position k id).
    + by apply (moved_position k request id up s s' index).
    + by apply (moved_position k request id up s s' index).
  - intros Hu Hne. destruct (Hdown Hu Hne) as (nb & Hnb & Hrep & Hw & Hl).
    exists nb. rewrite <- (length_fmap fst) in Hne.
    destruct (Sdown Hu Hne nb Hnb) as [Hid' Hnb'].
    repeat split; try done.
    + by apply (aligned_position k id).
    + by apply (aligned_position k id).
    + by apply (moved_position k request id up s s' index).
    + by apply (moved_position k request id up s s' index).
Qed.

Lemma adjacent_move_witness :
  let s' := (move MoveItem post_request 12 true example_state).2 in
  repositioned (table_view MoveItem example_state) (table_view MoveItem s') ≡ₚ [12%N; 11%N]
  ∧ logged (logentries s')
    = logged (logentries example_state) ++ [OnItem 12; OnItem 11]
  ∧ stored_position 12 (table_view MoveItem example_state) = Some 1
  ∧ stored_position 11 (table_view MoveItem example_state) = Some 0
  ∧ stored_position 12 (table_view MoveItem s') = Some 0
  ∧ stored_position 11 (table_view MoveItem s') = Some 1.
Proof.
  cbv zeta.
  destruct (adjacent_move MoveItem post_request 12 true example_state
              (move MoveItem post_request 12 true example_state).2 1)
    as (_ & Hup & _).
  - apply (bool_decide_unpack _). vm_compute. reflexivity.
  - unfold contiguous. vm_compute. reflexivity.
  - vm_compute. reflexivity.
  - vm_compute. reflexivity.
  - destruct (Hup eq_refl) as (nb & Hnb & Hrep & _ & Hl & P1 & P2 & P3 & P4); [lia|].
    vm_compute in Hnb. injection Hnb as <-.
    split; [exact Hrep|]. split; [exact Hl|]. split; [exact P1|]. split; [exact P2|].
    split; [exact P3|exact P4].
Defined.

Lemma move_renumbers_witness :
  ∃ s' index,
    move MoveItem post_request 11 true gap_state = (Ok tt, s')
    ∧ (scope_view MoveItem 11 gap_state).*1 !! index = Some 11%N
    ∧ scope_view MoveItem 11 s'
      = imap (λ j key, (key, Z.of_nat j))
             (moved_list true index (scope_view MoveItem 11 gap_state).*1)
    ∧ ((true = true ∧ index = 0%nat)
       ∨ (true = false ∧ S index = length (scope_view MoveItem 11 gap_state)) →
       (table_view MoveItem s' = table_view MoveItem gap_state
        ∧ logentries s' = logentries gap_state ∧ writes s' = writes gap_state)
       ↔ (scope_view MoveItem 11 gap_state).*2
         = Z.of_nat <$> seq 0 (length (scope_view MoveItem 11 gap_state))).
Proof.
  apply (move_renumbers MoveItem post_request 11 true gap_state).
  - apply (bool_decide_unpack _). vm_compute. reflexivity.
  - apply (bool_decide_unpack _). vm_compute. reflexivity.
Defined.

(** Scenario B of the specification. *)
Example scenario_B :
  let s := mkState [] [mkItem 1 0 None; mkItem 2 1 None] [] example_settings [] [] [] in
  move MoveItem post_request 1 true s
  = (Ok tt, add_flash "The order of items has been updated." s).
Proof. vm_compute. reflexivity. Qed.

(** ** C9: the question list *)

Lemma get_context_data_spec s :
  get_context_data s
  = sort_by entry_position (spec_virtual_entries (settings s) ++ (Stored <$> questions s)).
Proof.
  unfold get_context_data, spec_virtual_entries, spec_system_fields.
  destruct (attendee_names_asked (settings s)), (attendee_emails_asked (settings s)),
    (attendee_company_asked (settings s)), (attendee_addresses_asked (settings s));
    reflexivity.
Qed.

Lemma sorted_lookup {A} (R : relation A) (l : list A) i j a b :
  StronglySorted R l → (i < j)%nat → l !! i = Some a → l !! j = Some b → R a b.
Proof.
  intros Hs. revert i j. induction Hs as [|x l Hl IH Hx]; intros i j Hij Hi Hj; [done|].
  destruct j as [|j]; [lia|]. simpl in Hj. destruct i as [|i]; simpl in Hi.
  - injection Hi as <-. rewrite Forall_forall in Hx. apply Hx.
    by eapply list_elem_of_lookup_2.
  - eapply IH; [|done|done]. lia.
Qed.

Lemma asked_enabled st key :
  key ∈ system_questions → asked st key = true ↔ key ∈ spec_enabled_keys st.
Proof.
  intros Hkey.
  assert (asked st key = bool_decide (key ∈ spec_enabled_keys st)) as ->.
  { destruct st as [a1 r1 a2 r2 a3 r3 a4 r4 o]. unfold system_questions in Hkey.
    repeat (apply elem_of_cons in Hkey as [->|Hkey]); [..|by apply elem_of_nil in Hkey];
      destruct a1, a2, a3, a4; vm_compute; reflexivity. }
  split; [apply bool_decide_eq_true_1|apply bool_decide_eq_true_2].
Qed.

Lemma system_field_keys st : (λ f, f.1.1.1) <$> spec_system_fields st = system_questions.
Proof. done. Qed.

Lemma fake_in_virtual st f :
  Fake f ∈ spec_virtual_entries st
  ↔ ∃ fld, fld ∈ spec_system_fields st ∧ fld.1.2 = true
           ∧ f = mkFakeQuestion fld.1.1.1 fld.1.1.2 (order_get st fld.1.1.1) fld.2.
Proof.
  unfold spec_virtual_entries. rewrite list_elem_of_fmap. split.
  - intros [fld [Ef Hfld]]. apply list_elem_of_filter in Hfld as [Ha Hfld].
    exists fld. unfold fake in Ef. injection Ef as ->. done.
  - intros [fld (Hfld & Ha & ->)]. exists fld. split; [done|]. by apply list_elem_of_filter.
Qed.

Lemma fake_in_list s f :
  Fake f ∈ get_context_data s ↔ Fake f ∈ spec_virtual_entries (settings s).
Proof.
  rewrite get_context_data_spec, sort_by_Permutation, elem_of_app. split; [|by left].
  intros [Hv|Hs]; [done|]. by apply list_elem_of_fmap in Hs as [q [? _]].
Qed.

(** C9: the displayed list holds a virtual entry for a system key exactly
    when the flag of that key is enabled, with the position stored for the
    key (0 when none is stored); it is the virtual entries followed by the
    stored questions, stably sorted by position: an entry of smaller
    position always comes first and entries of equal position keep the
    order of the concatenation. *)
Theorem question_list (s : State) :
  let st := settings s in
  let shown := get_context_data s in
  shown ≡ₚ spec_virtual_entries st ++ (Stored <$> questions s)
  ∧ (∀ key, key ∈ system_questions →
       asked st key = true ↔ ∃ f, Fake f ∈ shown ∧ fq_id f = key)
  ∧ (∀ f, Fake f ∈ shown →
       fq_id f ∈ system_questions
       ∧ fq_position f = default 0 (system_question_order st !! fq_id f))
  ∧ (∀ i j e1 e2, shown !! i = Some e1 → shown !! j = Some e2 →
       entry_position e1 < entry_position e2 → (i < j)%nat)
  ∧ (∀ p, filter (λ e, entry_position e = p) shown
          = filter (λ e, entry_position e = p)
                   (spec_virtual_entries st ++ (Stored <$> questions s))).
Proof.
  cbv zeta. split; [|split; [|split; [|split]]].
  - rewrite get_context_data_spec. apply sort_by_Permutation.
  - intros key Hkey. rewrite (asked_enabled _ _ Hkey). unfold spec_enabled_keys.
    rewrite list_elem_of_fmap. split.
    + intros [fld [-> Hfld]]. apply list_elem_of_filter in Hfld as [Ha Hfld].
      eexists. split; [apply fake_in_list, fake_in_virtual; by exists fld|done].
    + intros [f [Hf <-]]. apply fake_in_list, fake_in_virtual in Hf as [fld (Hfld & Ha & ->)].
      exists fld. split; [done|]. by apply list_elem_of_filter.
  - intros f Hf. apply fake_in_list, fake_in_virtual in Hf as [fld (Hfld & Ha & ->)].
    simpl. split; [|done]. rewrite <- (system_field_keys (settings s)).
    by apply (list_elem_of_fmap_2 (λ f, f.1.1.1)).
  - intros i j e1 e2 Hi Hj Hlt. rewrite get_context_data_spec in Hi, Hj.
    destruct (decide (i < j)%nat) as [|Hge]; [done|]. exfalso.
    destruct (decide (i = j)) as [->|Hne].
    + rewrite Hi in Hj. injection Hj as ->. lia.
    + pose proof (sorted_lookup _ _ j i e2 e1 (sort_by_sorted entry_position _)
                    ltac:(lia) Hj Hi) as Hle.
      simpl in Hle. lia.
  - intros p. rewrite get_context_data_spec. apply sort_by_stable.
Qed.

(** Property P5 of the specification: name at 2, email at 0, stored
    questions at 1 and 3. *)
Example merged_display_order :
  let st := mkSettings true true true true false false false false
              (<["attendee_name_parts" := 2]> (<["attendee_email" := 0]> ∅)) in
  let s := mkState [] [] [mkQuestion 5 1; mkQuestion 6 3] st [] [] [] in
  entry_id <$> get_context_data s = ["attendee_email"; "5"; "attendee_name_parts"; "6"]
  ∧ entry_position <$> get_context_data s = [0; 1; 2; 3].
Proof. split; vm_compute; reflexivity. Qed.

(** ** C5: the relaxed item reconciliation *)

Lemma pk_relaxed_plan t (x : Item) (i : nat) : pk (relaxed_plan t x i) = pk x.
Proof. done. Qed.

(** The table after a successful [reorder_items]: the items named in the
    request get the index of their id and the target category, all others
    stay as they were. *)
Lemma relaxed_table u ids category s s' :
  NoDup (pk <$> items s) →
  reorder_items (ids_request u ids) category s = (Ok HttpResponse, s') →
  items s'
  = (λ r, if decide (pk r ∈ (pk <$> selected ids (items s)))
          then mkItem (pk r) (key_position ids (str (pk r))) (new_category category)
          else r) <$> items s.
Proof.
  intros Hnd Hrun. apply reorder_items_ok in Hrun as (_ & _ & pairs & Hidx & ->).
  unfold item_commit.
  etransitivity;
    [exact (objects_commit (A:=Item) (relaxed_plan (new_category category))
              (relaxed_changed (new_category category)) _ _ pairs s)|].
  apply list_fmap_ext. intros j r Hr.
  apply list_elem_of_lookup_2 in Hr.
  assert (selected ids (items s) ⊆ items s) as Hsub.
  { intros x Hx. by apply list_elem_of_filter in Hx as [_ ?]. }
  rewrite (walk_indexed (relaxed_plan (new_category category))
             (relaxed_changed (new_category category))
             (pk_relaxed_plan (new_category category))
             ids (selected ids (items s)) (items s) pairs r Hnd
             (NoDup_selected ids (items s) Hnd) Hsub Hidx Hr).
  destruct (decide (pk r ∈ (pk <$> selected ids (items s)))) as [Hin|Hout].
  - apply list_elem_of_fmap in Hin as [x [Ex Hx]].
    assert (x = r) as ->.
    { apply (NoDup_fmap_eq pk (items s)); [done|by apply Hsub|done|done]. }
    destruct (indexed_elem _ _ _ _ Hidx Hx) as [i [_ Hi]].
    rewrite Hi, (key_position_indexed _ _ _ Hi). case_bool_decide as Hc; [done|].
    assert (pk r ∈ (pk <$> selected ids (items s))) as Hin
      by (by apply list_elem_of_fmap_2).
    destruct r as [k p c]. unfold relaxed_changed in Hc. simpl in *.
    destruct (decide (Z.of_nat i = p)) as [<-|]; [|tauto].
    destruct (decide (new_category category = c)) as [<-|]; [done|tauto].
  - destruct (list_index (str (pk r)) ids); [|done].
    rewrite bool_decide_false; [done|tauto].
Qed.

(** C5 fails on the audit record: the [position] datum logged by
    [reorder_items] is the item object, not the new position.  Moving items
    12 and 11 of category 1 to the order 12, 11 logs two records whose
    [position] is an item; the same request shape on categories logs the
    integer. *)
Lemma relaxed_log_carries_item :
  let r := reorder_items (ids_request 7 ["12"; "11"]) 1 example_state in
  let c := reorder_categories (ids_request 7 ["2"; "1"; "3"]) example_state in
  r.1 = Ok HttpResponse
  ∧ log_data <$> logentries r.2
    = [[("position", VItem (mkItem 11 1 (Some 1%N))); ("category", VInt 1)];
       [("position", VItem (mkItem 12 0 (Some 1%N))); ("category", VInt 1)]]
  ∧ c.1 = Ok HttpResponse
  ∧ log_data <$> logentries c.2 = [[("position", VInt 1)]; [("position", VInt 0)]].
Proof. cbv zeta. repeat split; vm_compute; reflexivity. Qed.

(** * Further views of the file *)

(** ** The item list: [ItemList] *)

Lemma filter_Forall_nil {A} (P : A → Prop) `{∀ x, Decision (P x)} (l : list A) :
  Forall (λ x, ¬ P x) l → filter P l = [].
Proof.
  induction 1 as [|x l Hx _ IH]; [done|]. by rewrite filter_cons_False.
Qed.

Section GroupBy.
Context {A K : Type} `{Countable K} (key : A → K).

Lemma groupby_head y l : ∃ g rest, groupby key (y :: l) = (key y, g) :: rest.
Proof.
  simpl. destruct (groupby key l) as [|[k g] rest]; [by eexists _, _|].
  case_decide as Hk; [rewrite Hk|]; by eexists _, _.
Qed.

Lemma groupby_key_elem l k : k ∈ (groupby key l).*1 → ∃ z, z ∈ l ∧ key z = k.
Proof.
  revert k. induction l as [|x l IH]; intros k; simpl; [by intros ?%elem_of_nil|].
  destruct (groupby key l) as [|[k' g] rest] eqn:E.
  - simpl. intros ->%list_elem_of_singleton. exists x. split; [left|done].
  - case_decide as Hk; simpl.
    + intros Hin. destruct (IH k Hin) as (z & Hz & <-). exists z. split; [by right|done].
    + intros [->|Hin]%elem_of_cons.
      * exists x. split; [left|done].
      * destruct (IH k Hin) as (z & Hz & <-). exists z. split; [by right|done].
Qed.

Lemma groupby_concat l : concat (groupby key l).*2 = l.
Proof.
  induction l as [|x l IH]; [done|]. simpl.
  destruct (groupby key l) as [|[k g] rest] eqn:E.
  - simpl in *. by rewrite <- IH.
  - case_decide; simpl in *; by rewrite <- IH.
Qed.

Lemma groupby_groups l : Forall (λ p, Forall (λ x, key x = p.1) p.2) (groupby key l).
Proof.
  induction l as [|x l IH]; [constructor|]. simpl.
  destruct (groupby key l) as [|[k g] rest] eqn:E.
  - repeat constructor.
  - apply Forall_cons in IH as [Hg Hrest]. case_decide.
    + constructor; [|done]. by constructor.
    + constructor; [by repeat constructor|]. by constructor.
Qed.

(** In a list sorted by a relation that cannot leave a key and come back
    to it, no key heads two groups. *)
Lemma groupby_keys_NoDup (R : A → A → Prop) l :
  (∀ x y z, R x y → R y z → key x = key z → key y = key x) →
  StronglySorted R l → NoDup (groupby key l).*1.
Proof.
  intros Hsand. induction 1 as [|x l Hs IH Hx]; [constructor|].
  simpl. destruct (groupby key l) as [|[k g] rest] eqn:E; [repeat constructor; by intros ?%elem_of_nil|].
  case_decide as Hk; [done|]. simpl. constructor; [|done].
  intros Hin. change (key x ∈ ((k, g) :: rest).*1) in Hin. rewrite <- E in Hin.
  destruct (groupby_key_elem _ _ Hin) as (z & Hz & Hkz).
  destruct l as [|y l']; [done|].
  destruct (groupby_head y l') as (g' & rest' & E'). rewrite E' in E. injection E as <- _ _.
  apply Forall_cons in Hx as [Rxy Hx].
  apply elem_of_cons in Hz as [->|Hz]; [done|].
  apply StronglySorted_inv in Hs as [_ Hy].
  rewrite Forall_forall in Hy. apply Hk. symmetry. apply (Hsand x y z); [done|by apply Hy|done].
Qed.

Lemma dict_of_snoc {V} (G : list (K * V)) p : dict_of (G ++ [p]) = <[p.1 := p.2]> (dict_of G).
Proof. unfold dict_of. by rewrite foldl_app. Qed.

Lemma dict_of_groups (G : list (K * list A)) k :
  NoDup G.*1 → Forall (λ p, Forall (λ x, key x = p.1) p.2) G →
  default [] (dict_of G !! k) = filter (λ x, key x = k) (concat G.*2).
Proof.
  induction G as [|p G IH] using rev_ind; [done|].
  rewrite fmap_app, NoDup_app. intros (Hnd & Hdis & _). rewrite Forall_app, Forall_singleton.
  intros [HG Hp]. rewrite dict_of_snoc, fmap_app, concat_app, filter_app. simpl.
  rewrite app_nil_r. destruct (decide (p.1 = k)) as [Hk|Hk].
  - subst k. rewrite lookup_insert_eq. simpl.
    rewrite <- IH by done.
    assert (dict_of G !! p.1 = None) as ->.
    { clear -Hdis. assert (p.1 ∉ G.*1) as Hn by (intros Hin; apply (Hdis _ Hin); simpl; left).
      clear Hdis. induction G as [|q G IH] using rev_ind; [done|].
      rewrite dict_of_snoc. rewrite fmap_app, not_elem_of_app in Hn. destruct Hn as [Hn Hq].
      rewrite lookup_insert_ne; [by apply IH|]. intros Heq. apply Hq. simpl. rewrite Heq. left. }
    simpl. symmetry. by apply filter_Forall_id.
  - rewrite lookup_insert_ne by done. rewrite IH by done.
    rewrite (filter_Forall_nil _ p.2); [by rewrite app_nil_r|].
    eapply Forall_impl; [exact Hp|]. simpl. by intros x ->.
Qed.

Lemma lookup_groupby (R : A → A → Prop) l k :
  (∀ x y z, R x y → R y z → key x = key z → key y = key x) →
  StronglySorted R l →
  default [] (dict_of (groupby key l) !! k) = filter (λ x, key x = k) l.
Proof.
  intros Hsand Hs. rewrite dict_of_groups.
  - by rewrite groupby_concat.
  - by eapply groupby_keys_NoDup.
  - apply groupby_groups.
Qed.
End GroupBy.

Section OrderBy.
Context {A : Type} (le : A → A → bool).
Hypothesis le_total : ∀ a b, le a b = true ∨ le b a = true.
Hypothesis le_trans : ∀ a b c, le a b = true → le b c = true → le a c = true.

Lemma insert_le_Permutation x l : insert_le le x l ≡ₚ x :: l.
Proof.
  induction l as [|y l IH]; [done|]. simpl. destruct (le x y); [done|].
  rewrite IH. apply Permutation_swap.
Qed.

Lemma order_by_Permutation l : order_by le l ≡ₚ l.
Proof.
  induction l as [|x l IH]; [done|]. simpl. by rewrite insert_le_Permutation, IH.
Qed.

Lemma insert_le_sorted x l :
  StronglySorted (λ a b, le a b = true) l →
  StronglySorted (λ a b, le a b = true) (insert_le le x l).
Proof.
  induction 1 as [|y l Hs IH Hy]; [repeat constructor|]. simpl.
  destruct (le x y) eqn:E.
  - constructor; [by constructor|]. constructor; [done|].
    eapply Forall_impl; [exact Hy|]. intros z Hz. by eapply le_trans.
  - constructor; [done|]. rewrite insert_le_Permutation. constructor; [|done].
    destruct (le_total x y); congruence.
Qed.

Lemma order_by_sorted l : StronglySorted (λ a b, le a b = true) (order_by le l).
Proof. induction l; [constructor|]. by apply insert_le_sorted. Qed.

Lemma filter_insert_le (P : A → Prop) `{∀ x, Decision (P x)} x l :
  StronglySorted (λ a b, le a b = true) l →
  filter P (insert_le le x l)
  = if decide (P x) then insert_le le x (filter P l) else filter P l.
Proof.
  induction 1 as [|y l Hs IH Hy]; simpl.
  - rewrite filter_cons, filter_nil. by destruct (decide (P x)).
  - destruct (le x y) eqn:E.
    + rewrite filter_cons. destruct (decide (P x)) as [Hx|Hx]; [|done].
      rewrite (filter_cons _ y). destruct (decide (P y)); [simpl; by rewrite E|].
      assert (Forall (λ z, le x z = true) (filter P l)) as Hall.
      { apply Forall_forall. intros z [_ Hz]%list_elem_of_filter.
        rewrite Forall_forall in Hy. eapply le_trans; [exact E|by apply Hy]. }
      destruct (filter P l) as [|z l']; [done|]. simpl.
      apply Forall_cons in Hall as [-> _]. done.
    + rewrite filter_cons, IH. rewrite (filter_cons _ y).
      destruct (decide (P y)); destruct (decide (P x)); simpl; by rewrite ?E.
Qed.

Lemma filter_order_by (P : A → Prop) `{∀ x, Decision (P x)} l :
  filter P (order_by le l) = order_by le (filter P l).
Proof.
  induction l as [|x l IH]; [done|]. simpl.
  rewrite filter_insert_le by apply order_by_sorted.
  rewrite filter_cons. destruct (decide (P x)); simpl; by rewrite IH.
Qed.
End OrderBy.

Lemma insert_le_ext {A} (le1 le2 : A → A → bool) x l :
  (∀ b, b ∈ l → le1 x b = le2 x b) → insert_le le1 x l = insert_le le2 x l.
Proof.
  induction l as [|y l IH]; [done|]. intros Hext. simpl.
  rewrite (Hext y) by left. destruct (le2 x y); [done|]. f_equal. apply IH.
  intros b Hb. apply Hext. by right.
Qed.

Lemma order_by_ext {A} (le1 le2 : A → A → bool) l :
  (∀ a b, a ∈ l → b ∈ l → le1 a b = le2 a b) → order_by le1 l = order_by le2 l.
Proof.
  induction l as [|x l IH]; [done|]. intros Hext. simpl.
  rewrite IH by (intros a b Ha Hb; apply Hext; by right).
  apply insert_le_ext. intros b Hb. apply Hext; [left|right].
  by rewrite (order_by_Permutation le2) in Hb.
Qed.

Lemma order_by_sort_by {A} (key : A → Z) l :
  order_by (λ a b, key a <=? key b) l = sort_by key l.
Proof.
  induction l as [|x l IH]; [done|]. simpl. rewrite IH.
  generalize (sort_by key l). intros l'. induction l' as [|y l' IH']; [done|].
  simpl. by rewrite IH'.
Qed.

Lemma compare_nulls_first_refl a : compare_nulls_first a a = Eq.
Proof. destruct a; simpl; [apply Z.compare_refl|done]. Qed.

Lemma compare_nulls_first_eq a b : compare_nulls_first a b = Eq → a = b.
Proof. destruct a, b; simpl; try done. by intros ->%Z.compare_eq. Qed.

Lemma compare_nulls_first_antisym a b :
  compare_nulls_first b a = CompOpp (compare_nulls_first a b).
Proof. destruct a, b; simpl; try done. apply Z.compare_antisym. Qed.

Lemma compare_nulls_first_trans a b c :
  compare_nulls_first a b = Lt → compare_nulls_first b c = Lt → compare_nulls_first a c = Lt.
Proof.
  destruct a, b, c; simpl; try done. rewrite !Z.compare_lt_iff. lia.
Qed.

Lemma ItemList_order_compare s a b :
  ItemList_order s a b
  = match category_compare s a b with
    | Lt => true
    | Gt => false
    | Eq => position a <=? position b
    end.
Proof.
  unfold ItemList_order, category_compare.
  by destruct (compare_nulls_first (category__position s a) (category__position s b)).
Qed.

Lemma category_compare_same s a b :
  item_category a = item_category b → category_compare s a b = Eq.
Proof.
  intros Heq. unfold category_compare, category__position. rewrite Heq.
  by rewrite !compare_nulls_first_refl.
Qed.

Lemma category_compare_eq s a b :
  category_compare s a b = Eq → item_category a = item_category b.
Proof.
  unfold category_compare.
  destruct (compare_nulls_first (category__position s a) (category__position s b)); try done.
  intros Heq%compare_nulls_first_eq.
  destruct (item_category a), (item_category b); simpl in Heq; try done.
  f_equal. apply N2Z.inj. congruence.
Qed.

Lemma category_compare_antisym s a b :
  category_compare s b a = CompOpp (category_compare s a b).
Proof.
  unfold category_compare.
  rewrite (compare_nulls_first_antisym (category__position s a)).
  rewrite (compare_nulls_first_antisym (Z.of_N <$> item_category a)).
  by destruct (compare_nulls_first (category__position s a) (category__position s b)).
Qed.

Lemma category_compare_trans s a b c :
  category_compare s a b = Lt → category_compare s b c = Lt → category_compare s a c = Lt.
Proof.
  unfold category_compare.
  destruct (compare_nulls_first (category__position s a) (category__position s b)) eqn:E1;
    try done;
    destruct (compare_nulls_first (category__position s b) (category__position s c)) eqn:E2;
    try done.
  - apply compare_nulls_first_eq in E1, E2. rewrite E1, E2, compare_nulls_first_refl.
    apply compare_nulls_first_trans.
  - apply compare_nulls_first_eq in E1. rewrite E1, E2. done.
  - apply compare_nulls_first_eq in E2. rewrite <- E2, E1. done.
  - by rewrite (compare_nulls_first_trans _ _ _ E1 E2).
Qed.

Lemma category_compare_eq_l s a b c :
  category_compare s a b = Eq → category_compare s a c = category_compare s b c.
Proof.
  intros Heq%category_compare_eq. unfold category_compare, category__position. by rewrite Heq.
Qed.

Lemma category_compare_eq_r s a b c :
  category_compare s b c = Eq → category_compare s a b = category_compare s a c.
Proof.
  intros Heq%category_compare_eq. unfold category_compare, category__position. by rewrite Heq.
Qed.

Lemma ItemList_order_total s a b :
  ItemList_order s a b = true ∨ ItemList_order s b a = true.
Proof.
  rewrite !ItemList_order_compare, (category_compare_antisym s a b).
  destruct (category_compare s a b); simpl; auto. rewrite !Z.leb_le. lia.
Qed.

Lemma ItemList_order_trans s a b c :
  ItemList_order s a b = true → ItemList_order s b c = true → ItemList_order s a c = true.
Proof.
  rewrite !ItemList_order_compare.
  destruct (category_compare s a b) eqn:E1; try done;
    destruct (category_compare s b c) eqn:E2; try done.
  - rewrite (category_compare_eq_l _ _ _ _ E1), E2, !Z.leb_le. lia.
  - by rewrite (category_compare_eq_l _ _ _ _ E1), E2.
  - by rewrite <- (category_compare_eq_r _ _ _ _ E2), E1.
  - by rewrite (category_compare_trans _ _ _ _ E1 E2).
Qed.

(** Between two items of one category the order holds only items of that
    category. *)
Lemma ItemList_order_between s x y z :
  ItemList_order s x y = true → ItemList_order s y z = true →
  item_category x = item_category z → item_category y = item_category x.
Proof.
  rewrite !ItemList_order_compare. intros Hxy Hyz Hxz.
  apply (category_compare_same s) in Hxz.
  destruct (category_compare s x y) eqn:E1; try done.
  - symmetry. by apply (category_compare_eq s).
  - exfalso. rewrite <- (category_compare_eq_r _ _ _ _ Hxz) in Hyz.
    rewrite (category_compare_antisym s x y), E1 in Hyz. done.
Qed.

Lemma queryset_group s (k : option N) :
  filter (λ i, item_category i = k) (ItemList_get_queryset s)
  = sort_by position (filter (λ i, item_category i = k) (items s)).
Proof.
  unfold ItemList_get_queryset.
  rewrite filter_order_by by (apply ItemList_order_total || apply ItemList_order_trans).
  rewrite <- order_by_sort_by. apply order_by_ext.
  intros a b [Ha _]%list_elem_of_filter [Hb _]%list_elem_of_filter.
  rewrite ItemList_order_compare, category_compare_same; [done|congruence].
Qed.

Lemma cat_list_groups s :
  ItemList_get_context_data s
  = (λ cat : option ItemCategory,
       (cat, sort_by position (filter (λ i, item_category i = pk <$> cat) (items s))))
    <$> (None :: (Some <$> categories s)).
Proof.
  unfold ItemList_get_context_data. apply list_fmap_ext. intros _ cat _. f_equal.
  rewrite (lookup_groupby item_category (λ a b, ItemList_order s a b = true)).
  - apply queryset_group.
  - intros x y z. apply ItemList_order_between.
  - apply order_by_sorted; [apply ItemList_order_total|apply ItemList_order_trans].
Qed.

(** X1: the product list has one entry for no category and then one entry
    per category of the event, in the order of the category table; the
    entry of a category holds exactly the items of that category, ordered
    by position (equal positions in the order of the table).  The
    dictionary built from [groupby] loses no item, whatever the positions
    of the categories are. *)
Theorem item_list_groups s :
  (ItemList_get_context_data s).*1 = None :: (Some <$> categories s)
  ∧ ∀ cat group, (cat, group) ∈ ItemList_get_context_data s →
      group = sort_by position (filter (λ i, item_category i = pk <$> cat) (items s)).
Proof.
  rewrite cat_list_groups. split.
  - rewrite <- list_fmap_compose. apply list_fmap_id.
  - by intros cat group (c & [= -> ->] & _)%list_elem_of_fmap.
Qed.

Lemma filter_filter_ne {A K} `{EqDecision K} (key : A → K) (k k' : K) (l : list A) :
  k' ≠ k →
  filter (λ x, key x = k') (filter (λ x, ¬ key x = k) l) = filter (λ x, key x = k') l.
Proof.
  intros Hne. induction l as [|x l IH]; [done|].
  rewrite (filter_cons (λ x, ¬ key x = k)), (filter_cons (λ x, key x = k') x l).
  destruct (decide (¬ key x = k)) as [Hx|Hx].
  - rewrite filter_cons. by rewrite IH.
  - rewrite IH. destruct (decide (key x = k')) as [Hk|]; [|done].
    exfalso. apply Hx. congruence.
Qed.

(** Filtering by every key of a duplicate-free list that covers the keys of
    [l] splits [l]. *)
Lemma concat_filter_keys {A K} `{EqDecision K} (key : A → K) (ks : list K) (l : list A) :
  NoDup ks → (∀ x, x ∈ l → key x ∈ ks) →
  concat ((λ k, filter (λ x, key x = k) l) <$> ks) ≡ₚ l.
Proof.
  intros Hnd. revert l. induction Hnd as [|k ks Hk Hnd IH]; intros l Hl.
  - destruct l as [|x l]; [done|]. exfalso. apply (not_elem_of_nil (key x)), Hl. left.
  - simpl. etransitivity; [|apply (filter_app_complement (λ x, key x = k) l)].
    apply Permutation_app_head.
    rewrite <- (IH (filter (λ x, ¬ key x = k) l)).
    + assert (∀ l1 l2 : list A, l1 = l2 → l1 ≡ₚ l2) as Heq by (by intros ?? ->).
      apply Heq. f_equal. apply list_fmap_ext. intros j k' Hk'.
      symmetry. apply filter_filter_ne. intros Heq'. apply Hk. rewrite <- Heq'.
      by eapply list_elem_of_lookup_2.
    + intros x [Hx Hin]%list_elem_of_filter.
      specialize (Hl x Hin). apply elem_of_cons in Hl as [?|?]; [done|done].
Qed.

(** X2: when the keys of the categories are unique and every item has no
    category or a category of the event, the groups of the product list
    together hold every item of the event exactly once, and each item
    stands in the group of its own category. *)
Theorem item_list_complete s :
  NoDup (pk <$> categories s) → categories_exist s →
  concat (snd <$> ItemList_get_context_data s) ≡ₚ items s
  ∧ ∀ cat group i, (cat, group) ∈ ItemList_get_context_data s → i ∈ group →
      item_category i = pk <$> cat.
Proof.
  intros Hnd Hfk. rewrite cat_list_groups. split.
  - rewrite <- list_fmap_compose.
    transitivity (concat ((λ k, filter (λ i, item_category i = k) (items s))
                            <$> (None :: (Some <$> (pk <$> categories s))))).
    + simpl. apply Permutation_app; [apply sort_by_Permutation|].
      clear Hnd. induction (categories s) as [|c cs IH]; [done|]. simpl.
      apply Permutation_app; [apply sort_by_Permutation|apply IH].
    + apply concat_filter_keys.
      * constructor.
        -- by intros (? & ? & _)%list_elem_of_fmap.
        -- apply (NoDup_fmap_2 _). done.
      * intros i Hi. destruct (item_category i) as [k|] eqn:E; [|left].
        right. apply list_elem_of_fmap_2. by eapply Hfk.
  - intros cat group i (c & [= -> ->] & _)%list_elem_of_fmap Hi.
    rewrite sort_by_Permutation in Hi. by apply list_elem_of_filter in Hi as [? _].
Qed.

Lemma example_state_well_formed : well_formed example_state.
Proof.
  repeat split; try (apply (bool_decide_unpack _); vm_compute; reflexivity).
  intros i k Hi Hk. simpl in Hi.
  repeat (apply elem_of_cons in Hi as [->|Hi]); try (by apply elem_of_nil in Hi);
    injection Hk as <-; apply (bool_decide_unpack _); vm_compute; reflexivity.
Qed.

Lemma item_list_complete_witness :
  concat (snd <$> ItemList_get_context_data example_state) ≡ₚ items example_state
  ∧ ∀ cat group i, (cat, group) ∈ ItemList_get_context_data example_state → i ∈ group →
      item_category i = pk <$> cat.
Proof.
  apply (item_list_complete example_state).
  - apply (bool_decide_unpack _). vm_compute. reflexivity.
  - apply example_state_well_formed.
Defined.

(** ** Deleting a category or a question *)

Lemma detach_loop (l : list Item) s :
  for_each l (λ item,
    let item := mkItem (item_pk item) (item_position item) None in save item None) s
  = (Ok tt,
     mkState (categories s)
             (foldl (λ rows i, replace_row (detached i) rows) (items s) l)
             (questions s) (settings s) (logentries s)
             (writes s ++ ((λ i, RowSave (OnItem (pk i)) None) <$> l)) (flash s)).
Proof.
  revert s. induction l as [|i l IH]; intros s.
  - simpl. rewrite app_nil_r. by destruct s.
  - cbn [for_each]. unfold mbind at 1, M_bind. unfold save at 1, modify. cbn beta iota.
    rewrite IH. simpl. f_equal. f_equal. by rewrite <- app_assoc.
Qed.

Lemma replace_rows_closed {A} `{ModelLaws A} (f : A → A) (l rows : list A) :
  NoDup (pk <$> rows) → l ⊆ rows → (∀ r, pk (f r) = pk r) →
  foldl (λ rows i, replace_row (f i) rows) rows l
  = (λ r, if decide (pk r ∈ (pk <$> l)) then f r else r) <$> rows.
Proof.
  intros Hnd Hsub Hpk. induction l as [|i l IH] using rev_ind.
  - simpl. symmetry. apply list_fmap_id.
  - rewrite foldl_app. simpl. rewrite IH by (intros x Hx; apply Hsub, elem_of_app; by left).
    unfold replace_row. rewrite <- list_fmap_compose. apply list_fmap_ext.
    intros j r Hr. apply list_elem_of_lookup_2 in Hr. simpl.
    assert (i ∈ rows) as Hi by (apply Hsub, elem_of_app; right; left).
    rewrite fmap_app, Hpk. simpl.
    assert (pk (if decide (pk r ∈ (pk <$> l)) then f r else r) = pk r) as ->.
    { case_decide; [apply Hpk|done]. }
    destruct (decide (pk r = pk i)) as [Heq|Hne].
    + assert (r = i) as -> by (by apply (NoDup_fmap_eq pk rows)).
      rewrite decide_True; [done|]. apply elem_of_app. right. left.
    + destruct (decide (pk r ∈ (pk <$> l))) as [Hin|Hin].
      * rewrite decide_True; [done|]. apply elem_of_app. by left.
      * rewrite decide_False; [done|]. rewrite elem_of_app, list_elem_of_singleton. tauto.
Qed.

Lemma find_by_pk {A} `{Model A} (id : N) (rows : list A) :
  id ∈ (pk <$> rows) → ∃ j obj, list_find (λ r, pk r = id) rows = Some (j, obj) ∧ pk obj = id
                                 ∧ obj ∈ rows.
Proof.
  intros (r & -> & Hr)%list_elem_of_fmap.
  destruct (list_find_elem_of (λ x, pk x = pk r) rows r Hr eq_refl) as [[j obj] Hf].
  exists j, obj. split; [done|]. apply list_find_Some in Hf as (Hj & Hobj & _).
  split; [done|]. by eapply list_elem_of_lookup_2.
Qed.

Lemma find_by_pk_None {A} `{Model A} (id : N) (rows : list A) :
  id ∉ (pk <$> rows) → list_find (λ r, pk r = id) rows = None.
Proof.
  intros Hn. apply list_find_None, Forall_forall. intros r Hr Heq. apply Hn.
  rewrite <- Heq. by apply list_elem_of_fmap_2.
Qed.

Lemma category_delete_run request category s :
  CategoryDelete_delete request category s
  = match list_find (λ c : ItemCategory, pk c = category) (categories s) with
    | None => (Raise (Http404 "The requested product category does not exist."), s)
    | Some (_, object) =>
        let l := filter (λ i, item_category i = Some (pk object)) (items s) in
        (Ok (HttpResponseRedirect "control:event.items.categories"),
         mkState (filter (λ c, pk c ≠ pk object) (categories s))
                 (foldl (λ rows i, replace_row (detached i) rows) (items s) l)
                 (questions s) (settings s)
                 (logentries s
                  ++ [mkLogEntry (target object) "pretix.event.category.deleted" (user request) []])
                 (writes s ++ ((λ i, RowSave (OnItem (pk i)) None) <$> l))
                 (flash s ++ ["The selected category has been deleted."]))
    end.
Proof.
  unfold CategoryDelete_delete, atomic, CategoryDelete_get_object.
  rewrite bind_assoc, get_by_id_run.
  change (objects (A:=ItemCategory) s) with (categories s).
  destruct (list_find _ (categories s)) as [[j object]|]; [|done].
  cbn [fmap option_fmap option_map snd]. rewrite bind_ret, get_state_run.
  erewrite bind_ok by apply detach_loop. done.
Qed.

(** X3: deleting an existing category first detaches its items (category
    [None], key and position kept, one save per item in the order of the
    table), then removes the row of the category, adds one audit entry
    pretix.event.category.deleted for it and redirects to the category
    list; the other items, the other categories, the questions and the
    settings stay as they are.  An id that names no category of the event
    raises Http404 and changes nothing. *)
Theorem category_delete request category s :
  NoDup (pk <$> items s) →
  (category ∈ (pk <$> categories s) →
   ∃ s', CategoryDelete_delete request category s
         = (Ok (HttpResponseRedirect "control:event.items.categories"), s')
     ∧ categories s' = filter (λ c, pk c ≠ category) (categories s)
     ∧ items s'
       = (λ i, if decide (item_category i = Some category) then detached i else i) <$> items s
     ∧ questions s' = questions s
     ∧ settings s' = settings s
     ∧ writes s'
       = writes s ++ ((λ i, RowSave (OnItem (pk i)) None)
                        <$> filter (λ i, item_category i = Some category) (items s))
     ∧ logentries s'
       = logentries s
         ++ [mkLogEntry (OnCategory category) "pretix.event.category.deleted" (user request) []])
  ∧ (category ∉ (pk <$> categories s) →
     CategoryDelete_delete request category s
     = (Raise (Http404 "The requested product category does not exist."), s)).
Proof.
  intros Hnd. rewrite category_delete_run. split.
  - intros (j & object & -> & <- & _)%find_by_pk. eexists. split; [done|]. simpl.
    split; [done|]. split; [|done].
    rewrite (replace_rows_closed (A:=Item) detached) by
      (done || (intros x [_ Hx]%list_elem_of_filter; exact Hx)).
    apply list_fmap_ext. intros k i Hi. apply list_elem_of_lookup_2 in Hi. simpl.
    destruct (decide (item_category i = Some (category_pk object))) as [Hc|Hc].
    + rewrite decide_True; [done|]. apply (list_elem_of_fmap_2 item_pk).
      by apply list_elem_of_filter.
    + rewrite decide_False; [done|].
      intros (i' & Hpk & [Hc' Hi']%list_elem_of_filter)%list_elem_of_fmap.
      apply Hc. by rewrite (NoDup_fmap_eq pk (items s) i i' Hnd Hi Hi' Hpk).
  - by intros ->%find_by_pk_None.
Qed.

Lemma category_delete_witness :
  ∃ s', CategoryDelete_delete post_request 1 example_state
        = (Ok (HttpResponseRedirect "control:event.items.categories"), s')
    ∧ categories s' = [mkItemCategory 2 1; mkItemCategory 3 2]
    ∧ items s' = [mkItem 11 0 None; mkItem 12 1 None; mkItem 13 2 None;
                  mkItem 14 0 (Some 2%N)].
Proof.
  destruct (category_delete post_request 1 example_state) as [Hfound _].
  - apply (bool_decide_unpack _). vm_compute. reflexivity.
  - destruct Hfound as (s' & Hrun & Hc & Hi & _).
    + apply (bool_decide_unpack _). vm_compute. reflexivity.
    + exists s'. split; [exact Hrun|]. split; [rewrite Hc|rewrite Hi]; vm_compute; reflexivity.
Defined.

Lemma filter_sort_by {A} (key : A → Z) (P : A → Prop) `{∀ x, Decision (P x)} (l : list A) :
  filter P (sort_by key l) = sort_by key (filter P l).
Proof.
  rewrite <- !order_by_sort_by. apply filter_order_by.
  - intros a b. rewrite !Z.leb_le. lia.
  - intros a b c. rewrite !Z.leb_le. lia.
Qed.

Lemma virtual_entry_id st e :
  e ∈ spec_virtual_entries st → entry_id e ∈ system_questions.
Proof.
  unfold spec_virtual_entries. intros (fld & -> & [_ Hfld]%list_elem_of_filter)%list_elem_of_fmap.
  change (fld.1.1.1 ∈ system_questions). rewrite <- (system_field_keys st).
  by apply (list_elem_of_fmap_2 (λ f : string * string * bool * bool, f.1.1.1)).
Qed.

Lemma system_question_not_digit key : key ∈ system_questions → isdigit key = false.
Proof.
  revert key. apply Forall_forall. by repeat constructor.
Qed.

Lemma question_delete_run request question s :
  QuestionDelete_delete request question s
  = match list_find (λ q : Question, pk q = question) (questions s) with
    | None => (Raise (Http404 "The requested question does not exist."), s)
    | Some (_, object) =>
        (Ok (HttpResponseRedirect "control:event.items.questions"),
         mkState (categories s) (items s)
                 (filter (λ q, pk q ≠ pk object) (questions s)) (settings s)
                 (logentries s
                  ++ [mkLogEntry (target object) "pretix.event.question.deleted" (user request) []])
                 (writes s)
                 (flash s ++ ["The selected question has been deleted."]))
    end.
Proof.
  unfold QuestionDelete_delete, atomic, QuestionDelete_get_object.
  rewrite bind_assoc, get_by_id_run.
  change (objects (A:=Question) s) with (questions s).
  by destruct (list_find _ (questions s)) as [[j object]|].
Qed.

(** X4: deleting an existing question removes its row, adds one audit
    entry pretix.event.question.deleted, writes no row and redirects to
    the question list; the question list shown afterwards is the one shown
    before without the entry of that question, all other entries (system
    fields included) in the same order.  An id that names no question of
    the event raises Http404 and changes nothing. *)
Theorem question_delete request question s :
  (question ∈ (pk <$> questions s) →
   ∃ s', QuestionDelete_delete request question s
         = (Ok (HttpResponseRedirect "control:event.items.questions"), s')
     ∧ questions s' = filter (λ q, pk q ≠ question) (questions s)
     ∧ get_context_data s'
       = filter (λ e, entry_id e ≠ str question) (get_context_data s)
     ∧ categories s' = categories s ∧ items s' = items s ∧ settings s' = settings s
     ∧ writes s' = writes s
     ∧ logentries s'
       = logentries s
         ++ [mkLogEntry (OnQuestion question) "pretix.event.question.deleted" (user request) []])
  ∧ (question ∉ (pk <$> questions s) →
     QuestionDelete_delete request question s
     = (Raise (Http404 "The requested question does not exist."), s)).
Proof.
  rewrite question_delete_run. split.
  - intros (j & object & -> & <- & _)%find_by_pk. eexists. split; [done|]. simpl.
    split; [done|]. split; [|done].
    rewrite !get_context_data_spec. simpl. rewrite filter_sort_by, filter_app. f_equal. f_equal.
    + symmetry. apply filter_Forall_id, Forall_forall. intros e He Heq.
      apply virtual_entry_id, system_question_not_digit in He.
      rewrite Heq, isdigit_str in He. done.
    + rewrite filter_fmap. f_equal. apply filter_ext_in. intros q _. simpl.
      split; [intros Hne Heq%str_inj; done|]. intros Hne Heq. apply Hne. by rewrite Heq.
  - by intros ->%find_by_pk_None.
Qed.

Lemma question_delete_witness :
  (∃ s', QuestionDelete_delete post_request 17 example_state
         = (Ok (HttpResponseRedirect "control:event.items.questions"), s')
     ∧ entry_id <$> get_context_data s' = ["attendee_name_parts"; "attendee_email"])
  ∧ QuestionDelete_delete post_request 99 example_state
    = (Raise (Http404 "The requested question does not exist."), example_state).
Proof.
  destruct (question_delete post_request 17 example_state) as [Hfound _].
  destruct (question_delete post_request 99 example_state) as [_ Hmissing].
  split.
  - destruct Hfound as (s' & Hrun & _ & Hlist & _).
    + apply (bool_decide_unpack _). vm_compute. reflexivity.
    + exists s'. split; [exact Hrun|]. rewrite Hlist. vm_compute. reflexivity.
  - apply Hmissing. apply (bool_decide_unpack _). vm_compute. reflexivity.
Defined.

(** *** The item list after the deletion of a category *)

Lemma insert_by_fmap {A} (key : A → Z) (f : A → A) x (l : list A) :
  (∀ a, key (f a) = key a) →
  insert_by key (f x) (f <$> l) = f <$> insert_by key x l.
Proof.
  intros Hkey. induction l as [|y l IH]; [done|].
  rewrite fmap_cons. cbn [insert_by]. rewrite !Hkey.
  destruct (key x <=? key y); [done|]. by rewrite fmap_cons, IH.
Qed.

Lemma sort_by_fmap {A} (key : A → Z) (f : A → A) (l : list A) :
  (∀ a, key (f a) = key a) → sort_by key (f <$> l) = f <$> sort_by key l.
Proof.
  intros Hkey. induction l as [|x l IH]; [done|].
  rewrite fmap_cons. unfold sort_by in *. cbn [foldr]. rewrite IH.
  by apply insert_by_fmap.
Qed.

(** The items of the event after [CategoryDelete.delete] of a category. *)
Lemma category_delete_items request category s :
  NoDup (pk <$> items s) → category ∈ (pk <$> categories s) →
  items (CategoryDelete_delete request category s).2
  = (λ i, if decide (item_category i = Some category) then detached i else i) <$> items s
  ∧ categories (CategoryDelete_delete request category s).2
    = filter (λ c, pk c ≠ category) (categories s).
Proof.
  intros Hnd (j & object & Hf & <- & _)%find_by_pk.
  rewrite category_delete_run, Hf. cbv zeta. simpl. split; [|done].
  rewrite (replace_rows_closed (A:=Item) detached) by
    (done || (intros x [_ Hx]%list_elem_of_filter; exact Hx)).
  apply list_fmap_ext. intros k i Hi. apply list_elem_of_lookup_2 in Hi. simpl.
  destruct (decide (item_category i = Some (category_pk object))) as [Hc|Hc].
  - rewrite decide_True; [done|]. apply (list_elem_of_fmap_2 item_pk).
    by apply list_elem_of_filter.
  - rewrite decide_False; [done|].
    intros (i' & Hpk & [Hc' Hi']%list_elem_of_filter)%list_elem_of_fmap.
    apply Hc. by rewrite (NoDup_fmap_eq pk (items s) i i' Hnd Hi Hi' Hpk).
Qed.

(** X5: after an existing category has been deleted, the product list
    shows its former items in the group without category, merged by
    position with the items that had no category before, and shows every
    other category with the same items as before; the deleted category has
    no entry any more. *)
Theorem category_delete_item_list request category s :
  NoDup (pk <$> items s) → category ∈ (pk <$> categories s) →
  let s' := (CategoryDelete_delete request category s).2 in
  ItemList_get_context_data s'
  = (None, detached <$> sort_by position
             (filter (λ i, item_category i = None ∨ item_category i = Some category)
                     (items s)))
    :: filter (λ entry, is_Some entry.1 ∧ pk <$> entry.1 ≠ Some category)
              (ItemList_get_context_data s).
Proof.
  intros Hnd Hin. cbv zeta. rewrite !cat_list_groups.
  destruct (category_delete_items request category s Hnd Hin) as [-> ->].
  set (f := λ i, if decide (item_category i = Some category) then detached i else i).
  cbn [fmap list_fmap]. rewrite filter_cons_False by (by intros [[? [=]] _]).
  f_equal.
  - f_equal. rewrite <- sort_by_fmap by done.
    f_equal. rewrite filter_fmap.
    rewrite (filter_ext_in _ (λ i, item_category i = None ∨ item_category i = Some category)).
    + apply list_fmap_ext. intros j i Hi. apply list_elem_of_lookup_2 in Hi.
      apply list_elem_of_filter in Hi as [[Hi|Hi] _]; unfold f.
      * rewrite decide_False by congruence. destruct i as [k p c]. simpl in Hi. by subst c.
      * by rewrite decide_True.
    + intros i _. unfold f. simpl. case_decide as Hc; simpl; [tauto|].
      split; [tauto|]. intros [?|?]; done.
  - clear Hin. induction (categories s) as [|c cs IH]; [done|].
    rewrite filter_cons. cbn [fmap list_fmap]. rewrite filter_cons.
    destruct (decide (pk c ≠ category)) as [Hc|Hc].
    + rewrite decide_True by (split; [by eexists|simpl; intros [= Heq]; done]). cbn [fmap list_fmap]. f_equal; [|apply IH].
      f_equal. f_equal. rewrite filter_fmap.
      rewrite (filter_ext_in _ (λ i, item_category i = pk <$> Some c)).
      * etransitivity; [|apply list_fmap_id].
        apply list_fmap_ext. intros j i Hi. apply list_elem_of_lookup_2 in Hi.
        apply list_elem_of_filter in Hi as [Hi _]. unfold f.
        rewrite decide_False; [done|]. rewrite Hi. simpl. intros [= Heq]. done.
      * intros i _. unfold f. simpl. case_decide as Hi; simpl; [|done].
        split; [done|]. rewrite Hi. intros [= Heq]. done.
    + rewrite decide_False; [apply IH|]. intros [_ Hne]. apply Hc. intros Heq. apply Hne. simpl. by f_equal.
Qed.

Lemma category_delete_item_list_witness :
  ItemList_get_context_data (CategoryDelete_delete post_request 2 example_state).2
  = [(None, [mkItem 14 0 None]);
     (Some (mkItemCategory 1 0),
      [mkItem 11 0 (Some 1%N); mkItem 12 1 (Some 1%N); mkItem 13 2 (Some 1%N)]);
     (Some (mkItemCategory 3 2), [])].
Proof.
  etransitivity.
  - apply (category_delete_item_list post_request 2 example_state).
    + apply (bool_decide_unpack _). vm_compute. reflexivity.
    + apply (bool_decide_unpack _). vm_compute. reflexivity.
  - vm_compute. reflexivity.
Defined.

(** ** The move views *)

Lemma move_view_run v request id s :
  move_view v request id s
  = if can_change_items request then
      if String.eqb (method request) "POST" then
        match move (move_view_kind v) request id (move_view_up v) s with
        | (Ok _, s') => (Ok (move_view_redirect v), s')
        | (Raise e, s') => (Raise e, s')
        end
      else (Ok HttpResponseNotAllowed, s)
    else (Raise PermissionDenied, s).
Proof.
  destruct v; unfold move_view, item_move_up, item_move_down, category_move_up,
    category_move_down, event_permission_required, require_POST;
    destruct (can_change_items request); try done;
    destruct (String.eqb (method request) "POST"); try done;
    by rewrite then_ret.
Qed.

(** The move helpers fail only on a missing entity: the entity loaded is
    always found in its scope. *)
Lemma move_run k request id up s :
  move k request id up s
  = if bool_decide (id ∈ (table_view k s).*1) then
      (Ok tt, (move k request id up s).2)
    else (Raise match k with
                | MoveItem => Http404 "The requested product does not exist."
                | MoveCategory => Http404 "The requested product category does not exist."
                end, s).
Proof.
  destruct k; cbn [move table_view]; rewrite row_view_keys.
  - rewrite item_move_run. case_bool_decide as Hid.
    + destruct (find_by_pk id (items s) Hid) as (j & it & -> & _ & Hit).
      assert (it ∈ item_scope it s) as Hscope.
      { unfold item_scope. rewrite sort_by_Permutation. by apply list_elem_of_filter. }
      by destruct (index_of_elem it _ Hscope) as [index ->].
    + by rewrite (find_by_pk_None id (items s) Hid).
  - rewrite category_move_run. case_bool_decide as Hid.
    + destruct (find_by_pk id (categories s) Hid) as (j & cat & -> & _ & Hcat).
      assert (cat ∈ category_scope s) as Hscope.
      { unfold category_scope. by rewrite sort_by_Permutation. }
      by destruct (index_of_elem cat _ Hscope) as [index ->].
    + by rewrite (find_by_pk_None id (categories s) Hid).
Qed.

Lemma move_flash k request id up s :
  id ∈ (table_view k s).*1 →
  flash (move k request id up s).2
  = flash s ++ [match k with
                | MoveItem => "The order of items has been updated."
                | MoveCategory => "The order of categories has been updated."
                end].
Proof.
  destruct k; cbn [move table_view]; rewrite row_view_keys; intros Hid.
  - rewrite item_move_run.
    destruct (find_by_pk id (items s) Hid) as (j & it & -> & _ & Hit).
    assert (it ∈ item_scope it s) as Hscope.
    { unfold item_scope. rewrite sort_by_Permutation. by apply list_elem_of_filter. }
    destruct (index_of_elem it _ Hscope) as [index ->]. simpl.
    unfold item_move_commit. by rewrite flash_commit.
  - rewrite category_move_run.
    destruct (find_by_pk id (categories s) Hid) as (j & cat & -> & _ & Hcat).
    assert (cat ∈ category_scope s) as Hscope.
    { unfold category_scope. by rewrite sort_by_Permutation. }
    destruct (index_of_elem cat _ Hscope) as [index ->]. simpl.
    unfold category_move_commit. by rewrite flash_commit.
Qed.

(** X6: the four move views ([item_move_up], [item_move_down],
    [category_move_up], [category_move_down]) have exactly four outcomes.
    Without the permission the request is refused with PermissionDenied;
    with it, a method other than POST gets the 405 response; in both cases
    nothing changes.  A POST for an id that names no row raises Http404
    with the message of the helper and changes nothing.  A POST for an
    existing id always redirects to the list and adds exactly one message,
    also at the boundary: [items.index(item)] never fails. *)
Theorem move_view_outcome v request id s :
  let r := move_view v request id s in
  (can_change_items request = false → r = (Raise PermissionDenied, s))
  ∧ (can_change_items request = true → method request ≠ "POST" →
     r = (Ok HttpResponseNotAllowed, s))
  ∧ (can_change_items request = true → method request = "POST" →
     id ∉ (table_view (move_view_kind v) s).*1 →
     r = (Raise (move_view_missing v), s))
  ∧ (can_change_items request = true → method request = "POST" →
     id ∈ (table_view (move_view_kind v) s).*1 →
     r.1 = Ok (move_view_redirect v)
     ∧ flash r.2 = flash s ++ [move_view_message v]).
Proof.
  cbv zeta. rewrite move_view_run. split; [by intros ->|]. split; [|split].
  - intros -> Hm. by apply String.eqb_neq in Hm as ->.
  - intros -> -> Hid. simpl. rewrite move_run, bool_decide_false by done.
    unfold move_view_missing. by destruct (move_view_kind v).
  - intros -> -> Hid. simpl. rewrite move_run, bool_decide_true by done.
    split; [done|]. simpl. rewrite move_flash by done.
    unfold move_view_message. by destruct (move_view_kind v).
Qed.

Lemma move_view_outcome_witness :
  move_view ItemMoveUp post_request 99 example_state
  = (Raise (Http404 "The requested product does not exist."), example_state)
  ∧ (move_view CategoryMoveDown post_request 3 example_state).1
    = Ok (HttpResponseRedirect "control:event.items.categories")
  ∧ flash (move_view CategoryMoveDown post_request 3 example_state).2
    = ["The order of categories has been updated."].
Proof.
  pose proof (move_view_outcome ItemMoveUp post_request 99 example_state)
    as (_ & _ & Hmissing & _).
  pose proof (move_view_outcome CategoryMoveDown post_request 3 example_state)
    as (_ & _ & _ & Hfound).
  split.
  - apply Hmissing; [reflexivity|reflexivity|].
    apply (bool_decide_unpack _). vm_compute. reflexivity.
  - apply Hfound; [reflexivity|reflexivity|].
    apply (bool_decide_unpack _). vm_compute. reflexivity.
Defined.

(** *** Moving up and down again *)

Lemma fst_imap_positions (l : list N) : (imap (λ j key, (key, Z.of_nat j)) l).*1 = l.
Proof.
  rewrite fmap_imap. etransitivity; [apply (imap_const id)|apply list_fmap_id].
Qed.

Lemma moved_list_up_down {A} (l : list A) index x :
  l !! index = Some x → index ≠ 0%nat →
  moved_list true index l !! (index - 1)%nat = Some x
  ∧ moved_list false (index - 1) (moved_list true index l) = l.
Proof.
  intros Hx Hne.
  destruct (moved_list_cases true index l x Hx)
    as [[_ [[_ ?]|[? _]]]|(l1 & a & b & l2 & El & Em & [(_ & Hi & Hb)|(? & _)])];
    try done.
  subst l b index. rewrite Em.
  replace (S (length l1) - 1)%nat with (length l1) by lia.
  assert ((l1 ++ x :: a :: l2) !! length l1 = Some x) as Hx' by apply list_lookup_middle, eq_refl.
  split; [done|].
  destruct (moved_list_cases false (length l1) _ x Hx')
    as [[_ [[? _]|[_ Hlen]]]|(l1' & a' & b' & l2' & El & Em' & [(? & _)|(_ & Hl & Ha)])];
    try done.
  - rewrite length_app in Hlen. simpl in Hlen. lia.
  - rewrite Em'. apply app_inj_1 in El as [-> El]; [|done]. by injection El as -> -> ->.
Qed.

Lemma moved_list_down_up {A} (l : list A) index x :
  l !! index = Some x → S index ≠ length l →
  moved_list false index l !! S index = Some x
  ∧ moved_list true (S index) (moved_list false index l) = l.
Proof.
  intros Hx Hne.
  destruct (moved_list_cases false index l x Hx)
    as [[_ [[? _]|[_ ?]]]|(l1 & a & b & l2 & El & Em & [(? & _)|(_ & Hi & Ha)])];
    try done.
  subst l a index. rewrite Em.
  assert ((l1 ++ b :: x :: l2) !! S (length l1) = Some x) as Hx'.
  { rewrite lookup_app_r by lia. by replace (S (length l1) - length l1)%nat with 1%nat by lia. }
  split; [done|].
  destruct (moved_list_cases true (S (length l1)) _ x Hx')
    as [[_ [[_ ?]|[? _]]]|(l1' & a' & b' & l2' & El & Em' & [(_ & Hl & Hb)|(? & _)])];
    try done.
  rewrite Em'. injection Hl as Hl. apply app_inj_1 in El as [-> El]; [|done].
  by injection El as -> -> ->.
Qed.

Lemma scope_in_table k id s index :
  (scope_view k id s).*1 !! index = Some id → id ∈ (table_view k s).*1.
Proof.
  destruct k; cbn [scope_view table_view]; rewrite ?row_view_keys.
  - destruct (list_find _ (items s)) as [[j it]|] eqn:Hf; [|done].
    intros _. apply list_find_Some in Hf as (Hj & <- & _).
    apply list_elem_of_fmap_2. by eapply list_elem_of_lookup_2.
  - intros Hi%list_elem_of_lookup_2. unfold category_scope in Hi.
    by rewrite sort_by_Permutation in Hi.
Qed.

Lemma move_twice k request id up1 up2 s index :
  NoDup (table_view k s).*1 →
  (scope_view k id s).*1 !! index = Some id →
  ∃ s1 s2, move k request id up1 s = (Ok tt, s1)
    ∧ move k request id up2 s1 = (Ok tt, s2)
    ∧ ∀ index', moved_list up1 index (scope_view k id s).*1 !! index' = Some id →
        scope_view k id s2
        = imap (λ j key, (key, Z.of_nat j))
            (moved_list up2 index' (moved_list up1 index (scope_view k id s).*1)).
Proof.
  intros Hnd Hi. pose proof (scope_in_table _ _ _ _ Hi) as Hid.
  pose proof (move_run k request id up1 s) as H1. rewrite bool_decide_true in H1 by done.
  set (s1 := (move k request id up1 s).2) in *.
  assert ((table_view k s1).*1 = (table_view k s).*1) as Hk1 by apply move_keys.
  pose proof (move_run k request id up2 s1) as H2.
  rewrite bool_decide_true in H2 by (by rewrite Hk1).
  exists s1, (move k request id up2 s1).2. split; [done|]. split; [done|].
  intros index' Hi'.
  destruct (move_renumbers_at k request id up1 s s1 index Hnd Hi H1) as [Hs1 _].
  assert ((scope_view k id s1).*1 = moved_list up1 index (scope_view k id s).*1) as Hl1.
  { by rewrite Hs1, fst_imap_positions. }
  assert (NoDup (table_view k s1).*1) as Hnd1 by (by rewrite Hk1).
  rewrite <- Hl1 in Hi'.
  destruct (move_renumbers_at k request id up2 s1 _ index' Hnd1 Hi' H2) as [Hs2 _].
  by rewrite Hs2, Hl1.
Qed.

(** X7: moving an entity up and then down again (when it is not the first
    of its scope), or down and then up again (when it is not the last),
    brings the scope back to the order it had, with positions 0, 1, ...
    along that order.  Positions that had gaps or repetitions before are
    therefore not restored, the order is. *)
Theorem move_round_trip k request id s index :
  NoDup (table_view k s).*1 →
  (scope_view k id s).*1 !! index = Some id →
  (index ≠ 0%nat →
   ∃ s1 s2, move k request id true s = (Ok tt, s1)
     ∧ move k request id false s1 = (Ok tt, s2)
     ∧ scope_view k id s2 = imap (λ j key, (key, Z.of_nat j)) (scope_view k id s).*1)
  ∧ (S index ≠ length (scope_view k id s) →
     ∃ s1 s2, move k request id false s = (Ok tt, s1)
       ∧ move k request id true s1 = (Ok tt, s2)
       ∧ scope_view k id s2 = imap (λ j key, (key, Z.of_nat j)) (scope_view k id s).*1).
Proof.
  intros Hnd Hi. split.
  - intros Hne. destruct (move_twice k request id true false s index Hnd Hi)
      as (s1 & s2 & H1 & H2 & Hs2).
    exists s1, s2. split; [done|]. split; [done|].
    destruct (moved_list_up_down _ _ _ Hi Hne) as [Hi' Hl].
    by rewrite (Hs2 _ Hi'), Hl.
  - intros Hne. destruct (move_twice k request id false true s index Hnd Hi)
      as (s1 & s2 & H1 & H2 & Hs2).
    exists s1, s2. split; [done|]. split; [done|].
    rewrite <- (length_fmap fst) in Hne.
    destruct (moved_list_down_up _ _ _ Hi Hne) as [Hi' Hl].
    by rewrite (Hs2 _ Hi'), Hl.
Qed.

Lemma move_round_trip_witness :
  ∃ s1 s2, move MoveItem post_request 12 true example_state = (Ok tt, s1)
    ∧ move MoveItem post_request 12 false s1 = (Ok tt, s2)
    ∧ scope_view MoveItem 12 s2 = [(11%N, 0); (12%N, 1); (13%N, 2)].
Proof.
  destruct (move_round_trip MoveItem post_request 12 example_state 1) as [Hup _].
  - apply (bool_decide_unpack _). vm_compute. reflexivity.
  - vm_compute. reflexivity.
  - destruct Hup as (s1 & s2 & H1 & H2 & Hs); [lia|].
    exists s1, s2. split; [exact H1|]. split; [exact H2|]. rewrite Hs.
    vm_compute. reflexivity.
Defined.

(** *** What a move leaves alone *)

Section CommitFrame.
Context {A : Type} `{ModelLaws A}.
Variable plan : A → nat → A.
Variable changed : A → nat → Prop.
Context `{∀ x i, Decision (changed x i)}.
Variable entry : A → nat → LogEntry.
Variable fields : option (list string).

(** The loop touches no table but its own. *)
Lemma commit_frame {B} (other : State → B) pairs s :
  (∀ l s, other (set_objects (A:=A) l s) = other s) →
  (∀ e s, other (add_log e s) = other s) →
  (∀ w s, other (add_write w s) = other s) →
  other (commit plan changed entry fields pairs s) = other s.
Proof.
  intros Hs Hl Hw. revert s. induction pairs as [|p pairs IH]; intros s; [done|].
  change (commit plan changed entry fields (p :: pairs) s)
    with (commit plan changed entry fields pairs (commit1 plan changed entry fields s p)).
  rewrite IH. unfold commit1. case_bool_decide; [|done]. by rewrite Hl, Hw, Hs.
Qed.
End CommitFrame.

Lemma item_move_state request id up s :
  id ∈ (pk <$> items s) →
  ∃ it index,
    it ∈ items s ∧ pk it = id
    ∧ scope_view MoveItem id s = row_view (item_scope it s)
    ∧ (move MoveItem request id up s).2
      = add_flash "The order of items has been updated."
          (item_move_commit (user request)
             (enumerate (moved_list up index (item_scope it s))) s)
    ∧ moved_list up index (item_scope it s) ≡ₚ item_scope it s.
Proof.
  intros Hid. cbn [move scope_view]. rewrite item_move_run.
  destruct (find_by_pk id (items s) Hid) as (j & it & -> & Hpk & Hit).
  assert (it ∈ item_scope it s) as Hscope.
  { unfold item_scope. rewrite sort_by_Permutation. by apply list_elem_of_filter. }
  destruct (index_of_elem it _ Hscope) as [index Hi]. rewrite Hi.
  exists it, index. split; [done|]. split; [done|]. split; [done|]. split; [done|].
  unfold index_of in Hi. destruct (list_find _ (item_scope it s)) as [[i x]|] eqn:Hf; [|done].
  injection Hi as ->. apply list_find_Some in Hf as (Hx & _ & _).
  by eapply moved_list_Permutation.
Qed.

Lemma category_move_state request id up s :
  id ∈ (pk <$> categories s) →
  ∃ index,
    (move MoveCategory request id up s).2
    = add_flash "The order of categories has been updated."
        (category_move_commit (user request)
           (enumerate (moved_list up index (category_scope s))) s)
    ∧ moved_list up index (category_scope s) ≡ₚ category_scope s.
Proof.
  intros Hid. cbn [move]. rewrite category_move_run.
  destruct (find_by_pk id (categories s) Hid) as (j & cat & -> & Hpk & Hcat).
  assert (cat ∈ category_scope s) as Hscope.
  { unfold category_scope. by rewrite sort_by_Permutation. }
  destruct (index_of_elem cat _ Hscope) as [index Hi]. rewrite Hi.
  exists index. split; [done|].
  unfold index_of in Hi. destruct (list_find _ (category_scope s)) as [[i x]|] eqn:Hf; [|done].
  injection Hi as ->. apply list_find_Some in Hf as (Hx & _ & _).
  by eapply moved_list_Permutation.
Qed.

Lemma move_missing k request id up s :
  id ∉ (table_view k s).*1 → (move k request id up s).2 = s.
Proof. intros Hid. by rewrite move_run, bool_decide_false. Qed.

Lemma frame_rows {A} `{ModelLaws A} (l rows : list A) key p :
  key ∉ (pk <$> l) →
  (key, p) ∈ row_view (walk strict_plan move_changed (enumerate l) <$> rows)
  ↔ (key, p) ∈ row_view rows.
Proof.
  intros Hkey. unfold row_view. rewrite <- list_fmap_compose, !list_elem_of_fmap.
  assert (∀ r, pk r = key → walk strict_plan move_changed (enumerate l) r = r) as Hsame.
  { intros r <-. by apply not_renumbered. }
  split; intros (r & Heq & Hr); exists r; (split; [|done]); simpl in *.
  - injection Heq as Hk Hp. rewrite pk_walk in Hk. rewrite Hsame in Hp by done. congruence.
  - injection Heq as Hk Hp. rewrite pk_walk. rewrite Hsame by done. congruence.
Qed.

(** X8: a single move never adds or removes a row and changes nothing but
    positions inside the scope of the moved entity: rows outside that scope
    keep their position, every item keeps its category, and the other
    table, the questions and the settings are untouched. *)
Theorem move_frame k request id up s :
  NoDup (table_view k s).*1 →
  let s' := (move k request id up s).2 in
  (table_view k s').*1 = (table_view k s).*1
  ∧ (∀ key p, key ∉ (scope_view k id s).*1 →
       (key, p) ∈ table_view k s' ↔ (key, p) ∈ table_view k s)
  ∧ item_category <$> items s' = item_category <$> items s
  ∧ match k with
    | MoveItem => categories s' = categories s
    | MoveCategory => items s' = items s
    end
  ∧ questions s' = questions s
  ∧ settings s' = settings s.
Proof.
  intros Hnd. cbv zeta. split; [apply move_keys|].
  destruct (decide (id ∈ (table_view k s).*1)) as [Hid|Hid];
    [|rewrite (move_missing _ _ _ _ _ Hid); by destruct k].
  destruct k; cbn [table_view] in *; rewrite row_view_keys in Hnd, Hid.
  - destruct (item_move_state request id up s Hid) as (it & index & Hit & Hpk & Hsc & -> & Hp).
    rewrite Hsc, row_view_keys. unfold item_move_commit.
    set (l := moved_list up index (item_scope it s)) in *.
    assert (l ⊆ items s) as Hsub.
    { intros x Hx. rewrite Hp in Hx. unfold item_scope in Hx.
      rewrite sort_by_Permutation in Hx. by apply list_elem_of_filter in Hx as [_ ?]. }
    assert (NoDup (pk <$> l)) as Hndl.
    { rewrite Hp. unfold item_scope. rewrite sort_by_Permutation. by apply NoDup_fmap_filter. }
    assert (items (add_flash "The order of items has been updated."
                    (commit (A:=Item) strict_plan move_changed
                       (position_entry "pretix.event.item.reordered" (user request)) None
                       (enumerate l) s))
            = walk strict_plan move_changed (enumerate l) <$> items s) as Hitems.
    { exact (objects_commit (A:=Item) _ _ _ _ _ s). }
    rewrite Hitems. split; [|split; [|split; [|split]]].
    + intros key p Hkey. apply (frame_rows (A:=Item)). by rewrite Hp.
    + rewrite <- list_fmap_compose. apply list_fmap_ext. intros j r Hr. simpl.
      apply list_elem_of_lookup_2 in Hr. by apply (item_walk_category l (items s)).
    + simpl. by apply (commit_frame (A:=Item) _ _ _ _ categories).
    + simpl. by apply (commit_frame (A:=Item) _ _ _ _ questions).
    + simpl. apply (settings_commit (A:=Item)).
  - destruct (category_move_state request id up s Hid) as (index & -> & Hp).
    unfold category_move_commit.
    set (l := moved_list up index (category_scope s)) in *.
    assert (categories (add_flash "The order of categories has been updated."
                    (commit (A:=ItemCategory) strict_plan move_changed
                       (position_entry "pretix.event.category.reordered" (user request)) None
                       (enumerate l) s))
            = walk strict_plan move_changed (enumerate l) <$> categories s) as Hcats.
    { exact (objects_commit (A:=ItemCategory) _ _ _ _ _ s). }
    rewrite Hcats.
    assert (items (add_flash "The order of categories has been updated."
                    (commit (A:=ItemCategory) strict_plan move_changed
                       (position_entry "pretix.event.category.reordered" (user request)) None
                       (enumerate l) s)) = items s) as Hitems.
    { simpl. by apply (commit_frame (A:=ItemCategory) _ _ _ _ items). }
    rewrite Hitems.
    split; [|split; [|split; [|split]]]; try done.
    + intros key p Hkey. cbn [scope_view] in Hkey. rewrite row_view_keys in Hkey.
      apply (frame_rows (A:=ItemCategory)). by rewrite Hp.
    + simpl. by apply (commit_frame (A:=ItemCategory) _ _ _ _ questions).
    + simpl. apply (settings_commit (A:=ItemCategory)).
Qed.

Lemma move_frame_witness :
  let s' := (move MoveItem post_request 12 true example_state).2 in
  (table_view MoveItem s').*1 = (table_view MoveItem example_state).*1
  ∧ (∀ key p, key ∉ (scope_view MoveItem 12 example_state).*1 →
       (key, p) ∈ table_view MoveItem s' ↔ (key, p) ∈ table_view MoveItem example_state)
  ∧ item_category <$> items s' = item_category <$> items example_state
  ∧ categories s' = categories example_state
  ∧ questions s' = questions example_state
  ∧ settings s' = settings example_state.
Proof.
  apply (move_frame MoveItem post_request 12 true example_state).
  apply (bool_decide_unpack _). vm_compute. reflexivity.
Defined.

(** ** Reorder requests, read back and repeated *)

(** *** Reading back what a reorder stored *)

Lemma key_position_lookup ids i x :
  NoDup ids → ids !! i = Some x → key_position ids x = Z.of_nat i.
Proof.
  intros Hnd Hi. unfold key_position.
  destruct (list_index_elem x ids) as [j Hj]; [by eapply list_elem_of_lookup_2|].
  rewrite Hj. f_equal. apply list_index_lookup in Hj.
  by apply (NoDup_lookup ids j i x).
Qed.

Lemma key_position_inj ids x y :
  x ∈ ids → y ∈ ids → key_position ids x = key_position ids y → x = y.
Proof.
  intros [i Hi]%list_index_elem [j Hj]%list_index_elem. unfold key_position.
  rewrite Hi, Hj. intros Heq%Nat2Z.inj. subst j.
  apply list_index_lookup in Hi, Hj. congruence.
Qed.

Lemma ids_sorted ids :
  NoDup ids → StronglySorted (λ x y, key_position ids x ≤ key_position ids y) ids.
Proof.
  intros Hnd. apply StronglySorted_by_key.
  assert (key_position ids <$> ids = Z.of_nat <$> seq 0 (length ids)) as ->;
    [|apply seq_sorted].
  apply list_eq. intros i. rewrite !list_lookup_fmap.
  destruct (ids !! i) as [x|] eqn:Hi; simpl.
  - rewrite (key_position_lookup _ _ _ Hnd Hi).
    apply lookup_lt_Some in Hi as Hlt. by rewrite lookup_seq_lt.
  - apply lookup_ge_None in Hi. by rewrite lookup_seq_ge.
Qed.

Lemma StronglySorted_filter {A} (R : relation A) (P : A → Prop) `{∀ x, Decision (P x)} l :
  StronglySorted R l → StronglySorted R (filter P l).
Proof.
  induction 1 as [|x l Hs IH Hx]; [constructor|]. rewrite filter_cons.
  destruct (decide (P x)); [|done]. constructor; [done|].
  apply Forall_forall. intros y [_ Hy]%list_elem_of_filter.
  rewrite Forall_forall in Hx. by apply Hx.
Qed.

Lemma sort_by_ext {A} (key1 key2 : A → Z) (l : list A) :
  (∀ x, x ∈ l → key1 x = key2 x) → sort_by key1 l = sort_by key2 l.
Proof.
  intros Hext. rewrite <- !order_by_sort_by. apply order_by_ext.
  intros a b Ha Hb. by rewrite !Hext.
Qed.

(** Rows that carry the index of their identifier in a duplicate-free
    request come back, by position, in the order of the request. *)
Lemma sort_by_request {A} (ident : A → string) (pos : A → Z) (ids : list string)
    (E : list A) (D : string → Prop) `{∀ x, Decision (D x)} :
  NoDup ids → NoDup (ident <$> E) →
  (∀ e, e ∈ E → pos e = key_position ids (ident e)) →
  (∀ x, x ∈ (ident <$> E) ↔ x ∈ ids ∧ D x) →
  ident <$> sort_by pos E = filter D ids.
Proof.
  intros Hnd HndE Hpos Hel.
  rewrite (sort_by_ext pos (λ e, key_position ids (ident e))) by done.
  set (key := λ e, key_position ids (ident e)).
  assert (ident <$> sort_by key E ≡ₚ filter D ids) as Hperm.
  { apply NoDup_Permutation.
    - by rewrite sort_by_Permutation.
    - by apply NoDup_filter.
    - intros x. rewrite sort_by_Permutation, Hel, list_elem_of_filter. tauto. }
  apply (StronglySorted_unique_strong
           (λ x y, key_position ids x ≤ key_position ids y)); [| | |done].
  - intros x1 x2 H1 H2 Hle1 Hle2. rewrite Hperm in H1.
    apply list_elem_of_filter in H1 as [_ H1], H2 as [_ H2].
    apply (key_position_inj ids); [done|done|lia].
  - apply (StronglySorted_fmap ident (λ a b, key a ≤ key b)); [done|].
    apply sort_by_sorted.
  - by apply StronglySorted_filter, ids_sorted.
Qed.

Lemma reordered_elem {A} `{ModelLaws A} ids (rows : list A) e :
  e ∈ reordered ids rows →
  position e = key_position ids (str (pk e)) ∧ pk e ∈ (pk <$> rows).
Proof.
  unfold reordered. intros (r & -> & Hr)%list_elem_of_fmap.
  rewrite position_set_position, pk_set_position. split; [done|].
  by apply list_elem_of_fmap_2.
Qed.

Lemma str_pk_NoDup {A} `{Model A} (rows : list A) :
  NoDup (pk <$> rows) → NoDup (str <$> (pk <$> rows)).
Proof. apply NoDup_fmap_2. intros x y. apply str_inj. Qed.

(** An accepted strict request names the rows of the scope, each once. *)
Lemma accepted_all_digits {A} `{ModelLaws A} ids (rows : list A) pairs :
  NoDup (pk <$> rows) → indexed ids rows = Some pairs →
  selected ids rows = rows → length rows = length ids →
  filter isdigit ids = ids ∧ ids ≡ₚ str <$> (pk <$> rows).
Proof.
  intros Hnd Hidx Hsel Hlen.
  pose proof (selected_length_le ids rows Hnd) as Hle. rewrite Hsel in Hle.
  pose proof (filter_digits_length ids) as Hle'.
  assert (filter isdigit ids = ids) as Hall by (apply filter_all; lia).
  split; [done|]. rewrite <- Hall at 1. apply (accepted_covers ids rows pairs); [done|done|].
  rewrite Hall. done.
Qed.

(** X9: after a category reorder has succeeded, listing the categories by
    position (as [category_move] does) gives back exactly the submitted
    list of ids, in the submitted order. *)
Theorem reorder_categories_order u ids s s' :
  NoDup (pk <$> categories s) →
  reorder_categories (ids_request u ids) s = (Ok HttpResponse, s') →
  str ∘ pk <$> sort_by position (categories s') = ids.
Proof.
  intros Hnd (Hlen & Hsel & pairs & Hidx & ->)%reorder_categories_ok.
  rewrite (categories_after u ids s pairs Hnd Hidx).
  destruct (accepted_all_digits ids (categories s) pairs Hnd Hidx Hsel Hlen) as [_ Hperm].
  rewrite <- (filter_True ids) at 2.
  apply (sort_by_request (str ∘ pk) position ids _ (λ _, True)).
  - rewrite Hperm. by apply str_pk_NoDup.
  - rewrite list_fmap_compose, pk_reordered. by apply str_pk_NoDup.
  - intros e [He _]%reordered_elem. done.
  - intros x. rewrite list_fmap_compose, pk_reordered, Hperm. tauto.
Qed.

Lemma reorder_categories_order_witness :
  str ∘ pk <$> sort_by position
    (categories (run ReorderCategories (ids_request 7 ["3"; "1"; "2"]) example_state).2)
  = ["3"; "1"; "2"].
Proof.
  apply (reorder_categories_order 7 ["3"; "1"; "2"] example_state).
  - apply (bool_decide_unpack _). vm_compute. reflexivity.
  - vm_compute. reflexivity.
Defined.

Lemma virtual_entry_ids st :
  entry_id <$> spec_virtual_entries st = spec_enabled_keys st.
Proof.
  unfold spec_virtual_entries, spec_enabled_keys. rewrite <- list_fmap_compose.
  by apply list_fmap_ext.
Qed.

Lemma enabled_keys_NoDup st : NoDup (spec_enabled_keys st).
Proof.
  unfold spec_enabled_keys. apply NoDup_fmap_filter. rewrite system_field_keys.
  apply (bool_decide_unpack _). vm_compute. reflexivity.
Qed.

Lemma enabled_keys_system st key : key ∈ spec_enabled_keys st → key ∈ system_questions.
Proof.
  unfold spec_enabled_keys. intros (fld & -> & [_ Hfld]%list_elem_of_filter)%list_elem_of_fmap.
  rewrite <- (system_field_keys st).
  by apply (list_elem_of_fmap_2 (λ f : string * string * bool * bool, f.1.1.1)).
Qed.

Lemma settings_reorder_questions u order pairs s :
  settings (store_order u order (question_commit u pairs s))
  = set_system_question_order order (settings s).
Proof.
  unfold store_order, question_commit. simpl. f_equal.
  apply (settings_commit (A:=Question)).
Qed.

Lemma virtual_entry_position ids st e :
  e ∈ spec_virtual_entries
        (set_system_question_order (fill_pure ids system_questions ∅) st) →
  entry_position e = key_position ids (entry_id e).
Proof.
  intros He. pose proof (virtual_entry_id _ _ He) as Hid.
  unfold spec_virtual_entries in He.
  apply list_elem_of_fmap in He as (fld & -> & _).
  unfold fake in *. cbn [entry_position entry_id fq_position fq_id] in *.
  unfold order_get. cbn [system_question_order set_system_question_order].
  rewrite fill_pure_lookup, decide_True by done. done.
Qed.

(** X10: after a question reorder has succeeded with a duplicate-free
    list that names every enabled system field, the question list shows
    its entries in exactly the submitted order: the submitted ids without
    the keys of system fields that are switched off (and without strings
    that are neither a number nor such a key). *)
Theorem reorder_questions_display u ids s s' :
  NoDup (pk <$> questions s) → NoDup ids →
  (∀ key, key ∈ system_questions → asked (settings s) key = true → key ∈ ids) →
  reorder_questions (ids_request u ids) s = (Ok HttpResponse, s') →
  entry_id <$> get_context_data s'
  = filter (λ x, isdigit x ∨ (x ∈ system_questions ∧ asked (settings s) x = true)) ids.
Proof.
  intros Hnd Hids Hasked (Hlen & Hsel & pairs & Hidx & ->)%reorder_questions_ok.
  pose proof (accepted_covers ids (questions s) pairs Hnd Hidx Hlen) as Hperm.
  rewrite get_context_data_spec, settings_reorder_questions.
  rewrite (questions_after u ids s pairs _ Hnd Hidx).
  set (st' := set_system_question_order (fill_pure ids system_questions ∅) (settings s)).
  assert (spec_enabled_keys st' = spec_enabled_keys (settings s)) as Hen by done.
  assert (∀ x, x ∈ spec_enabled_keys (settings s)
               ↔ x ∈ system_questions ∧ asked (settings s) x = true) as Henabled.
  { intros x. split.
    - intros Hx. pose proof (enabled_keys_system _ _ Hx) as Hsys.
      split; [done|]. by apply asked_enabled.
    - intros [Hsys Hx]. by apply asked_enabled. }
  assert (∀ x, x ∈ (str <$> (pk <$> questions s)) ↔ x ∈ ids ∧ isdigit x) as Hdigits.
  { intros x. rewrite <- Hperm, list_elem_of_filter. tauto. }
  apply (sort_by_request entry_id entry_position); [done| | |].
  - rewrite fmap_app, virtual_entry_ids, Hen, <- list_fmap_compose.
    apply NoDup_app. split; [apply enabled_keys_NoDup|]. split.
    + intros x Hx (e & -> & He)%list_elem_of_fmap.
      apply (enabled_keys_system (settings s)) in Hx. apply system_question_not_digit in Hx.
      simpl in Hx. by rewrite isdigit_str in Hx.
    + change (entry_id ∘ Stored) with (str ∘ pk (A:=Question)).
      rewrite list_fmap_compose, pk_reordered. by apply str_pk_NoDup.
  - intros e [He|(q & -> & Hq)%list_elem_of_fmap]%elem_of_app.
    + exact (virtual_entry_position ids (settings s) e He).
    + apply reordered_elem in Hq as [Hq _]. done.
  - intros x. rewrite fmap_app, virtual_entry_ids, Hen, <- list_fmap_compose, elem_of_app.
    change (entry_id ∘ Stored) with (str ∘ pk (A:=Question)).
    rewrite list_fmap_compose, pk_reordered, Hdigits, Henabled. split.
    + intros [[Hsys Hx]|[Hx Hd]]; [|tauto]. split; [by apply Hasked|tauto].
    + intros [Hx [Hd|Hs]]; tauto.
Qed.

Lemma reorder_questions_display_witness :
  entry_id <$> get_context_data
    (run ReorderQuestions (ids_request 7 ["attendee_email"; "17"; "attendee_name_parts"])
         example_state).2
  = ["attendee_email"; "17"; "attendee_name_parts"].
Proof.
  etransitivity.
  - apply (reorder_questions_display 7 ["attendee_email"; "17"; "attendee_name_parts"]
             example_state).
    + apply (bool_decide_unpack _). vm_compute. reflexivity.
    + apply (bool_decide_unpack _). vm_compute. reflexivity.
    + intros key Hkey Hasked. unfold system_questions in Hkey.
      repeat (apply elem_of_cons in Hkey as [->|Hkey]);
        try (by apply elem_of_nil in Hkey); try discriminate Hasked;
        apply (bool_decide_unpack _); vm_compute; reflexivity.
    + vm_compute. reflexivity.
  - vm_compute. reflexivity.
Defined.

(** *** Submitting the same order again *)

Lemma selected_fmap {A} `{Model A} ids (f : A → A) (rows : list A) :
  (∀ r, pk (f r) = pk r) → selected ids (f <$> rows) = f <$> selected ids rows.
Proof.
  intros Hpk. unfold selected. rewrite filter_fmap. f_equal.
  apply filter_ext_in. intros r _. simpl. by rewrite Hpk.
Qed.

Lemma indexed_fmap {A} `{Model A} ids (f : A → A) (input : list A) pairs :
  (∀ r, pk (f r) = pk r) → indexed ids input = Some pairs →
  indexed ids (f <$> input) = Some ((λ p, (p.1, f p.2)) <$> pairs).
Proof.
  intros Hpk. revert pairs. induction input as [|c input IH]; intros pairs.
  - by intros [= <-].
  - rewrite fmap_cons, !indexed_cons, Hpk.
    destruct (list_index (str (pk c)) ids) as [i|]; [|done]. simpl.
    destruct (indexed ids input) as [ps|]; [|done]. simpl. intros [= <-].
    by rewrite (IH ps eq_refl).
Qed.

Section Again.
Context {A : Type} `{ModelLaws A}.
Variable plan : A → nat → A.
Variable changed : A → nat → Prop.
Context `{∀ x i, Decision (changed x i)}.
Variable entry : A → nat → LogEntry.
Variable fields : option (list string).
Hypothesis pk_plan : ∀ x i, pk (plan x i) = pk x.
Hypothesis plan_settled : ∀ x i, ¬ changed (plan x i) i.

(** After the loop has run, running it for the same request finds nothing
    to change. *)
Lemma commit_again ids pairs s :
  NoDup (pk <$> objects (A:=A) s) →
  indexed ids (selected ids (objects s)) = Some pairs →
  let s1 := commit plan changed entry fields pairs s in
  selected ids (objects s1) = walk plan changed pairs <$> selected ids (objects s)
  ∧ ∃ pairs1, indexed ids (selected ids (objects s1)) = Some pairs1
      ∧ moved changed pairs1 = [].
Proof.
  intros Hnd Hidx s1.
  assert (objects s1 = walk plan changed pairs <$> objects s) as Hobj
    by apply objects_commit.
  assert (selected ids (objects s1) = walk plan changed pairs <$> selected ids (objects s))
    as Hsel.
  { rewrite Hobj. apply selected_fmap. intros r. apply pk_walk. }
  split; [done|]. rewrite Hsel.
  eexists. split; [apply indexed_fmap; [intros r; apply pk_walk|exact Hidx]|].
  unfold moved. apply filter_Forall_nil, Forall_forall.
  intros p' (p & -> & Hp)%list_elem_of_fmap. simpl.
  destruct (indexed_spec _ _ _ Hidx) as [Hin Hall].
  rewrite Forall_forall in Hall. specialize (Hall p Hp).
  assert (p.2 ∈ selected ids (objects s)) as Hsel2.
  { rewrite <- Hin. by apply list_elem_of_fmap_2. }
  assert (selected ids (objects s) ⊆ objects s) as Hsub.
  { intros x Hx. unfold selected in Hx. by apply list_elem_of_filter in Hx as [_ ?]. }
  rewrite (walk_indexed plan changed pk_plan ids (selected ids (objects s)) (objects s) pairs
             p.2 Hnd (NoDup_selected _ _ Hnd) Hsub Hidx (Hsub _ Hsel2)).
  rewrite Hall. case_bool_decide as Hc; [apply plan_settled|].
  intros Hch. apply Hc. split; [|done]. by apply list_elem_of_fmap_2.
Qed.
End Again.

Lemma strict_settled {A} `{ModelLaws A} (x : A) i : ¬ strict_changed (strict_plan x i) i.
Proof. unfold strict_changed, strict_plan. rewrite position_set_position. tauto. Qed.

Lemma relaxed_settled t (x : Item) i : ¬ relaxed_changed t (relaxed_plan t x i) i.
Proof. unfold relaxed_changed, relaxed_plan. simpl. tauto. Qed.

Lemma set_system_question_order_twice order st :
  set_system_question_order order (set_system_question_order order st)
  = set_system_question_order order st.
Proof. done. Qed.

(** X11: submitting the same reorder request a second time succeeds
    again and changes no row and no setting: no row is saved and no
    per-entity audit entry is written.  For items and categories the state
    is left exactly as it was; the question endpoint writes the settings
    entry and its event-level audit entry again. *)
Theorem reorder_idempotent (e : Endpoint) u ids s s1 :
  NoDup (scope_keys e s) →
  run e (ids_request u ids) s = (Ok HttpResponse, s1) →
  ∃ s2, run e (ids_request u ids) s1 = (Ok HttpResponse, s2)
    ∧ categories s2 = categories s1 ∧ items s2 = items s1 ∧ questions s2 = questions s1
    ∧ settings s2 = settings s1
    ∧ saved (writes s2) = saved (writes s1)
    ∧ logged (logentries s2) = logged (logentries s1)
    ∧ match e with ReorderQuestions => True | _ => s2 = s1 end.
Proof.
  destruct e as [category| |]; cbn [run scope_keys]; intros Hnd Hrun.
  - apply reorder_items_ok in Hrun as (Hlen & Ht & pairs & Hidx & ->).
    destruct (commit_again (A:=Item) (relaxed_plan (new_category category))
                (relaxed_changed (new_category category))
                (relaxed_entry (new_category category) u)
                (Some ["position"; "category_id"]) (pk_relaxed_plan _)
                (relaxed_settled _) ids pairs s Hnd Hidx)
      as (Hsel & pairs1 & Hidx1 & Hfix).
    exists (item_commit u (new_category category) pairs s).
    split; [|by repeat split].
    rewrite reorder_items_run. cbv zeta.
    change (items (item_commit u (new_category category) pairs s))
      with (objects (A:=Item) (commit (relaxed_plan (new_category category))
                (relaxed_changed (new_category category))
                (relaxed_entry (new_category category) u)
                (Some ["position"; "category_id"]) pairs s)).
    rewrite Hidx1, Hsel, length_fmap, bool_decide_false by (by intros ?).
    assert (target_of category (item_commit u (new_category category) pairs s)
            = target_of category s) as ->.
    { unfold target_of, item_commit. by rewrite (commit_frame (A:=Item) _ _ _ _ categories). }
    rewrite Ht. unfold item_commit. by rewrite (commit_moved _ _ _ _ pairs1), Hfix.
  - apply reorder_categories_ok in Hrun as (Hlen & Hall & pairs & Hidx & ->).
    rewrite <- Hall in Hidx.
    destruct (commit_again (A:=ItemCategory) strict_plan strict_changed
                (position_entry "pretix.event.category.reordered" u)
                (Some ["position"]) (λ x i, pk_set_position _ x)
                strict_settled ids pairs s Hnd Hidx)
      as (Hsel & pairs1 & Hidx1 & Hfix).
    exists (category_commit u pairs s).
    split; [|by repeat split].
    rewrite reorder_categories_run. cbv zeta.
    change (categories (category_commit u pairs s))
      with (objects (A:=ItemCategory) (commit strict_plan strict_changed
                (position_entry "pretix.event.category.reordered" u)
                (Some ["position"]) pairs s)).
    rewrite Hidx1, Hsel, length_fmap.
    change (objects (A:=ItemCategory) s) with (categories s). rewrite Hall.
    rewrite bool_decide_false by (by intros ?).
    rewrite (objects_commit (A:=ItemCategory)), length_fmap.
    rewrite bool_decide_false by (by intros ?).
    unfold category_commit. by rewrite (commit_moved _ _ _ _ pairs1), Hfix.
  - apply reorder_questions_ok in Hrun as (Hlen & Hall & pairs & Hidx & ->).
    rewrite <- Hall in Hidx.
    destruct (commit_again (A:=Question) strict_plan strict_changed
                (position_entry "pretix.event.question.reordered" u)
                (Some ["position"]) (λ x i, pk_set_position _ x)
                strict_settled ids pairs s Hnd Hidx)
      as (Hsel & pairs1 & Hidx1 & Hfix).
    set (order := fill_pure ids system_questions ∅).
    set (s1 := store_order u order (question_commit u pairs s)).
    exists (store_order u order s1).
    split.
    + rewrite reorder_questions_run. cbv zeta.
      change (questions s1)
        with (objects (A:=Question) (commit strict_plan strict_changed
                (position_entry "pretix.event.question.reordered" u)
                (Some ["position"]) pairs s)).
      rewrite Hidx1, Hsel, length_fmap.
      change (objects (A:=Question) s) with (questions s). rewrite Hall.
      rewrite bool_decide_false by (by intros ?).
      rewrite (objects_commit (A:=Question)), length_fmap.
      rewrite bool_decide_false by (by intros ?).
      unfold question_commit. by rewrite (commit_moved _ _ _ _ pairs1), Hfix.
    + split; [done|]. split; [done|]. split; [done|]. split; [done|].
      rewrite saved_store_order, logged_store_order. done.
Qed.

Lemma reorder_idempotent_witness :
  let request := ids_request 7 ["3"; "1"; "2"] in
  let s1 := (run ReorderCategories request example_state).2 in
  run ReorderCategories request s1 = (Ok HttpResponse, s1).
Proof.
  cbv zeta.
  destruct (reorder_idempotent ReorderCategories 7 ["3"; "1"; "2"] example_state
              (run ReorderCategories (ids_request 7 ["3"; "1"; "2"]) example_state).2)
    as (s2 & Hrun & _ & _ & _ & _ & _ & _ & Hsame).
  - apply (bool_decide_unpack _). vm_compute. reflexivity.
  - vm_compute. reflexivity.
  - rewrite Hrun. f_equal. exact Hsame.
Defined.

(** *** The relaxed request *)

Lemma selected_selected {A} `{Model A} ids (rows : list A) :
  selected ids (selected ids rows) = selected ids rows.
Proof.
  unfold selected. apply filter_Forall_id, Forall_forall.
  by intros r [Hr _]%list_elem_of_filter.
Qed.

Lemma selected_named {A} `{Model A} ids (rows : list A) pairs r :
  indexed ids (selected ids rows) = Some pairs → r ∈ rows →
  pk r ∈ (pk <$> selected ids rows) ↔ str (pk r) ∈ ids.
Proof.
  intros Hidx Hr. split.
  - intros (c & Hpk & Hc)%list_elem_of_fmap. rewrite Hpk.
    by apply (proj1 (indexed_is_Some ids (selected ids rows)) (mk_is_Some _ _ Hidx)).
  - intros Hin. apply list_elem_of_fmap_2. unfold selected. apply list_elem_of_filter.
    split; [|done]. apply list_elem_of_omap. exists (str (pk r)). split; [|apply int_str].
    apply list_elem_of_filter. split; [|done]. apply Is_true_true, isdigit_str.
Qed.

(** X12: when an item reorder succeeds, the submitted ids are, up to
    order, the ids of the items of the event they name, each once, and the
    category of the URL is 0 or a category of the event.  Every named item
    then has the index of its id as position and the target category (none
    for 0), wherever it was before; every other item, and the categories,
    questions and settings, are unchanged. *)
Theorem reorder_items_effect u ids category s s' :
  NoDup (pk <$> items s) →
  reorder_items (ids_request u ids) category s = (Ok HttpResponse, s') →
  ids ≡ₚ str ∘ pk <$> filter (λ r, str (pk r) ∈ ids) (items s)
  ∧ (category = 0%N ∨ category ∈ (pk <$> categories s))
  ∧ items s'
    = (λ r, if decide (str (pk r) ∈ ids)
            then mkItem (pk r) (key_position ids (str (pk r))) (new_category category)
            else r) <$> items s
  ∧ categories s' = categories s ∧ questions s' = questions s ∧ settings s' = settings s.
Proof.
  intros Hnd Hrun. pose proof (relaxed_table u ids category s s' Hnd Hrun) as Htable.
  apply reorder_items_ok in Hrun as (Hlen & Ht & pairs & Hidx & ->).
  assert (∀ r, r ∈ items s → pk r ∈ (pk <$> selected ids (items s)) ↔ str (pk r) ∈ ids)
    as Hnamed by (intros r Hr; by eapply selected_named).
  split; [|split; [|split; [|split; [|split]]]].
  - destruct (accepted_all_digits ids (selected ids (items s)) pairs
                (NoDup_selected _ _ Hnd) Hidx (selected_selected _ _) Hlen) as [_ ->].
    rewrite <- list_fmap_compose.
    match goal with |- ?a ≡ₚ ?b => assert (a = b) as ->; [|done] end.
    f_equal. unfold selected.
    apply filter_ext_in. intros r Hr. rewrite <- (Hnamed r Hr).
    unfold selected. rewrite list_elem_of_fmap. split.
    + intros Hin. exists r. split; [done|]. by apply list_elem_of_filter.
    + intros (c & Hpk & [Hc Hcin]%list_elem_of_filter). by rewrite Hpk.
  - unfold target_of in Ht. case_bool_decide as Hc; [right|by left].
    destruct (list_find _ (categories s)) as [[j c]|] eqn:Hf; [|done].
    apply list_find_Some in Hf as (Hj & <- & _).
    apply list_elem_of_fmap_2. by eapply list_elem_of_lookup_2.
  - rewrite Htable. apply list_fmap_ext. intros j r Hr.
    apply list_elem_of_lookup_2 in Hr. specialize (Hnamed r Hr).
    destruct (decide (pk r ∈ (pk <$> selected ids (items s))));
      destruct (decide (str (pk r) ∈ ids)); tauto.
  - unfold item_commit. by apply (commit_frame (A:=Item) _ _ _ _ categories).
  - unfold item_commit. by apply (commit_frame (A:=Item) _ _ _ _ questions).
  - unfold item_commit. apply (settings_commit (A:=Item)).
Qed.

Lemma reorder_items_effect_witness :
  let s' := (run (ReorderItems 2) (ids_request 7 ["12"; "11"]) example_state).2 in
  items s' = [mkItem 11 1 (Some 2%N); mkItem 12 0 (Some 2%N); mkItem 13 2 (Some 1%N);
              mkItem 14 0 (Some 2%N)]
  ∧ categories s' = categories example_state.
Proof.
  cbv zeta.
  destruct (reorder_items_effect 7 ["12"; "11"] 2 example_state
              (run (ReorderItems 2) (ids_request 7 ["12"; "11"]) example_state).2)
    as (_ & _ & Hi & Hc & _).
  - apply (bool_decide_unpack _). vm_compute. reflexivity.
  - vm_compute. reflexivity.
  - split; [|exact Hc]. rewrite Hi. vm_compute. reflexivity.
Defined.

(** X13: an item reorder with plain ids whose URL names a category (within
    the range of a key) that does not exist and is not 0 never succeeds.
    When all ids resolve, the lookup of the category raises DoesNotExist,
    which the view does not turn into a 404; otherwise the ids are
    rejected first with Http404.  Nothing changes in either case. *)
Theorem reorder_items_missing_category u ids category s :
  plain_ids ids → (category < 2 ^ 63)%N →
  category ≠ 0%N → category ∉ (pk <$> categories s) →
  reorder_items (ids_request u ids) category s
  = if bool_decide (length (selected ids (items s)) = length ids)
    then (Raise DoesNotExist, s)
    else (Raise (Http404 invalid_ids), s).
Proof.
  intros _ _ Hc Hmiss. rewrite reorder_items_run. cbv zeta.
  destruct (decide (length (selected ids (items s)) = length ids)) as [Hlen|Hlen].
  - rewrite bool_decide_false by (by intros ?). rewrite bool_decide_true by done.
    unfold target_of. rewrite bool_decide_true by done.
    by rewrite (find_by_pk_None category (categories s) Hmiss).
  - by rewrite bool_decide_true, bool_decide_false.
Qed.

Lemma reorder_items_missing_category_witness :
  reorder_items (ids_request 7 ["11"]) 9 example_state = (Raise DoesNotExist, example_state)
  ∧ reorder_items (ids_request 7 ["99"]) 9 example_state
    = (Raise (Http404 invalid_ids), example_state).
Proof.
  split.
  - etransitivity; [apply (reorder_items_missing_category 7 ["11"] 9 example_state)|].
    + apply (bool_decide_unpack _). vm_compute. reflexivity.
    + reflexivity.
    + discriminate.
    + apply (bool_decide_unpack _). vm_compute. reflexivity.
    + vm_compute. reflexivity.
  - etransitivity; [apply (reorder_items_missing_category 7 ["99"] 9 example_state)|].
    + apply (bool_decide_unpack _). vm_compute. reflexivity.
    + reflexivity.
    + discriminate.
    + apply (bool_decide_unpack _). vm_compute. reflexivity.
    + vm_compute. reflexivity.
Defined.

(** *** Bodies that are JSON but not the expected shape *)

(** X14: for an authorised POST, a body that is valid JSON but not an
    object, or whose [ids] is [null], a boolean or a number, leaves each of
    the three reorder endpoints with an uncaught TypeError, and an [ids]
    array with an element that is not a string leaves it with an uncaught
    AttributeError, instead of the 400 response; nothing changes. *)
Theorem ids_type_errors (e : Endpoint) request s :
  can_change_items request = true → method request = "POST" →
  (∀ v, body request = Some v → ¬ is_object v →
        run e request s = (Raise TypeError, s))
  ∧ (∀ fields v, body request = Some (JObject fields) → dict_get "ids" fields = Some v →
        scalar v → run e request s = (Raise TypeError, s))
  ∧ (∀ fields l, body request = Some (JObject fields) →
        dict_get "ids" fields = Some (JArray l) → mapM as_str l = None →
        run e request s = (Raise AttributeError, s)).
Proof.
  intros Hperm Hpost. split; [|split].
  - intros v Hbody Hv.
    destruct e; cbn [run]; unfold reorder_items, reorder_categories, reorder_questions,
      atomic, event_permission_required, require_POST, load_ids;
      rewrite Hperm, Hpost, Hbody; by destruct v.
  - intros fields v Hbody Hids Hv.
    destruct e; cbn [run]; unfold reorder_items, reorder_categories, reorder_questions,
      atomic, event_permission_required, require_POST, load_ids;
      rewrite Hperm, Hpost, Hbody; simpl; rewrite Hids; by destruct v.
  - intros fields l Hbody Hids Hl.
    destruct e; cbn [run]; unfold reorder_items, reorder_categories, reorder_questions,
      atomic, event_permission_required, require_POST, load_ids;
      rewrite Hperm, Hpost, Hbody; cbn [String.eqb Ascii.eqb Bool.eqb];
      rewrite (bind_ret (dict_get "ids" fields)), Hids;
      (erewrite bind_raise; [done|]); unfold as_ids; by rewrite Hl.
Qed.

Lemma ids_type_errors_witness :
  run ReorderCategories (mkRequest "POST" 7 true (Some (JArray []))) example_state
  = (Raise TypeError, example_state)
  ∧ run ReorderQuestions
      (mkRequest "POST" 7 true (Some (JObject [("ids", JArray [JString "17"; JNumber 3])])))
      example_state
    = (Raise AttributeError, example_state).
Proof.
  split.
  - destruct (ids_type_errors ReorderCategories
                (mkRequest "POST" 7 true (Some (JArray []))) example_state eq_refl eq_refl)
      as [Hbody _].
    apply (Hbody (JArray [])); [reflexivity|]. intros [].
  - destruct (ids_type_errors ReorderQuestions
                (mkRequest "POST" 7 true
                   (Some (JObject [("ids", JArray [JString "17"; JNumber 3])])))
                example_state eq_refl eq_refl)
      as (_ & _ & Helem).
    apply (Helem [("ids", JArray [JString "17"; JNumber 3])] [JString "17"; JNumber 3]);
      reflexivity.
Defined.

(** ** An invariant of all views *)

Section Keeps.
Variable I : State → Prop.

Lemma keeps_ret {A} (a : A) (Q : A → Prop) : Q a → keeps I (mret a) Q.
Proof. intros Ha s Hs. split; [done|]. by intros ? [= <-]. Qed.

Lemma keeps_raise {A} (e : Exn) (Q : A → Prop) : keeps I (raise e) Q.
Proof. intros s Hs. by split. Qed.

Lemma keeps_bind {A B} (m : M A) (f : A → M B) (Q : A → Prop) (R : B → Prop) :
  keeps I m Q → (∀ a, Q a → keeps I (f a) R) → keeps I (m ≫= f) R.
Proof.
  intros Hm Hf s Hs. destruct (Hm s Hs) as [Hs' Ha].
  unfold mbind, M_bind. destruct (m s) as [[a|e] s']; simpl in *; [|by split].
  by apply Hf; [apply Ha|].
Qed.

Lemma keeps_weaken {A} (m : M A) (Q R : A → Prop) :
  keeps I m Q → (∀ a, Q a → R a) → keeps I m R.
Proof. intros Hm HQR s Hs. destruct (Hm s Hs) as [Hs' Ha]. split; [done|]. auto. Qed.

Lemma keeps_get_state : keeps I get_state I.
Proof. intros s Hs. split; [done|]. by intros ? [= <-]. Qed.

Lemma keeps_atomic {A} (m : M A) (Q : A → Prop) : keeps I m Q → keeps I (atomic m) Q.
Proof.
  intros Hm s Hs. destruct (Hm s Hs) as [Hs' Ha]. unfold atomic.
  destruct (m s) as [[a|e] s']; simpl in *; by split.
Qed.

Lemma keeps_for_each {A} (l : list A) (body : A → M unit) :
  (∀ x, x ∈ l → keeps I (body x) (λ _, True)) → keeps I (for_each l body) (λ _, True).
Proof.
  induction l as [|x l IH]; intros Hbody; [by apply keeps_ret|].
  cbn [for_each]. eapply keeps_bind; [apply Hbody; left|]. intros _ _.
  apply IH. intros y Hy. apply Hbody. by right.
Qed.

Lemma keeps_modify (f : State → State) :
  (∀ s, I s → I (f s)) → keeps I (modify f) (λ _, True).
Proof. intros Hf s Hs. split; [by apply Hf|done]. Qed.

Lemma keeps_permission {A} request (m : M A) (Q : A → Prop) :
  keeps I m Q → keeps I (event_permission_required request m) Q.
Proof.
  intros Hm. unfold event_permission_required.
  destruct (can_change_items request); [done|apply keeps_raise].
Qed.

Lemma keeps_POST request (m : M Response) :
  keeps I m (λ _, True) → keeps I (require_POST request m) (λ _, True).
Proof.
  intros Hm. unfold require_POST.
  destruct (String.eqb (method request) "POST"); [done|by apply keeps_ret].
Qed.
End Keeps.

Lemma pk_replace_row {A} `{Model A} (obj : A) (rows : list A) :
  pk <$> replace_row obj rows = pk <$> rows.
Proof.
  unfold replace_row. rewrite <- list_fmap_compose. apply list_fmap_ext.
  intros i r _. simpl. by case_decide.
Qed.

Lemma elem_of_replace_row {A} `{Model A} (obj : A) (rows : list A) r :
  r ∈ replace_row obj rows → r = obj ∨ r ∈ rows.
Proof.
  unfold replace_row. intros (x & -> & Hx)%list_elem_of_fmap. case_decide; auto.
Qed.

Section KeysAre.
Variables kc ki kq : list N.

Lemma keeps_save_item (obj : Item) fields :
  (∀ k, item_category obj = Some k → k ∈ kc) →
  keeps (keys_are kc ki kq) (save obj fields) (λ _, True).
Proof.
  intros Hobj. apply keeps_modify. intros s (Hc & Hi & Hq & Hfk).
  split; [done|]. split; [|split; [done|]].
  - change (pk <$> replace_row obj (items s) = ki). by rewrite (pk_replace_row (A:=Item)).
  - intros i k Hin Hk. change (i ∈ replace_row obj (items s)) in Hin.
    apply (elem_of_replace_row (A:=Item)) in Hin as [->|Hin]; [by apply Hobj|].
    by eapply Hfk.
Qed.

Lemma keeps_save_category (obj : ItemCategory) fields :
  keeps (keys_are kc ki kq) (save obj fields) (λ _, True).
Proof.
  apply keeps_modify. intros s (Hc & Hi & Hq & Hfk).
  split; [|done]. change (pk <$> replace_row obj (categories s) = kc).
  by rewrite (pk_replace_row (A:=ItemCategory)).
Qed.

Lemma keeps_save_question (obj : Question) fields :
  keeps (keys_are kc ki kq) (save obj fields) (λ _, True).
Proof.
  apply keeps_modify. intros s (Hc & Hi & Hq & Hfk).
  split; [done|]. split; [done|]. split; [|done].
  change (pk <$> replace_row obj (questions s) = kq).
  by rewrite (pk_replace_row (A:=Question)).
Qed.

Lemma keeps_log_action t action u data :
  keeps (keys_are kc ki kq) (log_action t action u data) (λ _, True).
Proof. by apply keeps_modify. Qed.

Lemma keeps_messages_success msg : keeps (keys_are kc ki kq) (messages_success msg) (λ _, True).
Proof. by apply keeps_modify. Qed.

Lemma keeps_load_ids request : keeps (keys_are kc ki kq) (load_ids request) (λ _, True).
Proof.
  unfold load_ids. destruct (body request) as [[]|];
    try apply keeps_raise; by apply keeps_ret.
Qed.

Lemma keeps_as_ids v : keeps (keys_are kc ki kq) (as_ids v) (λ _, True).
Proof.
  unfold as_ids. destruct v; try apply keeps_raise; try by apply keeps_ret.
  destruct (mapM as_str l); [by apply keeps_ret|apply keeps_raise].
Qed.

Lemma keeps_ids_index ids x : keeps (keys_are kc ki kq) (ids_index ids x) (λ _, True).
Proof.
  unfold ids_index. destruct ids; try apply keeps_raise.
  - destruct (list_index x l); [by apply keeps_ret|apply keeps_raise].
  - destruct (String.index 0 x s); [by apply keeps_ret|apply keeps_raise].
Qed.

Lemma keeps_fill_order ids keys order :
  keeps (keys_are kc ki kq) (fill_order ids keys order) (λ _, True).
Proof.
  revert order. induction keys as [|key keys IH]; intros order; [by apply keeps_ret|].
  cbn [fill_order]. destruct (ids_contains ids key); [|apply IH].
  eapply keeps_bind; [apply keeps_ids_index|]. intros i _. apply IH.
Qed.

Lemma keeps_filter_id_in {A} `{Model A} vals :
  keeps (keys_are kc ki kq) (filter_id_in (A:=A) vals) (λ _, True).
Proof.
  unfold filter_id_in. eapply keeps_bind; [apply keeps_get_state|].
  intros s _. by apply keeps_ret.
Qed.

Lemma keeps_count {A} `{Model A} : keeps (keys_are kc ki kq) (count (A:=A)) (λ _, True).
Proof.
  unfold count. eapply keeps_bind; [apply keeps_get_state|].
  intros s _. by apply keeps_ret.
Qed.

Lemma keeps_get_category id :
  keeps (keys_are kc ki kq) (get_by_id (A:=ItemCategory) id)
    (λ found, ∀ c, found = Some c → pk c ∈ kc).
Proof.
  unfold get_by_id. eapply keeps_bind; [apply keeps_get_state|].
  intros s (Hc & _). apply keeps_ret. intros c Hfound.
  destruct (list_find _ (objects s)) as [[j x]|] eqn:Hf; [|done]. injection Hfound as ->.
  apply list_find_Some in Hf as (Hj & _ & _). rewrite <- Hc.
  apply list_elem_of_fmap_2. by eapply list_elem_of_lookup_2.
Qed.

Lemma keeps_get_item id :
  keeps (keys_are kc ki kq) (get_by_id (A:=Item) id)
    (λ found, ∀ i, found = Some i → ∀ k, item_category i = Some k → k ∈ kc).
Proof.
  unfold get_by_id. eapply keeps_bind; [apply keeps_get_state|].
  intros s (_ & _ & _ & Hfk). apply keeps_ret. intros i Hfound k Hk.
  destruct (list_find _ (objects s)) as [[j x]|] eqn:Hf; [|done]. injection Hfound as ->.
  apply list_find_Some in Hf as (Hj & _ & _). apply (Hfk i k); [|done].
  by eapply list_elem_of_lookup_2.
Qed.

Lemma keeps_reorder_items request category :
  keeps (keys_are kc ki kq) (reorder_items request category) (λ _, True).
Proof.
  unfold reorder_items. apply keeps_atomic, keeps_permission, keeps_POST.
  eapply keeps_bind; [apply keeps_load_ids|]. intros [v|] _; [|by apply keeps_ret].
  eapply keeps_bind; [apply keeps_as_ids|]. intros ids _.
  eapply keeps_bind; [apply (keeps_filter_id_in (A:=Item))|]. intros input _.
  case_bool_decide; [apply keeps_raise|].
  eapply (keeps_bind _ _ _ (λ t, ∀ k, t = Some k → k ∈ kc)).
  - case_bool_decide; [|by apply keeps_ret].
    eapply keeps_bind; [apply keeps_get_category|]. intros [c|] Hc; [|apply keeps_raise].
    apply keeps_ret. intros k [= <-]. by apply Hc.
  - intros t Ht. eapply keeps_bind; [|intros _ _; by apply keeps_ret].
    apply keeps_for_each. intros i _.
    eapply keeps_bind; [apply keeps_ids_index|]. intros pos _.
    case_bool_decide; [|by apply keeps_ret].
    eapply keeps_bind; [by apply keeps_save_item|]. intros _ _. apply keeps_log_action.
Qed.

Lemma keeps_reorder_categories request :
  keeps (keys_are kc ki kq) (reorder_categories request) (λ _, True).
Proof.
  unfold reorder_categories. apply keeps_atomic, keeps_permission, keeps_POST.
  eapply keeps_bind; [apply keeps_load_ids|]. intros [v|] _; [|by apply keeps_ret].
  eapply keeps_bind; [apply keeps_as_ids|]. intros ids _.
  eapply keeps_bind; [apply (keeps_filter_id_in (A:=ItemCategory))|]. intros input _.
  case_bool_decide; [apply keeps_raise|].
  eapply keeps_bind; [apply (keeps_count (A:=ItemCategory))|]. intros n _.
  case_bool_decide; [apply keeps_raise|].
  eapply keeps_bind; [|intros _ _; by apply keeps_ret].
  apply keeps_for_each. intros c _.
  eapply keeps_bind; [apply keeps_ids_index|]. intros pos _.
  case_bool_decide; [|by apply keeps_ret].
  eapply keeps_bind; [apply keeps_save_category|]. intros _ _. apply keeps_log_action.
Qed.

Lemma keeps_reorder_questions request :
  keeps (keys_are kc ki kq) (reorder_questions request) (λ _, True).
Proof.
  unfold reorder_questions. apply keeps_atomic, keeps_permission, keeps_POST.
  eapply keeps_bind; [apply keeps_load_ids|]. intros [v|] _; [|by apply keeps_ret].
  eapply keeps_bind; [apply keeps_as_ids|]. intros ids _. cbv zeta.
  eapply keeps_bind; [apply (keeps_filter_id_in (A:=Question))|]. intros input _.
  case_bool_decide; [apply keeps_raise|].
  eapply keeps_bind; [apply (keeps_count (A:=Question))|]. intros n _.
  case_bool_decide; [apply keeps_raise|].
  eapply keeps_bind.
  { apply keeps_for_each. intros c _.
    eapply keeps_bind; [apply keeps_ids_index|]. intros pos _.
    case_bool_decide; [|by apply keeps_ret].
    eapply keeps_bind; [apply keeps_save_question|]. intros _ _. apply keeps_log_action. }
  intros _ _. eapply keeps_bind; [apply keeps_fill_order|]. intros order _.
  eapply keeps_bind; [by apply keeps_modify|]. intros _ _.
  eapply keeps_bind; [apply keeps_log_action|]. intros _ _. by apply keeps_ret.
Qed.
End KeysAre.

Lemma enumerate_elem {A} (l : list A) i x : (i, x) ∈ enumerate l → x ∈ l.
Proof.
  rewrite enumerate_enum_from. intros (j & _ & Hj)%enum_from_elem.
  by eapply list_elem_of_lookup_2.
Qed.

Lemma index_of_Some {A} `{Model A} (x : A) (l : list A) index :
  index_of x l = Some index → ∃ y, l !! index = Some y.
Proof.
  unfold index_of. destruct (list_find _ l) as [[i y]|] eqn:Hf; [|done].
  intros [= <-]. apply list_find_Some in Hf as (Hy & _ & _). by exists y.
Qed.

Section KeysMove.
Variables kc ki kq : list N.

Lemma keeps_item_move request id up : keeps (keys_are kc ki kq) (item_move request id up) (λ _, True).
Proof.
  unfold item_move. eapply keeps_bind; [apply (keeps_get_item kc ki kq)|].
  intros [it|] Hit; [|apply keeps_raise].
  eapply keeps_bind; [apply keeps_get_state|]. intros s (_ & _ & _ & Hfk). cbv zeta.
  set (scope := sort_by position
                  (filter (λ i : Item, item_category i = item_category it) (objects s))).
  destruct (index_of it scope) as [index|] eqn:Hi; [|apply keeps_raise].
  destruct (index_of_Some _ _ _ Hi) as [y Hy].
  eapply keeps_bind; [|intros _ _; apply keeps_messages_success].
  apply keeps_for_each. intros [i item] Hin%enumerate_elem.
  change (item ∈ moved_list up index scope) in Hin.
  rewrite (moved_list_Permutation up index scope y Hy) in Hin.
  unfold scope in Hin. rewrite sort_by_Permutation in Hin.
  apply list_elem_of_filter in Hin as [_ Hin].
  case_bool_decide; [|by apply keeps_ret].
  eapply keeps_bind; [|intros _ _; apply keeps_log_action].
  apply keeps_save_item. intros k Hk. by apply (Hfk item k).
Qed.

Lemma keeps_category_move request id up :
  keeps (keys_are kc ki kq) (category_move request id up) (λ _, True).
Proof.
  unfold category_move. eapply keeps_bind; [apply (keeps_get_category kc ki kq)|].
  intros [cat|] _; [|apply keeps_raise].
  eapply keeps_bind; [apply keeps_get_state|]. intros s _. cbv zeta.
  destruct (index_of cat _) as [index|]; [|apply keeps_raise].
  eapply keeps_bind; [|intros _ _; apply keeps_messages_success].
  apply keeps_for_each. intros [i c] _.
  case_bool_decide; [|by apply keeps_ret].
  eapply keeps_bind; [|intros _ _; apply keeps_log_action].
  apply keeps_save_category.
Qed.

Lemma keeps_move_view v request id : keeps (keys_are kc ki kq) (move_view v request id) (λ _, True).
Proof.
  destruct v; unfold move_view, item_move_up, item_move_down, category_move_up,
    category_move_down; apply keeps_permission, keeps_POST;
    (eapply keeps_bind; [|intros _ _; by apply keeps_ret]);
    apply keeps_item_move || apply keeps_category_move.
Qed.
End KeysMove.

Lemma well_formed_keys s :
  well_formed s
  ↔ NoDup (pk <$> categories s) ∧ NoDup (pk <$> items s) ∧ NoDup (pk <$> questions s)
    ∧ keys_are (pk <$> categories s) (pk <$> items s) (pk <$> questions s) s.
Proof.
  unfold well_formed, keys_are, categories_exist. split.
  - intros (Hc & Hi & Hq & Hfk). repeat split; done.
  - intros (Hc & Hi & Hq & _ & _ & _ & Hfk). repeat split; done.
Qed.

Lemma keeps_well_formed {A} (m : M A) s :
  (∀ kc ki kq, keeps (keys_are kc ki kq) m (λ _, True)) →
  well_formed s → well_formed (m s).2.
Proof.
  intros Hm (Hc & Hi & Hq & Hk)%well_formed_keys.
  destruct (Hm _ _ _ s Hk) as [(Hc' & Hi' & Hq' & Hfk) _].
  apply well_formed_keys. rewrite Hc', Hi', Hq'. repeat split; done.
Qed.

Lemma category_delete_well_formed request category s :
  well_formed s → well_formed (CategoryDelete_delete request category s).2.
Proof.
  intros (Hc & Hi & Hq & Hfk). rewrite category_delete_run.
  destruct (list_find _ (categories s)) as [[j object]|]; [|done]. cbv zeta. simpl.
  rewrite (replace_rows_closed (A:=Item) detached) by
    (done || (intros x [_ Hx]%list_elem_of_filter; exact Hx)).
  split; [by apply NoDup_fmap_filter|]. split; [|split; [done|]].
  - cbn [items]. rewrite <- list_fmap_compose.
    erewrite (list_fmap_ext _ item_pk); [done|]. intros i r _. simpl. by case_decide.
  - unfold categories_exist. cbn [items categories].
    intros i k (r & -> & Hr)%list_elem_of_fmap Hk.
    destruct (decide (pk r ∈ _)) as [Hin|Hout]; [done|].
    apply list_elem_of_fmap. specialize (Hfk r k Hr Hk).
    apply list_elem_of_fmap in Hfk as (c & -> & Hcin). exists c. split; [done|].
    apply list_elem_of_filter. split; [|done]. intros Heq. apply Hout.
    apply (list_elem_of_fmap_2 item_pk). apply list_elem_of_filter. split; [|done].
    simpl in *. by rewrite Hk, Heq.
Qed.

Lemma question_delete_well_formed request question s :
  well_formed s → well_formed (QuestionDelete_delete request question s).2.
Proof.
  intros (Hc & Hi & Hq & Hfk). rewrite question_delete_run.
  destruct (list_find _ (questions s)) as [[j object]|]; [|done].
  split; [done|]. split; [done|]. split; [|done]. simpl. by apply NoDup_fmap_filter.
Qed.

(** X15: every view that writes to the three tables (the reorder
    endpoints, the move views, the deletion of a category or a question)
    keeps the store well formed, for every request and every outcome: keys
    stay unique in each table and no item is left with the id of a
    category that does not exist. *)
Theorem views_keep_well_formed v request s :
  well_formed s → well_formed (run_view v request s).2.
Proof.
  destruct v as [e|v id|category|question]; cbn [run_view].
  - intros Hs. apply keeps_well_formed; [|done]. intros kc ki kq.
    destruct e; cbn [run];
      [apply keeps_reorder_items|apply keeps_reorder_categories|apply keeps_reorder_questions].
  - intros Hs. apply keeps_well_formed; [|done]. intros kc ki kq. apply keeps_move_view.
  - apply category_delete_well_formed.
  - apply question_delete_well_formed.
Qed.

Lemma views_keep_well_formed_witness :
  well_formed (run_view (ViewCategoryDelete 1) post_request example_state).2.
Proof.
  apply (views_keep_well_formed (ViewCategoryDelete 1) post_request example_state).
  apply example_state_well_formed.
Defined.

(** ** The quota page: [QuotaView] *)

Lemma with_value_abs_label d : row_label (with_value_abs d) = row_label d.
Proof. unfold with_value_abs. destruct (row_value d); [|done..]. by destruct (z <? 0). Qed.

Lemma with_value_abs_value d : row_value (with_value_abs d) = row_value d.
Proof.
  unfold with_value_abs. destruct (row_value d) eqn:E; [|done..]. by destruct (z <? 0).
Qed.

Lemma with_value_abs_sum d : row_sum (with_value_abs d) = row_sum d.
Proof. unfold with_value_abs. destruct (row_value d); [|done..]. by destruct (z <? 0). Qed.

Lemma chart_rows_filter data :
  Forall (λ r, row_sum r = true → ∃ z, row_value r = CInt z) data →
  chart_rows data
  = Some (filter (λ r, row_sum r && nonneg_int (row_value r) = true) data).
Proof.
  induction 1 as [|r data Hr _ IH]; [done|]. cbn [chart_rows]. rewrite IH, filter_cons.
  destruct (row_sum r) eqn:Hs.
  - destruct (Hr eq_refl) as [z Hz]. rewrite Hz. simpl.
    destruct (0 <=? z); by simpl.
  - by simpl.
Qed.

Lemma filter_bool {A} (f : A → bool) (l : list A) :
  filter (λ x, f x = true) l = List.filter f l.
Proof.
  induction l as [|x l IH]; [done|]. rewrite filter_cons. simpl. rewrite IH.
  destruct (f x); by simpl.
Qed.

Lemma quota_context object qa :
  QuotaView_get_context_data object qa
  = Some (mkQuotaContext (results qa)
            (filter (λ r, row_sum r && nonneg_int (row_value r) = true)
                    (with_value_abs <$> quota_data object qa))
            (with_value_abs <$> quota_data object qa)
            match quota_size object with
            | Some size =>
                count_paid_orders qa + count_pending_orders qa
                + count_vouchers qa + count_cart qa
                - (if release_after_exit object then count_exited_orders qa else 0)
                - size
            | None => 0
            end).
Proof.
  unfold QuotaView_get_context_data, quota_data.
  rewrite filter_bool.
  destruct (release_after_exit object), (quota_size object) as [size|];
    cbn -[chart_rows with_value_abs Z.add Z.sub Z.mul filter].
  all: rewrite chart_rows_filter;
    [|repeat constructor; rewrite ?with_value_abs_value, ?with_value_abs_sum;
      simpl; try done; by eexists].
  all: cbn -[with_value_abs Z.add Z.sub Z.mul filter];
    repeat first [done | lia | progress f_equal].
Qed.

Lemma cell_of_with_value_abs label rows :
  cell_of label (with_value_abs <$> rows) = cell_of label rows.
Proof.
  unfold cell_of. rewrite list_find_fmap, <- option_fmap_compose.
  erewrite (list_find_ext _ (λ r, row_label r = label)).
  - apply option_fmap_ext. intros [i r]. simpl. apply with_value_abs_value.
  - intros r. simpl. by rewrite with_value_abs_label.
Qed.

Lemma summed_with_value_abs rows :
  row_value <$> filter (λ d, row_sum d = true) (with_value_abs <$> rows)
  = row_value <$> List.filter row_sum rows.
Proof.
  rewrite filter_fmap, <- list_fmap_compose, <- filter_bool.
  erewrite (filter_ext_in _ (λ d, row_sum d = true)).
  - apply list_fmap_ext. intros i r _. apply with_value_abs_value.
  - intros r _. simpl. by rewrite with_value_abs_sum.
Qed.

(** X16: the quota page never fails with a TypeError, also for an
    unlimited quota whose available value is the text Infinite.  The rows
    marked [sum] add up to paid + pending + vouchers + carts, minus the
    exit scans when the quota releases after exit.  For a limited quota
    the row Available quota shows size minus that total, [quota_overbooked]
    is the total minus size (its opposite), and Currently for sale shows
    the number the availability computation returned; for an unlimited
    quota Available quota shows Infinite, [quota_overbooked] is 0 and
    there is no row Currently for sale. *)
Theorem quota_accounting object qa :
  ∃ ctx total,
    QuotaView_get_context_data object qa = Some ctx
    ∧ sum_cells (row_value <$> filter (λ d, row_sum d = true) (quota_table_rows ctx))
      = Some total
    ∧ total = count_paid_orders qa + count_pending_orders qa + count_vouchers qa
              + count_cart qa
              - (if release_after_exit object then count_exited_orders qa else 0)
    ∧ match quota_size object with
      | Some size =>
          cell_of "Available quota" (quota_table_rows ctx) = Some (CInt (size - total))
          ∧ quota_overbooked ctx = total - size
          ∧ cell_of "Currently for sale" (quota_table_rows ctx)
            = Some (from_option CInt CNone (results qa).2)
      | None =>
          cell_of "Available quota" (quota_table_rows ctx) = Some (CStr "Infinite")
          ∧ quota_overbooked ctx = 0
          ∧ cell_of "Currently for sale" (quota_table_rows ctx) = None
      end.
Proof.
  rewrite quota_context. eexists _, _. split; [reflexivity|].
  cbn [quota_table_rows quota_overbooked].
  rewrite summed_with_value_abs.
  split; [|split; [reflexivity|]].
  - unfold quota_data. destruct (release_after_exit object), (quota_size object);
      cbn -[Z.add Z.sub Z.mul]; f_equal; lia.
  - destruct (quota_size object) as [size|] eqn:Hsize;
      rewrite !cell_of_with_value_abs; unfold quota_data; rewrite Hsize;
      destruct (release_after_exit object); vm_compute list_find;
      repeat split; repeat first [done | lia | progress f_equal].
Qed.

Lemma quota_data_fresh object qa d :
  d ∈ quota_data object qa →
  row_value_abs d = None
  ∧ (row_label d = "Exit scans" → row_value d = CInt (-1 * count_exited_orders qa)).
Proof.
  unfold quota_data.
  destruct (release_after_exit object), (quota_size object);
    cbn -[Z.mul Z.add Z.sub]; intros Hd;
    repeat (apply elem_of_cons in Hd as [->|Hd]; [by split|]);
    by apply elem_of_nil in Hd.
Qed.

(** X17: in the table of the quota page a row carries [value_abs], the
    absolute value, exactly when its value is a negative integer.  The
    chart shows exactly the summed rows with a non-negative value, none of
    which carries [value_abs]; the row Exit scans is not in the chart once
    there is an exit scan. *)
Theorem quota_table_presentation object qa :
  ∃ ctx,
    QuotaView_get_context_data object qa = Some ctx
    ∧ (∀ r, r ∈ quota_table_rows ctx →
         row_value_abs r = match row_value r with
                           | CInt z => if decide (z < 0) then Some (- z) else None
                           | _ => None
                           end)
    ∧ quota_chart_data ctx
      = filter (λ r, row_sum r && nonneg_int (row_value r) = true) (quota_table_rows ctx)
    ∧ (∀ r, r ∈ quota_chart_data ctx → row_value_abs r = None)
    ∧ (0 < count_exited_orders qa → "Exit scans" ∉ (row_label <$> quota_chart_data ctx)).
Proof.
  rewrite quota_context. eexists. split; [reflexivity|].
  cbn [quota_table_rows quota_chart_data].
  assert (∀ r, r ∈ (with_value_abs <$> quota_data object qa) →
            row_value_abs r = match row_value r with
                              | CInt z => if decide (z < 0) then Some (- z) else None
                              | _ => None
                              end) as Habs.
  { intros r (d & -> & Hd)%list_elem_of_fmap.
    destruct (quota_data_fresh _ _ _ Hd) as [Hnone _].
    rewrite with_value_abs_value. unfold with_value_abs.
    destruct (row_value d) as [z| |]; try done.
    destruct (Z.ltb_spec z 0); simpl.
    - rewrite decide_True by done. f_equal. lia.
    - rewrite decide_False by lia. done. }
  split; [done|]. split; [done|]. split.
  - intros r [Hr Hin]%list_elem_of_filter. rewrite (Habs r Hin).
    destruct (row_value r) as [z| |]; try done.
    rewrite decide_False; [done|]. apply andb_prop in Hr as [_ Hz]. simpl in Hz.
    apply Z.leb_le in Hz. lia.
  - intros Hex (r & Hl & [Hr Hin]%list_elem_of_filter)%list_elem_of_fmap.
    apply list_elem_of_fmap in Hin as (d & -> & Hd).
    rewrite with_value_abs_label in Hl. rewrite with_value_abs_value in Hr.
    destruct (quota_data_fresh _ _ _ Hd) as [_ Hval].
    rewrite (Hval (eq_sym Hl)) in Hr. apply andb_prop in Hr as [_ Hz]. simpl in Hz.
    apply Z.leb_le in Hz. lia.
Qed.

(** X18: a POST to the quota page without the permission raises
    PermissionDenied and one for an unknown quota raises Http404, both
    without any change.  Otherwise it redirects to the quota page; the
    quota is open afterwards when reopen or disable was posted, and no
    longer closes when sold out when disable was posted; its size and the
    other quotas are unchanged.  reopen logs one opened entry and one
    message, disable logs an opened and a changed entry and one message,
    both together do both, and a POST with neither leaves the quotas as
    they are, logs nothing and adds no message. *)
Theorem quota_post request POST quota st :
  let reopen := bool_decide ("reopen" ∈ POST) in
  let disable := bool_decide ("disable" ∈ POST) in
  let r := QuotaView_post request POST quota st in
  (can_change_items request = false → r = (Raise PermissionDenied, st))
  ∧ (can_change_items request = true → quota ∉ (quota_pk <$> quotas st) →
     r = (Raise (Http404 "The requested quota does not exist."), st))
  ∧ (can_change_items request = true → quota ∈ (quota_pk <$> quotas st) →
     r.1 = Ok (HttpResponseRedirect "control:event.items.quotas.show")
     ∧ quotas r.2
       = (λ q, if decide (quota_pk q = quota) then
                 mkQuota (quota_pk q) (quota_size q) (release_after_exit q)
                   (quota_closed q && negb (reopen || disable))
                   (close_when_sold_out q && negb disable)
               else q) <$> quotas st
     ∧ quota_log_action <$> quota_logentries r.2
       = (quota_log_action <$> quota_logentries st)
         ++ (if reopen then ["pretix.event.quota.opened"] else [])
         ++ (if disable then ["pretix.event.quota.opened"; "pretix.event.quota.changed"]
             else [])
     ∧ length (quota_messages r.2)
       = (length (quota_messages st) + (if reopen then 1 else 0)
          + (if disable then 1 else 0))%nat).
Proof.
  cbv zeta. unfold QuotaView_post, QuotaView_get_object. split; [by intros ->|]. split.
  - intros -> Hmiss. simpl.
    assert (list_find (λ q, quota_pk q = quota) (quotas st) = None) as ->; [|done].
    apply list_find_None, Forall_forall. intros q Hq Heq. apply Hmiss.
    rewrite <- Heq. by apply list_elem_of_fmap_2.
  - intros -> (q0 & -> & Hq0)%list_elem_of_fmap. simpl.
    destruct (list_find_elem_of (λ q, quota_pk q = quota_pk q0) (quotas st) q0 Hq0 eq_refl)
      as [[j q] Hf]. rewrite Hf.
    apply list_find_Some in Hf as (Hj & Hpk & _).
    destruct (bool_decide ("reopen" ∈ POST)), (bool_decide ("disable" ∈ POST)); simpl;
      (split; [done|]);
      (split; [|split; [rewrite ?fmap_app; simpl; by rewrite <- ?app_assoc, ?app_nil_r
                       |rewrite ?length_app; simpl; lia]]).
    all: rewrite <- ?list_fmap_compose.
    all: try match goal with
             | |- ?l = _ <$> ?l => rewrite <- (list_fmap_id l) at 1
             end.
    all: apply list_fmap_ext; intros i r Hr; simpl; rewrite ?Hpk.
    all: destruct r as [k sz rae c1 c2]; simpl;
      destruct (decide (k = quota_pk q0)); simpl; rewrite ?decide_True by done;
      rewrite ?decide_False by done; rewrite ?andb_false_r, ?andb_true_r; done.
Qed.

Lemma quota_post_witness :
  let st := mkQuotaStore [mkQuota 5 (Some 10) false true true;
                          mkQuota 6 None false true true] [] [] in
  let r := QuotaView_post post_request ["disable"] 5 st in
  r.1 = Ok (HttpResponseRedirect "control:event.items.quotas.show")
  ∧ quotas r.2 = [mkQuota 5 (Some 10) false false false; mkQuota 6 None false true true]
  ∧ quota_log_action <$> quota_logentries r.2
    = ["pretix.event.quota.opened"; "pretix.event.quota.changed"].
Proof.
  cbv zeta.
  pose proof (quota_post post_request ["disable"] 5
                (mkQuotaStore [mkQuota 5 (Some 10) false true true;
                               mkQuota 6 None false true true] [] []))
    as (_ & _ & Hfound).
  destruct Hfound as (Hr & Hq & Hl & _); [reflexivity| |].
  - apply (bool_decide_unpack _). vm_compute. reflexivity.
  - split; [exact Hr|]. split; [rewrite Hq|rewrite Hl]; vm_compute; reflexivity.
Defined.

(** ** Deleting a product: [ItemDelete] *)

Lemma replaced_product (rows : list Product) (o' p : Product) :
  p ∈ ((λ r, if decide (product_pk r = product_pk o') then o' else r) <$> rows)
  ↔ (p = o' ∧ product_pk o' ∈ (product_pk <$> rows))
    ∨ (p ∈ rows ∧ product_pk p ≠ product_pk o').
Proof.
  rewrite list_elem_of_fmap. split.
  - intros (r & -> & Hr). case_decide as Hk.
    + left. split; [done|]. rewrite <- Hk. by apply list_elem_of_fmap_2.
    + right. done.
  - intros [[-> (r & Hk & Hr)%list_elem_of_fmap]|[Hp Hk]].
    + exists r. split; [|done]. by rewrite decide_True.
    + exists p. split; [|done]. by rewrite decide_False.
Qed.

Lemma try_delete_outcome o u c :
  let r := try_delete o u c in
  r.1 = bool_decide (is_Some (product_protected o))
  ∧ products r.2
    = (if r.1 then products c else filter (λ p, product_pk p ≠ product_pk o) (products c))
  ∧ product_log_action <$> product_logentries r.2
    = (product_log_action <$> product_logentries c)
      ++ match product_protected o with
         | None | Some DeleteItem => ["pretix.event.item.deleted"]
         | Some _ => []
         end
  ∧ product_messages r.2 = product_messages c
  ∧ (product_protected o = Some DeleteAddonCarts → cartpositions r.2 = cartpositions c)
  ∧ (product_protected o ≠ Some DeleteAddonCarts → product_protected o ≠ Some DeleteCarts →
     ∀ pos, pos ∈ cartpositions r.2 → cart_item pos ≠ product_pk o).
Proof.
  cbv zeta. unfold try_delete. destruct (product_protected o) as [[]|]; simpl;
    rewrite ?fmap_app, ?app_nil_r; repeat split; try done.
  all: intros _ _ pos [Hpos _]%list_elem_of_filter; done.
Qed.

Lemma deactivate_outcome o u c :
  product_messages (deactivate o u c) = product_messages c
  ∧ cartpositions (deactivate o u c) = cartpositions c
  ∧ product_log_action <$> product_logentries (deactivate o u c)
    = (product_log_action <$> product_logentries c) ++ ["pretix.event.item.changed"]
  ∧ (∀ p, p ∈ products (deactivate o u c) → product_pk p = product_pk o →
          product_active p = false)
  ∧ (product_pk o ∈ (product_pk <$> products c) →
     product_pk o ∈ (product_pk <$> products (deactivate o u c)))
  ∧ (∀ p, product_pk p ≠ product_pk o →
          p ∈ products (deactivate o u c) ↔ p ∈ products c).
Proof.
  unfold deactivate. cbv zeta.
  cbn [products cartpositions product_logentries product_messages].
  set (o' := mkProduct (product_pk o) false (product_allow_delete o) (product_protected o)).
  rewrite fmap_app. repeat split; try done.
  - intros p [[-> _]|[_ Hne]]%replaced_product Hpk; done.
  - intros Hin. apply list_elem_of_fmap. exists o'. split; [done|].
    apply replaced_product. left. done.
  - intros [[-> _]|[Hp _]]%replaced_product; done.
  - intros Hp. apply replaced_product. right. done.
Qed.

(** X19: deleting a product that does not exist raises Http404 and
    changes nothing.  For an existing product the view always redirects
    to the product list, and the product is never left active: it is gone
    when deletion is allowed and no ProtectedError occurs, and it is still
    there but deactivated otherwise.  Other products are untouched.  The
    audit log gets deleted, or changed, or, when the ProtectedError comes
    from the delete of the product itself, deleted followed by changed; an
    error message is shown exactly when a ProtectedError occurred.  Cart
    positions are untouched when deletion is not allowed or fails at the
    first statement, and no cart position of the product is left once the
    second statement has run. *)
Theorem item_delete request item c :
  let r := ItemDelete_delete request item c in
  (item ∉ (product_pk <$> products c) →
   r = (Raise (Http404 "The requested product does not exist."), c))
  ∧ (item ∈ (product_pk <$> products c) →
     ∃ o, o ∈ products c ∧ product_pk o = item
       ∧ r.1 = Ok (HttpResponseRedirect "control:event.items")
       ∧ (∀ p, p ∈ products r.2 → product_pk p = item → product_active p = false)
       ∧ (item ∈ (product_pk <$> products r.2)
          ↔ product_allow_delete o = false ∨ is_Some (product_protected o))
       ∧ (∀ p, product_pk p ≠ item → p ∈ products r.2 ↔ p ∈ products c)
       ∧ product_log_action <$> product_logentries r.2
         = (product_log_action <$> product_logentries c) ++ delete_actions o
       ∧ fst <$> product_messages r.2
         = (fst <$> product_messages c) ++ [delete_level o]
       ∧ (product_allow_delete o = false ∨ product_protected o = Some DeleteAddonCarts →
          cartpositions r.2 = cartpositions c)
       ∧ (product_allow_delete o = true → product_protected o ≠ Some DeleteAddonCarts →
          product_protected o ≠ Some DeleteCarts →
          ∀ pos, pos ∈ cartpositions r.2 → cart_item pos ≠ item)).
Proof.
  cbv zeta. unfold ItemDelete_delete, ItemDelete_get_object. split.
  - intros Hmiss.
    assert (list_find (λ p, product_pk p = item) (products c) = None) as ->; [|done].
    apply list_find_None, Forall_forall. intros q Hq Heq. apply Hmiss.
    rewrite <- Heq. by apply list_elem_of_fmap_2.
  - intros (o0 & -> & Ho0)%list_elem_of_fmap.
    destruct (list_find_elem_of (λ p, product_pk p = product_pk o0) (products c) o0 Ho0 eq_refl)
      as [[j o] Hf]. rewrite Hf.
    apply list_find_Some in Hf as (Hj & Hpk & _).
    assert (o ∈ products c) as Ho by (by eapply list_elem_of_lookup_2).
    exists o. split; [done|]. split; [done|]. rewrite <- Hpk.
    assert (product_pk o ∈ (product_pk <$> products c)) as Hin by (by apply list_elem_of_fmap_2).
    unfold delete_actions, delete_level.
    destruct (product_allow_delete o) eqn:Hallow.
    + destruct (try_delete_outcome o (user request) c) as (He & Hp & Hl & Hm & Hc1 & Hc2).
      destruct (try_delete o (user request) c) as [err c1]. simpl in He, Hp, Hl, Hm, Hc1, Hc2.
      subst err. simpl.
      destruct (product_protected o) as [step|] eqn:Hprot.
      * rewrite bool_decide_true in * by done.
        destruct (deactivate_outcome o (user request) c1) as (Dm & Dc & Dl & Dp1 & Dp2 & Dp3).
        cbn -[could_not_be_deleted deactivate]. rewrite fmap_app, Dm, Dl, Hl, Hm, Dc.
        split; [done|]. split; [done|]. rewrite Hp in Dp2, Dp3.
        split; [split; [by right|auto]|]. split; [done|].
        split; [destruct step; simpl; by rewrite <- ?app_assoc, ?app_nil_r|].
        split; [done|]. split.
        -- intros [?|[= ->]]; [done|]. by apply Hc1.
        -- intros _ H1 H2. by apply Hc2.
      * rewrite bool_decide_false in * by (by intros [? ?]).
        simpl. rewrite fmap_app, Hl, Hm, Hp.
        split; [done|]. split; [by intros p [Hne _]%list_elem_of_filter|].
        split.
        { split; [|by intros [?|[? ?]]].
          by intros (p & Heq & [Hne _]%list_elem_of_filter)%list_elem_of_fmap. }
        split; [intros p Hne; rewrite list_elem_of_filter; tauto|].
        split; [done|]. split; [done|]. split; [by intros [?|?]|].
        intros _ H1 H2. by apply Hc2.
    + destruct (deactivate_outcome o (user request) c) as (Dm & Dc & Dl & Dp1 & Dp2 & Dp3).
      cbn -[deactivate]. rewrite fmap_app, Dm, Dl, Dc.
      split; [done|]. split; [done|]. split; [split; [by left|auto]|].
      split; [done|]. split; [done|]. split; [done|]. split; [done|]. done.
Qed.

Lemma item_delete_witness :
  let c := mkCatalog [mkProduct 3 true true (Some DeleteItem); mkProduct 4 true true None]
                     [mkCartPosition 1 3 None] [] [] in
  let r := ItemDelete_delete post_request 3 c in
  products r.2 = [mkProduct 3 false true (Some DeleteItem); mkProduct 4 true true None]
  ∧ product_log_action <$> product_logentries r.2
    = ["pretix.event.item.deleted"; "pretix.event.item.changed"]
  ∧ fst <$> product_messages r.2 = [LevelError]
  ∧ cartpositions r.2 = [].
Proof.
  cbv zeta.
  pose proof (item_delete post_request 3
                (mkCatalog [mkProduct 3 true true (Some DeleteItem);
                            mkProduct 4 true true None]
                           [mkCartPosition 1 3 None] [] []))
    as [_ Hfound].
  destruct Hfound as (o & Ho & Hpk & _ & _ & _ & _ & Hl & Hm & _).
  - apply (bool_decide_unpack _). vm_compute. reflexivity.
  - split; [vm_compute; reflexivity|]. split; [|split; [|vm_compute; reflexivity]].
    + rewrite Hl. simpl in Ho.
      repeat (apply elem_of_cons in Ho as [->|Ho]); try discriminate Hpk;
        [reflexivity|by apply elem_of_nil in Ho].
    + rewrite Hm. simpl in Ho.
      repeat (apply elem_of_cons in Ho as [->|Ho]); try discriminate Hpk;
        [reflexivity|by apply elem_of_nil in Ho].
Defined.
